(** * biocharv5: the circular-flow diagram renderer and the auth middleware

    A shallow embedding of

    - [src/unnamed/part_006]: the [CircularSankeyHomepage] component with the
      staged reveal ([ANIMATION_PHASES], [getNodePhase], [getLinkPhase],
      [getPhaseStartTime], [generateLinkPath], the link and node passes, the
      viewport fit and the particle scheduling);
    - [src/unnamed/part_005]: the earlier copy of the same component (one
      curve direction per loop, no staged reveal);
    - [src/middleware.ts]: the basic-auth gate;
    - [src/unnamed/part_004]: the two versions of the tooltip placement;
    - [src/unnamed/part_002]: the toggle of the home page;
    - [src/unnamed/part_001]: the configuration of the detail page a click
      on a node leads to.

    Numbers.  A TypeScript [number] is an IEEE double.  Coordinates, sizes,
    opacities and times are modelled as exact rationals [Q]: rounding is left
    out, and every statement below about numeric values is a statement of
    exact arithmetic, compared with [==].  Division by zero is [0] in [Q] and
    [Infinity]/[NaN] in the source, so statements that divide carry the
    hypothesis that the divisor is positive.  Array indices and phase numbers
    are integers ([nat], [Z]).

    Paths.  [generateLinkPath] returns the text of an SVG [d] attribute built
    by a template literal.  The text is modelled by the list of path commands
    it spells, one constructor per command letter, with the interpolated
    numbers as arguments; the empty string is the empty list. *)

From Stdlib Require Import ZArith QArith Qminmax Qround Qabs Lqa Lia.
From Stdlib Require Import List String Ascii Bool DecimalString.
From stdpp Require Import gmap strings.
Import ListNotations.

Local Open Scope Q_scope.

(** ** JavaScript values *)

(** [a < b] on numbers. *)
Definition Qltb (a b : Q) : bool := negb (Qle_bool b a).

(** Truthiness of a number that is present: [0] is falsy. *)
Definition truthy_num (q : Q) : bool := negb (Qeq_bool q 0).

(** [v || d] for an optional number: [undefined] and [0] give [d]. *)
Definition num_or (v : option Q) (d : Q) : Q :=
  match v with
  | Some q => if truthy_num q then q else d
  | None => d
  end.

(** Truthiness of an optional string: [undefined]/[null] and [''] are falsy. *)
Definition truthy_str (v : option string) : bool :=
  match v with
  | Some s => negb (String.eqb s "")
  | None => false
  end.

(** The outcome of code that may throw. *)
Inductive outcome (A : Type) : Type :=
| Ok (a : A)
| Throw.
Arguments Ok {A} a.
Arguments Throw {A}.

(** ** Data model (the interfaces of part_006) *)

Module DiagramNode.
Record t : Type := mk {
  id : string;
  name : string;
  x : Q;
  y : Q;
  width : Q;
  height : Q;
  color : string;
  icon : string;
  iconOnly : option bool;
  showLabel : option bool;
  fontSize : option Q;
  labelOffset : option Q
}.
End DiagramNode.

Module DiagramLink.
Record t : Type := mk {
  id : string;
  source : string;
  target : string;
  value : Q;
  color : string;
  label : option string;
  labelPosition : option Q;
  animationFrequency : option Q;
  animationRate : option Q;
  animationSize : option Q;
  particleIconSource : option string;
  particleIcon : option string;
  particleType : option string;
  returnY : option Q
}.
End DiagramLink.

Module Metadata.
Record t : Type := mk {
  title : string;
  description : string;
  type : string;
  system : string
}.
End Metadata.

Module DiagramData.
Record t : Type := mk {
  metadata : option Metadata.t;
  nodes : list DiagramNode.t;
  links : list DiagramLink.t;
  config_width : Q;
  config_height : Q
}.
End DiagramData.

(** [new Map(diagramData.nodes.map(node => [node.id, node]))]: entries are
    inserted in array order, so a later node replaces an earlier one with the
    same id. *)
Definition nodeMap (nodes : list DiagramNode.t) : gmap string DiagramNode.t :=
  foldl (fun m node => <[DiagramNode.id node := node]> m) ∅ nodes.

(** ** Path commands *)

Inductive PathCmd : Type :=
| MoveTo (x y : Q)                       (* M x y *)
| LineTo (x y : Q)                       (* L x y *)
| QuadTo (cx cy x y : Q)                 (* Q cx cy x y *)
| CurveTo (c1x c1y c2x c2y x y : Q).     (* C c1x c1y, c2x c2y, x y *)

Definition Path : Type := list PathCmd.

Definition Point : Type := (Q * Q)%type.

(** The point a command ends at. *)
Definition cmd_end (c : PathCmd) : Point :=
  match c with
  | MoveTo x y => (x, y)
  | LineTo x y => (x, y)
  | QuadTo _ _ x y => (x, y)
  | CurveTo _ _ _ _ x y => (x, y)
  end.

(** Where the path text starts: the coordinates of its leading [M]. *)
Definition path_start (p : Path) : option Point :=
  match p with
  | MoveTo x y :: _ => Some (x, y)
  | _ => None
  end.

(** Where the path text ends: the end point of its last command. *)
Definition path_end (p : Path) : option Point :=
  match rev p with
  | c :: _ => Some (cmd_end c)
  | [] => None
  end.

(** The drawn pieces of a path, each with the point it starts from. *)
Inductive Segment : Type :=
| SLine (p0 p1 : Point)
| SQuad (p0 c p1 : Point)
| SCubic (p0 c1 c2 p1 : Point).

Fixpoint segments_from (cur : Point) (p : Path) : list Segment :=
  match p with
  | [] => []
  | MoveTo x y :: rest => segments_from (x, y) rest
  | LineTo x y :: rest => SLine cur (x, y) :: segments_from (x, y) rest
  | QuadTo cx cy x y :: rest =>
      SQuad cur (cx, cy) (x, y) :: segments_from (x, y) rest
  | CurveTo c1x c1y c2x c2y x y :: rest =>
      SCubic cur (c1x, c1y) (c2x, c2y) (x, y) :: segments_from (x, y) rest
  end.

Definition segments (p : Path) : list Segment := segments_from (0, 0) p.

(** The point of a segment at parameter [t] (Bezier form). *)
Definition lerp (t a b : Q) : Q := (1 - t) * a + t * b.

Definition seg_point (s : Segment) (t : Q) : Point :=
  match s with
  | SLine p0 p1 => (lerp t (fst p0) (fst p1), lerp t (snd p0) (snd p1))
  | SQuad p0 c p1 =>
      (lerp t (lerp t (fst p0) (fst c)) (lerp t (fst c) (fst p1)),
       lerp t (lerp t (snd p0) (snd c)) (lerp t (snd c) (snd p1)))
  | SCubic p0 c1 c2 p1 =>
      (lerp t (lerp t (lerp t (fst p0) (fst c1)) (lerp t (fst c1) (fst c2)))
              (lerp t (lerp t (fst c1) (fst c2)) (lerp t (fst c2) (fst p1))),
       lerp t (lerp t (lerp t (snd p0) (snd c1)) (lerp t (snd c1) (snd c2)))
              (lerp t (lerp t (snd c1) (snd c2)) (lerp t (snd c2) (snd p1))))
  end.

(** The x coordinates of the end and control points of a segment. *)
Definition seg_xs (s : Segment) : list Q :=
  match s with
  | SLine p0 p1 => [ fst p0; fst p1 ]
  | SQuad p0 c p1 => [ fst p0; fst c; fst p1 ]
  | SCubic p0 c1 c2 p1 => [ fst p0; fst c1; fst c2; fst p1 ]
  end.

(** A point the pen passes through while it draws the path. *)
Definition on_path (p : Path) (pt : Point) : Prop :=
  exists s t, In s (segments p) /\ 0 <= t /\ t <= 1 /\
    fst pt == fst (seg_point s t) /\ snd pt == snd (seg_point s t).

(** ** Path geometry: [generateLinkPath] *)

(** The anchors of a link between two resolved nodes. *)
Definition anchor_sx (sourceNode : DiagramNode.t) : Q :=
  DiagramNode.x sourceNode + DiagramNode.width sourceNode.
Definition anchor_sy (sourceNode : DiagramNode.t) : Q :=
  DiagramNode.y sourceNode + DiagramNode.height sourceNode / 2.
Definition anchor_tx (targetNode : DiagramNode.t) : Q :=
  DiagramNode.x targetNode.
Definition anchor_ty (targetNode : DiagramNode.t) : Q :=
  DiagramNode.y targetNode + DiagramNode.height targetNode / 2.

(** [const stagger = linkIndex * 60]. *)
Definition stagger (linkIndex : nat) : Q := inject_Z (Z.of_nat linkIndex) * 60.

(** [const gap = 30]. *)
Definition gap : Q := 30.

(** [returnY !== undefined ? returnY : Math.max(sy, ty) + 100 + stagger]. *)
Definition loopY (returnY : option Q) (linkIndex : nat) (sy ty : Q) : Q :=
  match returnY with
  | Some r => r
  | None => Qmax sy ty + 100 + stagger linkIndex
  end.

(** The loop-back route of part_006, source to target. *)
Definition loopPath (sx sy tx ty lY sourceCurveDir targetCurveDir : Q) : Path :=
  [ MoveTo sx sy;
    LineTo (sx + gap) sy;
    QuadTo (sx + gap + 20) sy (sx + gap + 20) (sy + 20 * sourceCurveDir);
    LineTo (sx + gap + 20) (lY - 20 * sourceCurveDir);
    QuadTo (sx + gap + 20) lY (sx + gap) lY;
    LineTo (tx - gap) lY;
    QuadTo (tx - gap - 20) lY (tx - gap - 20) (lY + 20 * targetCurveDir);
    LineTo (tx - gap - 20) (ty - 20 * targetCurveDir);
    QuadTo (tx - gap - 20) ty (tx - gap) ty;
    LineTo tx ty ].

(** The same route written target to source (used for upright text). *)
Definition loopPathReverse (sx sy tx ty lY sourceCurveDir targetCurveDir : Q)
  : Path :=
  [ MoveTo tx ty;
    LineTo (tx - gap) ty;
    QuadTo (tx - gap - 20) ty (tx - gap - 20) (ty - 20 * targetCurveDir);
    LineTo (tx - gap - 20) (lY + 20 * targetCurveDir);
    QuadTo (tx - gap - 20) lY (tx - gap) lY;
    LineTo (sx + gap) lY;
    QuadTo (sx + gap + 20) lY (sx + gap + 20) (lY - 20 * sourceCurveDir);
    LineTo (sx + gap + 20) (sy + 20 * sourceCurveDir);
    QuadTo (sx + gap + 20) sy (sx + gap) sy;
    LineTo sx sy ].

(** The forward connection: one cubic with both controls at [midX]. *)
Definition forwardPath (sx sy tx ty : Q) : Path :=
  let midX := (sx + tx) / 2 in
  [ MoveTo sx sy; CurveTo midX sy midX ty tx ty ].

(** [generateLinkPath(link, linkIndex, reverse = false)] of part_006. *)
Definition generateLinkPath (nm : gmap string DiagramNode.t)
    (link : DiagramLink.t) (linkIndex : nat) (reverse : bool) : Path :=
  match nm !! DiagramLink.source link, nm !! DiagramLink.target link with
  | Some sourceNode, Some targetNode =>
      let sx := anchor_sx sourceNode in
      let sy := anchor_sy sourceNode in
      let tx := anchor_tx targetNode in
      let ty := anchor_ty targetNode in
      let isReverse := Qltb tx sx in
      if isReverse then
        let lY := loopY (DiagramLink.returnY link) linkIndex sy ty in
        let sourceCurveDir := if Qltb sy lY then 1 else -1 in
        let targetCurveDir := if Qltb ty lY then -1 else 1 in
        if reverse
        then loopPathReverse sx sy tx ty lY sourceCurveDir targetCurveDir
        else loopPath sx sy tx ty lY sourceCurveDir targetCurveDir
      else forwardPath sx sy tx ty
  | _, _ => []
  end.

(** The earlier copy (part_005): one curve direction for the whole loop,
    chosen by whether the loop height lies above both anchors. *)
Module Earlier.

Definition loopPath (sx sy tx ty lY curveDir : Q) : Path :=
  [ MoveTo sx sy;
    LineTo (sx + gap) sy;
    QuadTo (sx + gap + 20) sy (sx + gap + 20) (sy + 20 * curveDir);
    LineTo (sx + gap + 20) (lY - 20 * curveDir);
    QuadTo (sx + gap + 20) lY (sx + gap) lY;
    LineTo (tx - gap) lY;
    QuadTo (tx - gap - 20) lY (tx - gap - 20) (lY - 20 * curveDir);
    LineTo (tx - gap - 20) (ty + 20 * curveDir);
    QuadTo (tx - gap - 20) ty (tx - gap) ty;
    LineTo tx ty ].

Definition loopPathReverse (sx sy tx ty lY curveDir : Q) : Path :=
  [ MoveTo tx ty;
    LineTo (tx - gap) ty;
    QuadTo (tx - gap - 20) ty (tx - gap - 20) (ty + 20 * curveDir);
    LineTo (tx - gap - 20) (lY - 20 * curveDir);
    QuadTo (tx - gap - 20) lY (tx - gap) lY;
    LineTo (sx + gap) lY;
    QuadTo (sx + gap + 20) lY (sx + gap + 20) (lY - 20 * curveDir);
    LineTo (sx + gap + 20) (sy + 20 * curveDir);
    QuadTo (sx + gap + 20) sy (sx + gap) sy;
    LineTo sx sy ].

Definition generateLinkPath (nm : gmap string DiagramNode.t)
    (link : DiagramLink.t) (linkIndex : nat) (reverse : bool) : Path :=
  match nm !! DiagramLink.source link, nm !! DiagramLink.target link with
  | Some sourceNode, Some targetNode =>
      let sx := anchor_sx sourceNode in
      let sy := anchor_sy sourceNode in
      let tx := anchor_tx targetNode in
      let ty := anchor_ty targetNode in
      let isReverse := Qltb tx sx in
      if isReverse then
        let lY := loopY (DiagramLink.returnY link) linkIndex sy ty in
        let minConnectionY := Qmin sy ty in
        let isAbove := Qltb lY minConnectionY in
        let curveDir := if isAbove then -1 else 1 in
        if reverse
        then loopPathReverse sx sy tx ty lY curveDir
        else loopPath sx sy tx ty lY curveDir
      else forwardPath sx sy tx ty
  | _, _ => []
  end.

End Earlier.

(** ** The staged reveal table *)

Local Open Scope Z_scope.

Module AnimationPhase.
Record t : Type := mk {
  nodes : list string;
  links : list string;
  delay : Z;
  duration : Z
}.
End AnimationPhase.

(** [ANIMATION_PHASES]: an object literal, kept as its entries in insertion
    order (the order [Object.entries] walks them in). *)
Definition ANIMATION_PHASES : list (string * AnimationPhase.t) :=
  [ ("phase1", AnimationPhase.mk ["anaerobic-digester"] [] 0 800);
    ("phase2", AnimationPhase.mk
                 [] ["link-house-to-ad"; "link-plant-to-ad"] 600 600);
    ("phase3", AnimationPhase.mk ["pyrolysis-unit"] [] 400 800);
    ("phase4", AnimationPhase.mk
                 [] ["link-ad-to-pyrolysis"; "link-house-to-pyrolysis"] 400 600);
    ("phase5", AnimationPhase.mk
                 ["rng-output"; "co2-output"; "syngas-output"; "biochar-blend";
                  "node-1765493578436-0lnym20wl"] [] 300 600);
    ("phase6", AnimationPhase.mk
                 [] ["link-ad-to-rng"; "link-ad-to-co2";
                     "link-pyrolysis-to-syngas"; "link-ad-to-blend";
                     "link-blend-to-farm"] 300 600) ].

(** [obj[key]] on such an object: [None] is [undefined]. *)
Fixpoint prop_get {A : Type} (obj : list (string * A)) (key : string)
  : option A :=
  match obj with
  | [] => None
  | (k, v) :: rest => if String.eqb k key then Some v else prop_get rest key
  end.

(** [`phase${i}`] for an integer [i]. *)
Definition phaseKey (i : Z) : string :=
  String.append "phase" (NilZero.string_of_int (Z.to_int i)).

(** [arr.includes(s)] on an array of strings. *)
Definition includes (arr : list string) (s : string) : bool :=
  existsb (String.eqb s) arr.

(** [s.replace(pat, '')] with a string pattern: the first occurrence goes. *)
Fixpoint remove_first (pat s : string) : string :=
  if String.prefix pat s
  then String.substring (String.length pat)
         (String.length s - String.length pat) s
  else match s with
       | EmptyString => EmptyString
       | String c rest => String c (remove_first pat rest)
       end.

(** A number that may be [NaN]. *)
Inductive Num : Type :=
| Int (z : Z)
| NaN.

Definition digit_of (c : ascii) : option Z :=
  let n := nat_of_ascii c in
  if (48 <=? n)%nat && (n <=? 57)%nat then Some (Z.of_nat (n - 48)) else None.

Fixpoint parse_digits (s : string) (acc : option Z) : option Z :=
  match s with
  | EmptyString => acc
  | String c rest =>
      match digit_of c with
      | Some d =>
          parse_digits rest
            (Some (10 * match acc with Some a => a | None => 0 end + d))
      | None => acc
      end
  end.

(** [parseInt(s)] on decimal text: an optional sign, then the longest run of
    digits; [NaN] when there is no digit.  (Leading blanks and the [0x]
    prefix, which no key of the table has, are not modelled.) *)
Definition parseInt (s : string) : Num :=
  let '(neg, body) :=
    match s with
    | String "-"%char rest => (true, rest)
    | String "+"%char rest => (false, rest)
    | _ => (false, s)
    end in
  match parse_digits body None with
  | Some n => Int (if neg then - n else n)
  | None => NaN
  end.

(** The loop shared by [getNodePhase] and [getLinkPhase]: the first entry
    whose list includes the id gives the phase number; [None] is [null]. *)
Fixpoint findPhase (members : AnimationPhase.t -> list string)
    (entries : list (string * AnimationPhase.t)) (id : string) : option Num :=
  match entries with
  | [] => None
  | (phaseName, phase) :: rest =>
      if includes (members phase) id
      then Some (parseInt (remove_first "phase" phaseName))
      else findPhase members rest id
  end.

Definition getNodePhase (nodeId : string) : option Num :=
  findPhase AnimationPhase.nodes ANIMATION_PHASES nodeId.

Definition getLinkPhase (linkId : string) : option Num :=
  findPhase AnimationPhase.links ANIMATION_PHASES linkId.

(** [for (let i = start; ...; i++) { total += phase.delay + phase.duration }]
    run [count] times; reading a property of a missing phase throws. *)
Fixpoint sumPhases (count : nat) (i : Z) (total : Z) : outcome Z :=
  match count with
  | O => Ok total
  | S k =>
      match prop_get ANIMATION_PHASES (phaseKey i) with
      | Some phase =>
          sumPhases k (i + 1)
            (total + (AnimationPhase.delay phase + AnimationPhase.duration phase))
      | None => Throw
      end
  end.

(** [getPhaseStartTime(phaseNum)] for an integer [phaseNum]: the loop runs
    for [i = 1 .. phaseNum - 1]; [currentPhase?.delay || 0] is [0] when the
    phase is missing. *)
Definition getPhaseStartTime (phaseNum : Z) : outcome Z :=
  match sumPhases (Z.to_nat (phaseNum - 1)) 1 0 with
  | Ok totalDelay =>
      Ok (totalDelay +
          match prop_get ANIMATION_PHASES (phaseKey phaseNum) with
          | Some currentPhase => AnimationPhase.delay currentPhase
          | None => 0
          end)
  | Throw => Throw
  end.

(** [getTotalAnimationDuration()]: the loop runs for [i = 1 .. 6]. *)
Definition getTotalAnimationDuration : outcome Z := sumPhases 6 1 0.

(** What the specification says the start time of phase [n] is: the sum of
    [delay + duration] over the phases before it, plus its own delay. *)
Definition specStartTime (phases : list (Z * Z)) (n : nat) : Z :=
  fold_right Z.add 0 (map (fun p => fst p + snd p) (firstn (n - 1) phases))
  + fst (nth (n - 1) phases (0, 0)).

(** The (delay, duration) pairs the specification lists. *)
Definition specPhases : list (Z * Z) :=
  [ (0, 800); (600, 600); (400, 800); (400, 600); (300, 600); (300, 600) ].

Local Close Scope Z_scope.

(** ** The render pass of [CircularSankeyHomepage] (part_006)

    One run of the drawing effect.  What the browser measures is an input:
    the bounding box [g.node()?.getBBox()] of the assembled group.  Icons,
    node labels, pointer handlers and the stroke-dash length (measured with
    [getTotalLength]) are left out. *)

(** A scheduled d3 transition: its delay and duration in milliseconds and
    the opacity it ends at. *)
Module Transition.
Record t : Type := mk {
  delay : Z;
  duration : Z;
  opacity : Q
}.
End Transition.

(** The [textPath] of a link label. *)
Module Label.
Record t : Type := mk {
  href : string;          (* the id of the path the text rides on *)
  startOffset : Q;        (* percent *)
  text : string
}.
End Label.

(** [link._particleConfig]. *)
Module ParticleConfig.
Record t : Type := mk {
  count : Q;
  size : Q;
  duration : Q;
  useIcon : bool;
  iconPath : option string
}.
End ParticleConfig.

(** The [<g>] appended to the links group for one link. *)
Module LinkGroup.
Record t : Type := mk {
  link : DiagramLink.t;
  d : Path;
  strokeWidth : Q;
  opacity : Q;
  transition : option Transition.t;
  label : option Label.t;
  particleConfig : option ParticleConfig.t
}.
End LinkGroup.

(** The [transform] attribute of a node group. *)
Inductive NodeTransform : Type :=
| Translate (x y : Q)
    (* translate(x,y) *)
| TranslateScaleTranslate (cx cy s dx dy : Q).
    (* translate(cx,cy) scale(s) translate(dx,dy) *)

(** The [<g class="node">] appended for one node. *)
Module NodeGroup.
Record t : Type := mk {
  node : DiagramNode.t;
  transform : NodeTransform;
  opacity : Q;
  transition : option Transition.t;
  pulseTimeout : option Z     (* the [setTimeout] that starts the pulse *)
}.
End NodeGroup.

(** A particle marker: the delay and duration of its loop, in seconds. *)
Module Marker.
Record t : Type := mk {
  delay : Q;
  duration : Q;
  size : Q;
  icon : option string        (* [None]: a filled circle *)
}.
End Marker.

(** An [SVGRect]. *)
Module BBox.
Record t : Type := mk {
  x : Q;
  y : Q;
  width : Q;
  height : Q
}.
End BBox.

(** [translate(translateX,translateY) scale(scale)] on the diagram group. *)
Module Fit.
Record t : Type := mk {
  translateX : Q;
  translateY : Q;
  scale : Q
}.
End Fit.

(** [diagramData.metadata?.system === 'proposed' ? 'proposed' : 'current']. *)
Definition context (diagramData : DiagramData.t) : string :=
  match DiagramData.metadata diagramData with
  | Some m =>
      if String.eqb (Metadata.system m) "proposed" then "proposed" else "current"
  | None => "current"
  end.

(** [animateTransition && context === 'proposed']. *)
Definition shouldAnimate (animateTransition : bool)
    (diagramData : DiagramData.t) : bool :=
  animateTransition && String.eqb (context diagramData) "proposed".

(** [highlightedNode === s]. *)
Definition highlighted_is (highlightedNode : option string) (s : string)
  : bool :=
  match highlightedNode with
  | Some h => String.eqb h s
  | None => false
  end.

(** [phase !== null]. *)
Definition not_null (phase : option Num) : bool :=
  match phase with Some _ => true | None => false end.

(** Truthiness of a phase number: [null], [NaN] and [0] are falsy. *)
Definition truthy_phase (phase : option Num) : option Z :=
  match phase with
  | Some (Int n) => if Z.eqb n 0 then None else Some n
  | _ => None
  end.

(** The transition of a staged element: [getPhaseStartTime(phase)] for the
    delay, [phaseConfig.duration] for the duration. *)
Definition phaseTransition (phaseNum : Z) (baseOpacity : Q)
  : outcome Transition.t :=
  match getPhaseStartTime phaseNum with
  | Ok startTime =>
      match prop_get ANIMATION_PHASES (phaseKey phaseNum) with
      | Some phaseConfig =>
          Ok (Transition.mk startTime (AnimationPhase.duration phaseConfig)
                baseOpacity)
      | None => Throw
      end
  | Throw => Throw
  end.

(** The opacity of a link when nothing is staged. *)
Definition linkBaseOpacity (highlightedNode : option string)
    (link : DiagramLink.t) : Q :=
  if truthy_str highlightedNode
  then if highlighted_is highlightedNode (DiagramLink.source link)
          || highlighted_is highlightedNode (DiagramLink.target link)
       then 8 # 10 else 1 # 10
  else 6 # 10.

(** [(11 - animationRate) * 2] with [animationRate = link.animationRate || 3]. *)
Definition animationRate (link : DiagramLink.t) : Q :=
  num_or (DiagramLink.animationRate link) 3.

Definition duration (link : DiagramLink.t) : Q :=
  (11 - animationRate link) * 2.

(** [link.animationFrequency !== undefined ? link.animationFrequency : 3]. *)
Definition particleCount (link : DiagramLink.t) : Q :=
  match DiagramLink.animationFrequency link with
  | Some f => f
  | None => 3
  end.

Definition particleConfigOf (link : DiagramLink.t) : option ParticleConfig.t :=
  if Qltb 0 (particleCount link) then
    let hasIcon := truthy_str (DiagramLink.particleIcon link) in
    let useIcon :=
      hasIcon ||
      match DiagramLink.particleIconSource link with
      | Some s => negb (String.eqb s "") && negb (String.eqb s "dot")
      | None => false
      end in
    let iconPath :=
      if hasIcon then DiagramLink.particleIcon link
      else if useIcon then DiagramLink.particleIconSource link else None in
    Some (ParticleConfig.mk (particleCount link)
            (num_or (DiagramLink.animationSize link) 4)
            (duration link) useIcon iconPath)
  else None.

(** [`link-path-${instanceId}-${link.id}`]. *)
Definition linkPathId (instanceId : string) (link : DiagramLink.t) : string :=
  String.append "link-path-"
    (String.append instanceId (String.append "-" (DiagramLink.id link))).

(** The body of the first [links.forEach]: the path definitions of one link. *)
Definition defsOfLink (nm : gmap string DiagramNode.t) (instanceId : string)
    (link : DiagramLink.t) (index : nat) : list (string * Path) :=
  let isReverse :=
    match nm !! DiagramLink.source link, nm !! DiagramLink.target link with
    | Some sourceNode, Some targetNode =>
        Qltb (DiagramNode.x targetNode)
             (DiagramNode.x sourceNode + DiagramNode.width sourceNode)
    | _, _ => false
    end in
  (linkPathId instanceId link, generateLinkPath nm link index false)
  :: (if isReverse
      then [ (String.append (linkPathId instanceId link) "-text",
              generateLinkPath nm link index true) ]
      else []).

(** The body of the second [links.forEach]: the group drawn for one link;
    the empty list is the early [return]. *)
Definition drawLink (nm : gmap string DiagramNode.t) (shouldAnim : bool)
    (highlightedNode : option string) (instanceId : string)
    (link : DiagramLink.t) (linkIndex : nat) : outcome (list LinkGroup.t) :=
  match nm !! DiagramLink.source link, nm !! DiagramLink.target link with
  | Some sourceNode, Some targetNode =>
      let path := generateLinkPath nm link linkIndex false in
      let linkPhase := getLinkPhase (DiagramLink.id link) in
      let isAnimatedLink := shouldAnim && not_null linkPhase in
      let baseOpacity := linkBaseOpacity highlightedNode link in
      let initialOpacity := if isAnimatedLink then 0 else baseOpacity in
      let label :=
        if truthy_str (DiagramLink.label link) then
          let isReverse :=
            Qltb (DiagramNode.x targetNode)
                 (DiagramNode.x sourceNode + DiagramNode.width sourceNode) in
          let textPathId :=
            if isReverse
            then String.append (linkPathId instanceId link) "-text"
            else linkPathId instanceId link in
          Some (Label.mk textPathId
                  (match DiagramLink.labelPosition link with
                   | Some p => p
                   | None => 5 # 10
                   end * 100)
                  (match DiagramLink.label link with
                   | Some s => s
                   | None => EmptyString
                   end))
        else None in
      let finish (transition : option Transition.t) :=
        Ok [ LinkGroup.mk link path (num_or (Some (DiagramLink.value link)) 4)
               initialOpacity transition label (particleConfigOf link) ] in
      match (if isAnimatedLink then truthy_phase linkPhase else None) with
      | Some phaseNum =>
          match phaseTransition phaseNum baseOpacity with
          | Ok tr => finish (Some tr)
          | Throw => Throw
          end
      | None => finish None
      end
  | _, _ => Ok []
  end.

(** [arr.forEach((item, index) => ...)] where the body appends elements and
    may throw: the elements appended, in order, from [index] on. *)
Fixpoint forEach {A B : Type} (body : A -> nat -> outcome (list B))
    (arr : list A) (index : nat) : outcome (list B) :=
  match arr with
  | [] => Ok []
  | item :: rest =>
      match body item index with
      | Ok here =>
          match forEach body rest (S index) with
          | Ok there => Ok (here ++ there)
          | Throw => Throw
          end
      | Throw => Throw
      end
  end.

(** [isConnected] of the node pass. *)
Definition isConnected (highlightedNode : option string)
    (links : list DiagramLink.t) (node : DiagramNode.t) : bool :=
  if truthy_str highlightedNode
  then highlighted_is highlightedNode (DiagramNode.id node)
       || existsb (fun l =>
            (highlighted_is highlightedNode (DiagramLink.source l)
             && String.eqb (DiagramLink.target l) (DiagramNode.id node))
            || (highlighted_is highlightedNode (DiagramLink.target l)
                && String.eqb (DiagramLink.source l) (DiagramNode.id node)))
          links
  else true.

Definition nodeBaseOpacity (highlightedNode : option string)
    (links : list DiagramLink.t) (node : DiagramNode.t) : Q :=
  if isConnected highlightedNode links node then 1 else 2 # 10.

(** The body of [nodes.forEach]: the group drawn for one node. *)
Definition drawNode (shouldAnim : bool) (highlightedNode : option string)
    (links : list DiagramLink.t) (node : DiagramNode.t) (index : nat)
  : outcome (list NodeGroup.t) :=
  let nodePhase := getNodePhase (DiagramNode.id node) in
  let isAnimatedNode := shouldAnim && not_null nodePhase in
  let baseOpacity := nodeBaseOpacity highlightedNode links node in
  let initialOpacity := if isAnimatedNode then 0 else baseOpacity in
  let initialScale := if isAnimatedNode then 3 # 10 else 1 in
  let centerX := DiagramNode.x node + DiagramNode.width node / 2 in
  let centerY := DiagramNode.y node + DiagramNode.height node / 2 in
  let transform :=
    if isAnimatedNode
    then TranslateScaleTranslate centerX centerY initialScale
           (- DiagramNode.width node / 2) (- DiagramNode.height node / 2)
    else Translate (DiagramNode.x node) (DiagramNode.y node) in
  let shouldPulseNode :=
    shouldAnim && (String.eqb (DiagramNode.id node) "anaerobic-digester"
                   || String.eqb (DiagramNode.id node) "pyrolysis-unit") in
  match (if isAnimatedNode then truthy_phase nodePhase else None) with
  | Some phaseNum =>
      match phaseTransition phaseNum baseOpacity with
      | Ok tr =>
          if shouldPulseNode then
            match getTotalAnimationDuration with
            | Ok totalAnimationTime =>
                Ok [ NodeGroup.mk node transform initialOpacity (Some tr)
                       (Some (totalAnimationTime + 500)%Z) ]
            | Throw => Throw
            end
          else Ok [ NodeGroup.mk node transform initialOpacity (Some tr) None ]
      | Throw => Throw
      end
  | None => Ok [ NodeGroup.mk node transform initialOpacity None None ]
  end.

(** The viewport fit (the same lines in part_005 and part_006): nothing
    happens without a bounding box. *)
Definition padding : Q := 20.

Definition viewportFit (width height : Q) (bbox : option BBox.t)
  : option Fit.t :=
  match bbox with
  | Some bbox =>
      let scaleX := (width - padding) / BBox.width bbox in
      let scaleY := (height - padding) / BBox.height bbox in
      let scale := Qmin scaleX scaleY * (95 # 100) in
      let scaledWidth := BBox.width bbox * scale in
      let scaledHeight := BBox.height bbox * scale in
      let translateX := (width - scaledWidth) / 2 - BBox.x bbox * scale in
      let translateY := (height - scaledHeight) / 2 - BBox.y bbox * scale in
      Some (Fit.mk translateX translateY scale)
  | None => None
  end.

(** Where the fit puts a point of the group. *)
Definition applyFit (f : Fit.t) (p : Point) : Point :=
  (fst p * Fit.scale f + Fit.translateX f,
   snd p * Fit.scale f + Fit.translateY f).

(** [for (let i = 0; i < count; i++) { const delay = (i / count) * duration }]:
    the delays of the markers of one link, in seconds. *)
Definition particleDelays (count duration : Q) : list Q :=
  map (fun i => (inject_Z (Z.of_nat i) / count) * duration)
      (seq 0 (Z.to_nat (Qceiling count))).

Definition markersOf (config : ParticleConfig.t) : list Marker.t :=
  map (fun delay =>
         Marker.mk delay (ParticleConfig.duration config)
           (ParticleConfig.size config)
           (if ParticleConfig.useIcon config
               && truthy_str (ParticleConfig.iconPath config)
            then ParticleConfig.iconPath config else None))
      (particleDelays (ParticleConfig.count config)
                      (ParticleConfig.duration config)).

(** The particle pass, run only when the fit ran: the markers of every link
    that stored a configuration. *)
Definition particlesOf (groups : list LinkGroup.t)
  : list (DiagramLink.t * list Marker.t) :=
  flat_map (fun g =>
              match LinkGroup.particleConfig g with
              | Some config => [ (LinkGroup.link g, markersOf config) ]
              | None => []
              end) groups.

Module Scene.
Record t : Type := mk {
  defs : list (string * Path);
  linkGroups : list LinkGroup.t;
  nodeGroups : list NodeGroup.t;
  fit : option Fit.t;
  particles : list (DiagramLink.t * list Marker.t)
}.
End Scene.

(** The drawing effect. *)
Definition render (diagramData : DiagramData.t) (width height : Q)
    (instanceId : string) (animateTransition : bool)
    (highlightedNode : option string) (bbox : option BBox.t)
  : outcome Scene.t :=
  let shouldAnim := shouldAnimate animateTransition diagramData in
  let nm := nodeMap (DiagramData.nodes diagramData) in
  let links := DiagramData.links diagramData in
  match forEach (fun link index => Ok (defsOfLink nm instanceId link index))
          links 0 with
  | Ok defs =>
      match forEach (drawLink nm shouldAnim highlightedNode instanceId)
              links 0 with
      | Ok linkGroups =>
          match forEach (drawNode shouldAnim highlightedNode links)
                  (DiagramData.nodes diagramData) 0 with
          | Ok nodeGroups =>
              let fit := viewportFit width height bbox in
              Ok (Scene.mk defs linkGroups nodeGroups fit
                    (match fit with
                     | Some _ => particlesOf linkGroups
                     | None => []
                     end))
          | Throw => Throw
          end
      | Throw => Throw
      end
  | Throw => Throw
  end.

(** ** The basic-auth gate ([src/middleware.ts])

    The request is seen through what the function reads of it: the value
    [request.headers.get('authorization')] ([None] is [null]) and the URL
    that is rewritten.  [atob] is the platform's, modelled after the
    forgiving-base64 decode of the WHATWG Infra standard; its result is a
    string of bytes. *)

Module Middleware.

Local Open Scope string_scope.

(** [s.split(sep)] for a one-character separator: never empty. *)
Fixpoint split (sep : ascii) (s : string) : list string :=
  match s with
  | EmptyString => [ EmptyString ]
  | String c rest =>
      if Ascii.eqb c sep then EmptyString :: split sep rest
      else match split sep rest with
           | piece :: pieces => String c piece :: pieces
           | [] => [ String c EmptyString ]
           end
  end.

(** ASCII whitespace: tab, line feed, form feed, carriage return, space. *)
Definition is_ascii_whitespace (c : ascii) : bool :=
  let n := N_of_ascii c in
  (n =? 9)%N || (n =? 10)%N || (n =? 12)%N || (n =? 13)%N || (n =? 32)%N.

Fixpoint remove_whitespace (s : string) : string :=
  match s with
  | EmptyString => EmptyString
  | String c rest =>
      if is_ascii_whitespace c then remove_whitespace rest
      else String c (remove_whitespace rest)
  end.

(** The value of a character of the base64 alphabet. *)
Definition b64_value (c : ascii) : option N :=
  let n := N_of_ascii c in
  if (65 <=? n)%N && (n <=? 90)%N then Some (n - 65)%N
  else if (97 <=? n)%N && (n <=? 122)%N then Some (n - 71)%N
  else if (48 <=? n)%N && (n <=? 57)%N then Some (n + 4)%N
  else if (n =? 43)%N then Some 62%N
  else if (n =? 47)%N then Some 63%N
  else None.

(** All characters of the alphabet, or failure. *)
Fixpoint b64_values (s : string) : option (list N) :=
  match s with
  | EmptyString => Some []
  | String c rest =>
      match b64_value c, b64_values rest with
      | Some v, Some vs => Some (v :: vs)
      | _, _ => None
      end
  end.

(** Four characters give three bytes; a tail of three gives two (the last
    two bits are dropped), a tail of two gives one (the last four bits are
    dropped). *)
Fixpoint b64_bytes (vs : list N) : string :=
  match vs with
  | a :: b :: c :: d :: rest =>
      let n := (a * 262144 + b * 4096 + c * 64 + d)%N in
      String (ascii_of_N (n / 65536))
        (String (ascii_of_N ((n / 256) mod 256))
           (String (ascii_of_N (n mod 256)) (b64_bytes rest)))
  | [ a; b; c ] =>
      let n := ((a * 4096 + b * 64 + c) / 4)%N in
      String (ascii_of_N (n / 256)) (String (ascii_of_N (n mod 256)) EmptyString)
  | [ a; b ] =>
      let n := ((a * 64 + b) / 16)%N in
      String (ascii_of_N n) EmptyString
  | _ => EmptyString
  end.

(** Up to two trailing [=] are removed when the length is a multiple of 4. *)
Definition strip_padding (s : string) : string :=
  let n := String.length s in
  if (n mod 4 =? 0)%nat then
    if String.eqb (String.substring (n - 2) 2 s) "==" && (2 <=? n)%nat
    then String.substring 0 (n - 2) s
    else if String.eqb (String.substring (n - 1) 1 s) "=" && (1 <=? n)%nat
    then String.substring 0 (n - 1) s
    else s
  else s.

(** [atob(data)]: [None] is the [InvalidCharacterError] it throws. *)
Definition atob (data : string) : option string :=
  let data := strip_padding (remove_whitespace data) in
  if (String.length data mod 4 =? 1)%nat then None
  else match b64_values data with
       | Some vs => Some (b64_bytes vs)
       | None => None
       end.

(** Passing [undefined] where a string is expected gives ['undefined']. *)
Definition to_DOMString (v : option string) : string :=
  match v with
  | Some s => s
  | None => "undefined"
  end.

(** [v === s] for a destructured array element. *)
Definition strict_eq (v : option string) (s : string) : bool :=
  match v with
  | Some x => String.eqb x s
  | None => false
  end.

Module Url.
Record t : Type := mk {
  pathname : string;
  search : string
}.
End Url.

Module Request.
Record t : Type := mk {
  authorization : option string;     (* headers.get('authorization') *)
  nextUrl : Url.t
}.
End Request.

Inductive Response : Type :=
| Next                      (* NextResponse.next() *)
| Rewrite (url : Url.t).    (* NextResponse.rewrite(url) *)

Definition middleware (request : Request.t) : outcome Response :=
  let basicAuth := Request.authorization request in
  let url := Request.nextUrl request in
  let rewrite := Ok (Rewrite (Url.mk "/api/auth" (Url.search url))) in
  if truthy_str basicAuth then
    let authValue := nth_error (split " " (to_DOMString basicAuth)) 1 in
    match atob (to_DOMString authValue) with
    | Some decoded =>
        let parts := split ":" decoded in
        let user := nth_error parts 0 in
        let pwd := nth_error parts 1 in
        if strict_eq user "calvin" && strict_eq pwd "calvin123"
        then Ok Next
        else rewrite
    | None => Throw
    end
  else rewrite.

(** The reading of the header the claim uses: the pieces between runs of
    whitespace. *)
Fixpoint ws_tokens_aux (cur : string) (s : string) : list string :=
  match s with
  | EmptyString =>
      if String.eqb cur EmptyString then [] else [ cur ]
  | String c rest =>
      if is_ascii_whitespace c
      then if String.eqb cur EmptyString then ws_tokens_aux EmptyString rest
           else cur :: ws_tokens_aux EmptyString rest
      else ws_tokens_aux (String.append cur (String c EmptyString)) rest
  end.

Definition ws_tokens (s : string) : list string := ws_tokens_aux EmptyString s.

(** The pass condition in the words of the claim. *)
Definition claimed_pass (request : Request.t) : Prop :=
  exists header token,
    Request.authorization request = Some header /\
    nth_error (ws_tokens header) 1 = Some token /\
    atob token = Some "calvin:calvin123".

End Middleware.

(** ** The staged reveal, in the words of its description *)

(** The condition of the staged reveal: the flag is set and the data is
    tagged "proposed". *)
Definition revealCondition (animateTransition : bool)
    (diagramData : DiagramData.t) : Prop :=
  animateTransition = true
  /\ exists m, DiagramData.metadata diagramData = Some m
               /\ Metadata.system m = "proposed"%string.

(** Phase [n + 1], the entry at position [n] of the table, names the
    element [id] among its nodes ([members] is [AnimationPhase.nodes]) or
    its links ([AnimationPhase.links]). *)
Definition namedBy (members : AnimationPhase.t -> list string) (id : string)
    (n : nat) : Prop :=
  exists key phase,
    nth_error ANIMATION_PHASES n = Some (key, phase) /\ In id (members phase).

(** The reveal of an element that phase [n + 1] names: it starts at the
    start time of the phase, lasts the duration of the phase and ends at
    the base opacity of the element. *)
Definition revealOf (n : nat) (baseOpacity : Q) : Transition.t :=
  Transition.mk (specStartTime specPhases (S n))
    (snd (nth n specPhases (0, 0)%Z)) baseOpacity.

(** A link both ends of which are ids of nodes of the data. *)
Definition resolves (nodes : list DiagramNode.t) (link : DiagramLink.t)
  : bool :=
  existsb (String.eqb (DiagramLink.source link)) (map DiagramNode.id nodes)
  && existsb (String.eqb (DiagramLink.target link)) (map DiagramNode.id nodes).

(** The two shapes [generateLinkPath] can give a resolved link. *)
Definition is_single_cubic (sx sy tx ty : Q) (p : Path) : Prop :=
  p = [ MoveTo sx sy;
        CurveTo ((sx + tx) / 2) sy ((sx + tx) / 2) ty tx ty ].

Definition is_loop_back_route (sx sy tx ty : Q) (p : Path) : Prop :=
  exists lY sourceCurveDir targetCurveDir,
    p = loopPath sx sy tx ty lY sourceCurveDir targetCurveDir.

(** ** Sample data used by the closed examples *)

Module Sample.

Definition node (id : string) (x y width height : Q) : DiagramNode.t :=
  DiagramNode.mk id id x y width height "#000" "/icon.svg" None None None None.

Definition link (id source target : string) (returnY : option Q)
  : DiagramLink.t :=
  DiagramLink.mk id source target 4 "#999" None None None None None None None
    None returnY.

(** Node A: right edge at x = 100, anchor y = 50.
    Node B: left edge at x = 40, anchor y = 200. *)
Definition A : DiagramNode.t := node "A" 0 0 100 100.
Definition B : DiagramNode.t := node "B" 40 150 100 100.
(** Node C starts exactly at A's right edge. *)
Definition C : DiagramNode.t := node "C" 100 0 100 100.
(** Node D lies to the right of A. *)
Definition D : DiagramNode.t := node "D" 300 100 100 100.

Definition nodes : list DiagramNode.t := [ A; B; C; D ].
Definition nm : gmap string DiagramNode.t := nodeMap nodes.

Definition AB : DiagramLink.t := link "A-B" "A" "B" None.
Definition AC : DiagramLink.t := link "A-C" "A" "C" None.
Definition AD : DiagramLink.t := link "A-D" "A" "D" None.
Definition AX : DiagramLink.t := link "A-X" "A" "X" None.

Definition data : DiagramData.t :=
  DiagramData.mk None nodes [ AB; AX; AD ] 850 700.

(** Two loop-back links between the same nodes, one after the other. *)
Definition twoLoops : DiagramData.t :=
  DiagramData.mk None nodes [ AD; AB; AB ] 850 700.

End Sample.

(** ** Further geometry *)

(** The y coordinates of the end and control points of a segment. *)
Definition seg_ys (s : Segment) : list Q :=
  match s with
  | SLine p0 p1 => [ snd p0; snd p1 ]
  | SQuad p0 c p1 => [ snd p0; snd c; snd p1 ]
  | SCubic p0 c1 c2 p1 => [ snd p0; snd c1; snd c2; snd p1 ]
  end.

(** The same piece drawn from its end to its start. *)
Definition seg_reverse (s : Segment) : Segment :=
  match s with
  | SLine p0 p1 => SLine p1 p0
  | SQuad p0 c p1 => SQuad p1 c p0
  | SCubic p0 c1 c2 p1 => SCubic p1 c2 c1 p0
  end.

(** Two path texts that spell the same commands with equal numbers. *)
Definition cmd_eq (a b : PathCmd) : Prop :=
  match a, b with
  | MoveTo x y, MoveTo x' y' => x == x' /\ y == y'
  | LineTo x y, LineTo x' y' => x == x' /\ y == y'
  | QuadTo cx cy x y, QuadTo cx' cy' x' y' =>
      cx == cx' /\ cy == cy' /\ x == x' /\ y == y'
  | CurveTo c1x c1y c2x c2y x y, CurveTo c1x' c1y' c2x' c2y' x' y' =>
      c1x == c1x' /\ c1y == c1y' /\ c2x == c2x' /\ c2y == c2y'
      /\ x == x' /\ y == y'
  | _, _ => False
  end.

Definition path_eq (p q : Path) : Prop := Forall2 cmd_eq p q.

(** ** The tooltip position ([IconTooltip], src/unnamed/part_004)

    The layout effect of the tooltip that [CircularSankeyHomepage] shows
    next to the pointer.  The measured rectangle of the tooltip and the
    size of the window are inputs.  The file holds two versions of the
    component. *)

Module Tooltip.

(** [tooltip.getBoundingClientRect()]. *)
Module Rect.
Record t : Type := mk {
  width : Q;
  height : Q
}.
End Rect.

(** [{ left, top }]. *)
Module Position.
Record t : Type := mk {
  left : Q;
  top : Q
}.
End Position.

(** [const padding = 20]. *)
Definition padding : Q := 20.

(** The first version: the tooltip goes to the far left when the pointer
    is in the right half of the window, 100 to the right of the pointer
    otherwise; above the pointer in the bottom 40% of the window, centered
    on it otherwise; then the final clamps. *)
Definition place (tooltipRect : Rect.t) (viewportWidth viewportHeight x y : Q)
  : Position.t :=
  let tooltipWidth := Qmax (Rect.width tooltipRect) 300 in
  let tooltipHeight := Qmax (Rect.height tooltipRect) 200 in
  let isRightSide := Qltb (viewportWidth / 2) x in
  let isBottomArea := Qltb (viewportHeight * (6 # 10)) y in
  let left :=
    if isRightSide then padding
    else
      let offset := 100 in
      let left := x + offset in
      if Qltb (viewportWidth - padding) (left + tooltipWidth)
      then viewportWidth - tooltipWidth - padding
      else left in
  let top :=
    if isBottomArea then
      let verticalOffset := 80 in
      let top := y - tooltipHeight - verticalOffset in
      if Qltb top padding then padding else top
    else
      let top := y - tooltipHeight / 2 in
      if Qltb top padding then padding
      else if Qltb (viewportHeight - padding) (top + tooltipHeight)
           then viewportHeight - tooltipHeight - padding
           else top in
  Position.mk
    (Qmax padding (Qmin left (viewportWidth - tooltipWidth - padding)))
    (Qmax padding (Qmin top (viewportHeight - tooltipHeight - padding))).

(** The second version: below and right of the pointer by 15, flipped to
    the other side of the pointer when it would overflow, clamped at the
    left and top, and last of all at the right and bottom. *)
Definition place2 (tooltipRect : Rect.t) (viewportWidth viewportHeight x y : Q)
  : Position.t :=
  let tooltipWidth := num_or (Some (Rect.width tooltipRect)) 350 in
  let tooltipHeight := num_or (Some (Rect.height tooltipRect)) 300 in
  let offset := 15 in
  let left := x + offset in
  let top := y + offset in
  let left :=
    if Qltb (viewportWidth - padding) (left + tooltipWidth)
    then x - tooltipWidth - offset else left in
  let top :=
    if Qltb (viewportHeight - padding) (top + tooltipHeight)
    then y - tooltipHeight - offset else top in
  let left := if Qltb left padding then padding else left in
  let top := if Qltb top padding then padding else top in
  Position.mk
    (Qmin left (viewportWidth - tooltipWidth - padding))
    (Qmin top (viewportHeight - tooltipHeight - padding)).

(** The effect itself: nothing is set while the tooltip is hidden or not
    mounted ([None] for the rectangle). *)
Definition layoutEffect (visible : bool) (tooltipRect : option Rect.t)
    (viewportWidth viewportHeight x y : Q) : option Position.t :=
  match visible, tooltipRect with
  | true, Some r => Some (place r viewportWidth viewportHeight x y)
  | _, _ => None
  end.

Definition layoutEffect2 (visible : bool) (tooltipRect : option Rect.t)
    (viewportWidth viewportHeight x y : Q) : option Position.t :=
  match visible, tooltipRect with
  | true, Some r => Some (place2 r viewportWidth viewportHeight x y)
  | _, _ => None
  end.

End Tooltip.

(** ** Click navigation (the [click] handler of a node, part_006, and the
    detail page it leads to, src/unnamed/part_001)

    Node ids are taken to be ASCII text: [toLowerCase] is modelled on the
    letters A to Z only. *)

Module Navigation.

Local Open Scope string_scope.

(** [NODE_TO_COMPONENT_MAP], in insertion order. *)
Definition NODE_TO_COMPONENT_MAP : list (string * string) :=
  [ ("farm", "farm");
    ("farms", "farm");
    ("chicken-house", "chicken-house");
    ("chicken-houses", "chicken-house");
    ("processing-plant", "processing-plant");
    ("waterways", "waterways");
    ("farm-waterways", "waterways");
    ("anaerobic-digester", "anaerobic-digester");
    ("pyrolysis-unit", "pyrolysis-unit");
    ("pyrolysis", "pyrolysis-unit") ].

(** What [`${Object.prototype[name]}`] prints for the properties every
    object literal inherits; [None] for any other name. *)
Definition inherited (name : string) : option string :=
  if String.eqb name "__proto__" then Some "[object Object]"
  else if String.eqb name "constructor"
  then Some "function Object() { [native code] }"
  else if existsb (String.eqb name)
            [ "__defineGetter__"; "__defineSetter__"; "hasOwnProperty";
              "__lookupGetter__"; "__lookupSetter__"; "isPrototypeOf";
              "propertyIsEnumerable"; "toString"; "valueOf";
              "toLocaleString" ]
  then Some (String.append "function "
               (String.append name "() { [native code] }"))
  else None.

(** [c.toLowerCase()] on an ASCII character. *)
Definition lower_char (c : ascii) : ascii :=
  let n := nat_of_ascii c in
  if (65 <=? n)%nat && (n <=? 90)%nat then ascii_of_nat (n + 32) else c.

Fixpoint toLowerCase (s : string) : string :=
  match s with
  | EmptyString => EmptyString
  | String c rest => String (lower_char c) (toLowerCase rest)
  end.

(** [s.includes(sub)]. *)
Fixpoint str_includes (s sub : string) : bool :=
  String.prefix sub s
  || match s with
     | EmptyString => false
     | String _ rest => str_includes rest sub
     end.

(** What a click does. *)
Inductive Click : Type :=
| Ignored                  (* [enableNavigation] is off *)
| Push (url : string)      (* [router.push(url)] *)
| NoDetailPage.            (* the [console.log] *)

(** The loop over [Object.entries(NODE_TO_COMPONENT_MAP)]. *)
Fixpoint partialMatch (entries : list (string * string)) (nodeId : string)
  : Click :=
  match entries with
  | [] => NoDetailPage
  | (key, slug) :: rest =>
      if str_includes nodeId key || str_includes key nodeId
      then Push (String.append "/details/" slug)
      else partialMatch rest nodeId
  end.

Definition handleClick (enableNavigation : bool) (node : DiagramNode.t)
  : Click :=
  if negb enableNavigation then Ignored
  else
    let nodeId := toLowerCase (DiagramNode.id node) in
    let componentSlug :=
      match prop_get NODE_TO_COMPONENT_MAP nodeId with
      | Some slug => Some slug
      | None => inherited nodeId
      end in
    match componentSlug with
    | Some slug => Push (String.append "/details/" slug)
    | None => partialMatch NODE_TO_COMPONENT_MAP nodeId
    end.

(** [COMPONENT_CONFIG] of the detail page, each slug with whether it has a
    current diagram ([currentDiagram] is not [null]). *)
Definition COMPONENT_CONFIG : list (string * bool) :=
  [ ("farm", true);
    ("chicken-house", true);
    ("processing-plant", true);
    ("waterways", true);
    ("anaerobic-digester", false);
    ("pyrolysis-unit", false) ].

(** What the detail page shows for a slug. *)
Inductive Page : Type :=
| SystemError                       (* [!config] *)
| DataError                         (* [!proposedDiagram] *)
| Comparison (hasCurrent : bool).   (* the two diagrams, or the new one *)

Definition ComponentDetailPage (componentSlug : string) : Page :=
  match prop_get COMPONENT_CONFIG componentSlug with
  | Some hasCurrent => Comparison hasCurrent
  | None =>
      match inherited componentSlug with
      | Some _ => DataError
      | None => SystemError
      end
  end.

End Navigation.

(** ** The home page toggle (src/unnamed/part_002) *)

Module HomePage.

Module State.
Record t : Type := mk {
  showProposed : bool;
  animateTransition : bool
}.
End State.

(** [useState(false)] twice. *)
Definition initial : State.t := State.mk false false.

Definition handleToggleToProposed (st : State.t) : State.t :=
  if negb (State.showProposed st) then State.mk true true else st.

Definition handleToggleToCurrent (st : State.t) : State.t :=
  State.mk false false.

Inductive Event : Type :=
| ToggleToProposed
| ToggleToCurrent.

Definition handle (st : State.t) (e : Event) : State.t :=
  match e with
  | ToggleToProposed => handleToggleToProposed st
  | ToggleToCurrent => handleToggleToCurrent st
  end.

(** The state after a run of clicks. *)
Definition after (events : list Event) : State.t :=
  fold_left handle events initial.

(** [diagramData={showProposed ? proposedSystemData : currentSystemData}]. *)
Definition shown (currentSystemData proposedSystemData : DiagramData.t)
    (st : State.t) : DiagramData.t :=
  if State.showProposed st then proposedSystemData else currentSystemData.

End HomePage.

(** ** The label of a node (the node pass of part_006)

    Node names are taken to be ASCII text: [\s] is modelled on the ASCII
    white space, and the [i] flag on the letters b, B, r and R. *)

(** [\s] on an ASCII character: space, tab, line feed, vertical tab, form
    feed, carriage return. *)
Definition is_space (c : ascii) : bool :=
  existsb (Ascii.eqb c) [ " "; "009"; "010"; "011"; "012"; "013" ]%char.

Fixpoint skip_spaces (s : string) : string :=
  match s with
  | String c rest => if is_space c then skip_spaces rest else s
  | EmptyString => s
  end.

(** A match of [/<br\s*\/?>/i] at the start of [s]: what follows the match.
    The white space, the slash and the closing bracket exclude each other,
    so the greedy [\s*] never has to give a character back. *)
Definition br_tag (s : string) : option string :=
  match s with
  | String lt (String b (String r rest)) =>
      if Ascii.eqb lt "<"
         && (Ascii.eqb b "b" || Ascii.eqb b "B")
         && (Ascii.eqb r "r" || Ascii.eqb r "R")
      then
        let rest := skip_spaces rest in
        let rest := match rest with
                    | String c t => if Ascii.eqb c "/" then t else rest
                    | EmptyString => rest
                    end in
        match rest with
        | String c t => if Ascii.eqb c ">" then Some t else None
        | EmptyString => None
        end
      else None
  | _ => None
  end.

(** Put a character in front of the first piece. *)
Definition cons_first (c : ascii) (lines : list string) : list string :=
  match lines with
  | line :: rest => String c line :: rest
  | [] => [ String c EmptyString ]
  end.

(** [name.split(/<br\s*\/?>/i)]: the pieces between the matches, found from
    left to right.  The search goes on behind a match, so the recursion is
    on a bound [fuel] on the number of characters still to read; [split_br]
    starts it with more than the length of the name, which is always
    enough. *)
Fixpoint split_br_from (fuel : nat) (s : string) : list string :=
  match fuel with
  | O => [ s ]
  | S fuel =>
      match br_tag s with
      | Some after => EmptyString :: split_br_from fuel after
      | None =>
          match s with
          | EmptyString => [ EmptyString ]
          | String c rest => cons_first c (split_br_from fuel rest)
          end
      end
  end.

Definition split_br (s : string) : list string :=
  split_br_from (S (String.length s)) s.

(** Whether [/<br\s*\/?>/i] matches somewhere in [s]. *)
Fixpoint has_br_tag (s : string) : bool :=
  match br_tag s with
  | Some _ => true
  | None =>
      match s with
      | String _ rest => has_br_tag rest
      | EmptyString => false
      end
  end.

(** The pieces written out again with [<br>] between them. *)
Fixpoint join_br (lines : list string) : string :=
  match lines with
  | [] => EmptyString
  | [ line ] => line
  | line :: rest => String.append line (String.append "<br>" (join_br rest))
  end.

(** A [<tspan>] of the label. *)
Module Tspan.
Record t : Type := mk {
  x : Q;
  dy : Q;
  text : string
}.
End Tspan.

(** The [<text>] of a node. *)
Module NodeLabel.
Record t : Type := mk {
  x : Q;
  y : Q;
  fontSize : Q;
  tspans : list Tspan.t
}.
End NodeLabel.

(** [node.iconOnly ? node.height : (node.icon ? node.height - 10 :
    node.height / 2)]. *)
Definition yBase (node : DiagramNode.t) : Q :=
  match DiagramNode.iconOnly node with
  | Some true => DiagramNode.height node
  | _ =>
      if negb (String.eqb (DiagramNode.icon node) "")
      then DiagramNode.height node - 10
      else DiagramNode.height node / 2
  end.

(** [fontSize * 1.2] with [fontSize = node.fontSize || 12]. *)
Definition lineHeight (node : DiagramNode.t) : Q :=
  num_or (DiagramNode.fontSize node) 12 * (12 # 10).

(** The label of a node: nothing when [showLabel] is [false]. *)
Definition nodeLabel (node : DiagramNode.t) : option NodeLabel.t :=
  match DiagramNode.showLabel node with
  | Some false => None
  | _ =>
      let lines := split_br (DiagramNode.name node) in
      let fontSize := num_or (DiagramNode.fontSize node) 12 in
      let lineHeight := fontSize * (12 # 10) in
      let labelOffset := num_or (DiagramNode.labelOffset node) 0 in
      let yBase := yBase node in
      let yOffset :=
        (if (1 <? List.length lines)%nat
         then (- ((inject_Z (Z.of_nat (List.length lines)) - 1) * lineHeight)) / 2
         else 0) + labelOffset in
      Some (NodeLabel.mk (DiagramNode.width node / 2) (yBase + yOffset)
              fontSize
              (imap (fun i line =>
                       Tspan.mk (DiagramNode.width node / 2)
                         (if (i =? 0)%nat then 0 else lineHeight) line)
                    lines))
  end.

(** [sum] of a list of numbers. *)
Definition Qsum (l : list Q) : Q := fold_right Qplus 0 l.

(** ** Strings *)

(** Whether a character occurs in a string. *)
Fixpoint has_char (c : ascii) (s : string) : bool :=
  match s with
  | EmptyString => false
  | String a rest => Ascii.eqb a c || has_char c rest
  end.

(** ** A diagram tagged as the proposed system, for the closed examples *)

Module Demo.

Definition house : DiagramNode.t := Sample.node "chicken-house" 0 200 100 80.
Definition digester : DiagramNode.t :=
  Sample.node "anaerobic-digester" 300 100 120 100.

Definition houseToDigester : DiagramLink.t :=
  DiagramLink.mk "link-house-to-ad" "chicken-house" "anaerobic-digester" 6
    "#4ade80" (Some "litter"%string) None (Some 2) (Some 5) None None None
    None None.

Definition digesterToHouse : DiagramLink.t :=
  DiagramLink.mk "link-ad-to-house" "anaerobic-digester" "chicken-house" 4
    "#f59e0b" (Some "heat"%string) (Some (3 # 10)) None None None None None
    None None.

(** A node with a name on two lines. *)
Definition plant : DiagramNode.t :=
  DiagramNode.mk "processing-plant" "Processing<br/>Plant" 600 200 100 80
    "#000" "/icon.svg" None None (Some 14) (Some 5).

Definition proposed : DiagramData.t :=
  DiagramData.mk (Some (Metadata.mk "Overview" "" "sankey" "proposed"))
    [ house; digester ] [ houseToDigester; digesterToHouse ] 850 700.

End Demo.

(** * Properties *)

(** ** Numbers *)

Lemma Qltb_lt (a b : Q) : Qltb a b = true <-> a < b.
Proof.
  unfold Qltb. rewrite negb_true_iff.
  split; intros H.
  - apply Qnot_le_lt. intros Hle. apply Qle_bool_iff in Hle. congruence.
  - destruct (Qle_bool b a) eqn:E; [|reflexivity].
    apply Qle_bool_iff in E. exfalso. apply (Qlt_not_le _ _ H E).
Qed.

Lemma Qltb_ge (a b : Q) : Qltb a b = false <-> b <= a.
Proof.
  unfold Qltb. rewrite negb_false_iff. apply Qle_bool_iff.
Qed.

Lemma stagger_nonneg (i : nat) : 0 <= stagger i.
Proof.
  unfold stagger.
  assert (H : 0 <= inject_Z (Z.of_nat i)).
  { change 0 with (inject_Z 0). rewrite <- Zle_Qle. lia. }
  lra.
Qed.

Lemma stagger_succ (i : nat) : stagger (S i) == stagger i + 60.
Proof.
  unfold stagger. rewrite Nat2Z.inj_succ. unfold Z.succ.
  rewrite inject_Z_plus. change (inject_Z 1) with 1. ring.
Qed.

(** ** Geometry of segments *)

Lemma lerp_lower (m t a b : Q) :
  0 <= t -> t <= 1 -> m <= a -> m <= b -> m <= lerp t a b.
Proof. unfold lerp. intros. nra. Qed.

Lemma lerp_upper (m t a b : Q) :
  0 <= t -> t <= 1 -> a <= m -> b <= m -> lerp t a b <= m.
Proof. unfold lerp. intros. nra. Qed.

(** A Bezier piece stays on the right of any vertical line its end and
    control points are on the right of. *)
Lemma seg_point_x_lower (s : Segment) (m t : Q) :
  0 <= t -> t <= 1 ->
  Forall (fun x => m <= x) (seg_xs s) ->
  m <= fst (seg_point s t).
Proof.
  intros H0 H1 Hxs.
  destruct s as [p0 p1 | p0 c p1 | p0 c1 c2 p1]; simpl in *;
    repeat match goal with
           | H : Forall _ (_ :: _) |- _ => inversion H; subst; clear H
           end;
    repeat apply lerp_lower; assumption.
Qed.

Lemma on_path_x_lower (p : Path) (m : Q) :
  Forall (fun s => Forall (fun x => m <= x) (seg_xs s)) (segments p) ->
  forall pt, on_path p pt -> m <= fst pt.
Proof.
  intros Hall pt (s & t & Hin & H0 & H1 & Hx & _).
  rewrite Hx. apply seg_point_x_lower; try assumption.
  rewrite List.Forall_forall in Hall. now apply Hall.
Qed.

(** The end point of every drawn piece is on the path. *)
Lemma on_path_seg_end (p : Path) (s : Segment) :
  In s (segments p) ->
  on_path p (seg_point s 1).
Proof.
  intros Hin. exists s, 1. repeat split; try lra; try assumption; reflexivity.
Qed.

(** ** Path generation *)

(** The route of a loop-back link does not depend on the node map beyond
    the two nodes it resolves. *)
Lemma generateLinkPath_resolved (nm : gmap string DiagramNode.t)
    (link : DiagramLink.t) (linkIndex : nat) (reverse : bool)
    (sourceNode targetNode : DiagramNode.t) :
  nm !! DiagramLink.source link = Some sourceNode ->
  nm !! DiagramLink.target link = Some targetNode ->
  generateLinkPath nm link linkIndex reverse =
  let sx := anchor_sx sourceNode in
  let sy := anchor_sy sourceNode in
  let tx := anchor_tx targetNode in
  let ty := anchor_ty targetNode in
  if Qltb tx sx then
    let lY := loopY (DiagramLink.returnY link) linkIndex sy ty in
    let sourceCurveDir := if Qltb sy lY then 1 else -1 in
    let targetCurveDir := if Qltb ty lY then -1 else 1 in
    if reverse
    then loopPathReverse sx sy tx ty lY sourceCurveDir targetCurveDir
    else loopPath sx sy tx ty lY sourceCurveDir targetCurveDir
  else forwardPath sx sy tx ty.
Proof. intros Hs Ht. unfold generateLinkPath. now rewrite Hs, Ht. Qed.

Lemma generateLinkPath_unresolved (nm : gmap string DiagramNode.t)
    (link : DiagramLink.t) (linkIndex : nat) (reverse : bool) :
  nm !! DiagramLink.source link = None \/
  nm !! DiagramLink.target link = None ->
  generateLinkPath nm link linkIndex reverse = [].
Proof.
  unfold generateLinkPath. intros [H | H]; rewrite H; [reflexivity|].
  now destruct (nm !! DiagramLink.source link).
Qed.

(** C5.  For every link whose source and target both resolve, the primary
    (non-reversed) path begins exactly at the source's right-center anchor
    (source.x + source.width, source.y + source.height/2) and ends exactly
    at the target's left-center anchor (target.x, target.y +
    target.height/2), for the forward cubic and for the loop-back route
    alike, whatever the link index (and so whatever the stagger). *)
Theorem generateLinkPath_endpoints (nm : gmap string DiagramNode.t)
    (link : DiagramLink.t) (linkIndex : nat)
    (sourceNode targetNode : DiagramNode.t) :
  nm !! DiagramLink.source link = Some sourceNode ->
  nm !! DiagramLink.target link = Some targetNode ->
  path_start (generateLinkPath nm link linkIndex false)
  = Some (DiagramNode.x sourceNode + DiagramNode.width sourceNode,
          DiagramNode.y sourceNode + DiagramNode.height sourceNode / 2)
  /\ path_end (generateLinkPath nm link linkIndex false)
     = Some (DiagramNode.x targetNode,
             DiagramNode.y targetNode + DiagramNode.height targetNode / 2).
Proof.
  intros Hs Ht. rewrite (generateLinkPath_resolved _ _ _ _ _ _ Hs Ht).
  cbv zeta. destruct (Qltb _ _); split; reflexivity.
Qed.

(** The hypotheses of [generateLinkPath_endpoints] hold for the sample link
    from A to B at index 2. *)
Lemma generateLinkPath_endpoints_witness :
  path_start (generateLinkPath Sample.nm Sample.AB 2 false) = Some (0 + 100, 0 + 100 / 2)
  /\ path_end (generateLinkPath Sample.nm Sample.AB 2 false) = Some (40, 150 + 100 / 2).
Proof.
  apply (generateLinkPath_endpoints Sample.nm Sample.AB 2 Sample.A Sample.B);
    reflexivity.
Defined.

(** C4, counterexample.  Node C starts exactly at the right edge of node A,
    so the target is "at or left of" the source's right edge; the claim
    then asks for the loop-back route, and the code draws the single cubic
    ([isReverse] is the strict [tx < sx]). *)
Lemma generateLinkPath_touching_is_forward :
  anchor_tx Sample.C <= anchor_sx Sample.A /\
  Sample.nm !! DiagramLink.source Sample.AC = Some Sample.A /\
  Sample.nm !! DiagramLink.target Sample.AC = Some Sample.C /\
  is_single_cubic (anchor_sx Sample.A) (anchor_sy Sample.A)
    (anchor_tx Sample.C) (anchor_ty Sample.C)
    (generateLinkPath Sample.nm Sample.AC 0 false) /\
  ~ is_loop_back_route (anchor_sx Sample.A) (anchor_sy Sample.A)
      (anchor_tx Sample.C) (anchor_ty Sample.C)
      (generateLinkPath Sample.nm Sample.AC 0 false).
Proof.
  split; [vm_compute; discriminate|].
  split; [reflexivity|]. split; [reflexivity|]. split.
  - unfold is_single_cubic. vm_compute. reflexivity.
  - intros (lY & d1 & d2 & H). apply (f_equal (@List.length _)) in H.
    vm_compute in H. discriminate.
Qed.

(** C4, amended.  For every link whose source and target both resolve: if
    the target's x is at or to the right of the source's right edge
    (source.x + source.width <= target.x) the path is a single cubic Bezier
    with both control points at the horizontal midpoint between the
    anchors; if it is strictly to the left, the path is the ten-command
    rectilinear loop-back route. *)
Theorem generateLinkPath_shape (nm : gmap string DiagramNode.t)
    (link : DiagramLink.t) (linkIndex : nat)
    (sourceNode targetNode : DiagramNode.t) :
  nm !! DiagramLink.source link = Some sourceNode ->
  nm !! DiagramLink.target link = Some targetNode ->
  let sx := DiagramNode.x sourceNode + DiagramNode.width sourceNode in
  let sy := DiagramNode.y sourceNode + DiagramNode.height sourceNode / 2 in
  let tx := DiagramNode.x targetNode in
  let ty := DiagramNode.y targetNode + DiagramNode.height targetNode / 2 in
  (sx <= tx ->
   is_single_cubic sx sy tx ty (generateLinkPath nm link linkIndex false)) /\
  (tx < sx ->
   is_loop_back_route sx sy tx ty (generateLinkPath nm link linkIndex false)).
Proof.
  intros Hs Ht sx sy tx ty.
  rewrite (generateLinkPath_resolved _ _ _ _ _ _ Hs Ht). cbv zeta.
  fold sx sy tx ty. unfold anchor_sx, anchor_sy, anchor_tx, anchor_ty.
  fold sx sy tx ty.
  split; intros H.
  - apply Qltb_ge in H. rewrite H. reflexivity.
  - apply Qltb_lt in H. rewrite H. eexists _, _, _. reflexivity.
Qed.

(** The sample link from A to D is drawn as a cubic, the one from A to B as
    a loop-back route. *)
Lemma generateLinkPath_shape_witness :
  is_single_cubic (0 + 100) (0 + 100 / 2) 300 (100 + 100 / 2)
    (generateLinkPath Sample.nm Sample.AD 0 false)
  /\ is_loop_back_route (0 + 100) (0 + 100 / 2) 40 (150 + 100 / 2)
       (generateLinkPath Sample.nm Sample.AB 0 false).
Proof.
  split.
  - apply (generateLinkPath_shape Sample.nm Sample.AD 0 Sample.A Sample.D);
      [reflexivity | reflexivity | vm_compute; discriminate].
  - apply (generateLinkPath_shape Sample.nm Sample.AB 0 Sample.A Sample.B);
      reflexivity.
Defined.

(** ** The loop height *)

Lemma loopY_fallback_succ (linkIndex : nat) (sy ty : Q) :
  loopY None (S linkIndex) sy ty - loopY None linkIndex sy ty == 60.
Proof. unfold loopY. rewrite stagger_succ. ring. Qed.

(** The sixth command of a loop-back route is the horizontal run at the
    loop height. *)
Lemma loop_back_traverse (nm : gmap string DiagramNode.t)
    (link : DiagramLink.t) (linkIndex : nat)
    (sourceNode targetNode : DiagramNode.t) :
  nm !! DiagramLink.source link = Some sourceNode ->
  nm !! DiagramLink.target link = Some targetNode ->
  anchor_tx targetNode < anchor_sx sourceNode ->
  nth_error (generateLinkPath nm link linkIndex false) 5
  = Some (LineTo (anchor_tx targetNode - gap)
            (loopY (DiagramLink.returnY link) linkIndex
               (anchor_sy sourceNode) (anchor_ty targetNode))).
Proof.
  intros Hs Ht Hlt. rewrite (generateLinkPath_resolved _ _ _ _ _ _ Hs Ht).
  cbv zeta. apply Qltb_lt in Hlt. rewrite Hlt. reflexivity.
Qed.

Lemma loop_back_traverse_earlier (nm : gmap string DiagramNode.t)
    (link : DiagramLink.t) (linkIndex : nat)
    (sourceNode targetNode : DiagramNode.t) :
  nm !! DiagramLink.source link = Some sourceNode ->
  nm !! DiagramLink.target link = Some targetNode ->
  anchor_tx targetNode < anchor_sx sourceNode ->
  nth_error (Earlier.generateLinkPath nm link linkIndex false) 5
  = Some (LineTo (anchor_tx targetNode - gap)
            (loopY (DiagramLink.returnY link) linkIndex
               (anchor_sy sourceNode) (anchor_ty targetNode))).
Proof.
  intros Hs Ht Hlt. unfold Earlier.generateLinkPath. rewrite Hs, Ht.
  cbv zeta. apply Qltb_lt in Hlt. rewrite Hlt. reflexivity.
Qed.

(** The fifth drawn piece of a loop-back route is that horizontal run, from
    30 beyond the source's right edge to 30 before the target's left edge. *)
Lemma loop_back_run (nm : gmap string DiagramNode.t)
    (link : DiagramLink.t) (linkIndex : nat)
    (sourceNode targetNode : DiagramNode.t) :
  nm !! DiagramLink.source link = Some sourceNode ->
  nm !! DiagramLink.target link = Some targetNode ->
  anchor_tx targetNode < anchor_sx sourceNode ->
  forall p,
    p = generateLinkPath nm link linkIndex false \/
    p = Earlier.generateLinkPath nm link linkIndex false ->
    nth_error (segments p) 4
    = Some (SLine (anchor_sx sourceNode + gap,
                   loopY (DiagramLink.returnY link) linkIndex
                     (anchor_sy sourceNode) (anchor_ty targetNode))
                  (anchor_tx targetNode - gap,
                   loopY (DiagramLink.returnY link) linkIndex
                     (anchor_sy sourceNode) (anchor_ty targetNode))).
Proof.
  intros Hs Ht Hlt p [-> | ->]; apply Qltb_lt in Hlt.
  - rewrite (generateLinkPath_resolved _ _ _ _ _ _ Hs Ht).
    cbv zeta. rewrite Hlt. reflexivity.
  - unfold Earlier.generateLinkPath. rewrite Hs, Ht.
    cbv zeta. rewrite Hlt. reflexivity.
Qed.

Lemma lerp_same (t a : Q) : lerp t a a == a.
Proof. unfold lerp. ring. Qed.

(** The x range of a loop-back route, whatever its heights and curve
    directions: it reaches 50 to the left of the target's left edge. *)
Lemma loopPath_x_range (sx sy tx ty lY d1 d2 : Q) :
  tx < sx ->
  (forall pt, on_path (loopPath sx sy tx ty lY d1 d2) pt -> tx - 50 <= fst pt)
  /\ (exists pt, on_path (loopPath sx sy tx ty lY d1 d2) pt
                 /\ fst pt == tx - 50).
Proof.
  intros Hlt. split.
  - apply on_path_x_lower. unfold segments, loopPath, gap. simpl.
    repeat constructor; simpl; lra.
  - exists (seg_point (SQuad (tx - gap, lY) (tx - gap - 20, lY)
                         (tx - gap - 20, lY + 20 * d2)) 1).
    split.
    + apply on_path_seg_end. unfold segments, loopPath. simpl. tauto.
    + simpl. unfold lerp, gap. ring.
Qed.

Lemma loopPath_x_range_earlier (sx sy tx ty lY d : Q) :
  tx < sx ->
  (forall pt, on_path (Earlier.loopPath sx sy tx ty lY d) pt -> tx - 50 <= fst pt)
  /\ (exists pt, on_path (Earlier.loopPath sx sy tx ty lY d) pt
                 /\ fst pt == tx - 50).
Proof.
  intros Hlt. split.
  - apply on_path_x_lower. unfold segments, Earlier.loopPath, gap. simpl.
    repeat constructor; simpl; lra.
  - exists (seg_point (SQuad (tx - gap, lY) (tx - gap - 20, lY)
                         (tx - gap - 20, lY - 20 * d)) 1).
    split.
    + apply on_path_seg_end. unfold segments, Earlier.loopPath. simpl. tauto.
    + simpl. unfold lerp, gap. ring.
Qed.

(** C3, counterexample.  For the link of the example (source right edge at
    x = 100, anchor y = 50; target left edge at x = 40, anchor y = 200; no
    returnY) both generators draw through a point with x < 0: the route
    turns 50 units to the left of the target's left edge, at x = -10. *)
Lemma loop_back_example_crosses_zero :
  Sample.nm !! DiagramLink.source Sample.AB = Some Sample.A /\
  Sample.nm !! DiagramLink.target Sample.AB = Some Sample.B /\
  anchor_sx Sample.A == 100 /\ anchor_sy Sample.A == 50 /\
  anchor_tx Sample.B == 40 /\ anchor_ty Sample.B == 200 /\
  DiagramLink.returnY Sample.AB = None /\
  (exists pt, on_path (generateLinkPath Sample.nm Sample.AB 0 false) pt
              /\ fst pt < 0) /\
  (exists pt, on_path (Earlier.generateLinkPath Sample.nm Sample.AB 0 false) pt
              /\ fst pt < 0).
Proof.
  repeat (split; [reflexivity|]).
  split.
  - exists (seg_point (nth 6 (segments (generateLinkPath Sample.nm Sample.AB 0 false))
                         (SLine (0, 0) (0, 0))) 1).
    split; [|vm_compute; reflexivity].
    apply on_path_seg_end. vm_compute. tauto.
  - exists (seg_point (nth 6 (segments (Earlier.generateLinkPath Sample.nm Sample.AB 0 false))
                         (SLine (0, 0) (0, 0))) 1).
    split; [|vm_compute; reflexivity].
    apply on_path_seg_end. vm_compute. tauto.
Qed.

(** C3, amended.  For a link whose source has its right edge at x = 100 and
    anchor y = 50 and whose target has its left edge at x = 40 and anchor
    y = 200, with no explicit returnY, the loop-back path of either
    generator runs at the loop height 300 + 60 * index, which is at least
    max(50, 200) + 100 = 300, and no point of its traversal has x < -10;
    x = -10 is reached.  The horizontal run at the loop height itself goes
    from x = 130 to x = 10. *)
Theorem loop_back_example (nm : gmap string DiagramNode.t)
    (link : DiagramLink.t) (linkIndex : nat)
    (sourceNode targetNode : DiagramNode.t) :
  nm !! DiagramLink.source link = Some sourceNode ->
  nm !! DiagramLink.target link = Some targetNode ->
  DiagramNode.x sourceNode + DiagramNode.width sourceNode == 100 ->
  DiagramNode.y sourceNode + DiagramNode.height sourceNode / 2 == 50 ->
  DiagramNode.x targetNode == 40 ->
  DiagramNode.y targetNode + DiagramNode.height targetNode / 2 == 200 ->
  DiagramLink.returnY link = None ->
  forall p,
    p = generateLinkPath nm link linkIndex false \/
    p = Earlier.generateLinkPath nm link linkIndex false ->
    exists lY,
      nth_error p 5 = Some (LineTo (DiagramNode.x targetNode - 30) lY) /\
      lY == 300 + inject_Z (Z.of_nat linkIndex) * 60 /\
      300 <= lY /\
      (forall pt, on_path p pt -> -10 <= fst pt) /\
      (exists pt, on_path p pt /\ fst pt == -10) /\
      (exists run,
         nth_error (segments p) 4 = Some run /\
         forall t, 0 <= t -> t <= 1 ->
           10 <= fst (seg_point run t) /\ fst (seg_point run t) <= 130 /\
           snd (seg_point run t) == lY).
Proof.
  intros Hs Ht Hsx Hsy Htx Hty Hret p Hp.
  assert (Hlt : anchor_tx targetNode < anchor_sx sourceNode).
  { unfold anchor_tx, anchor_sx. lra. }
  exists (loopY None linkIndex (anchor_sy sourceNode) (anchor_ty targetNode)).
  assert (HlY : loopY None linkIndex (anchor_sy sourceNode) (anchor_ty targetNode)
                == 300 + inject_Z (Z.of_nat linkIndex) * 60).
  { unfold loopY, stagger, anchor_sy, anchor_ty. rewrite Hsy, Hty.
    rewrite (Q.max_r 50 200) by lra. ring. }
  pose proof (stagger_nonneg linkIndex) as Hst. unfold stagger in Hst.
  split; [|split; [exact HlY|split; [lra|]]].
  - destruct Hp as [-> | ->]; rewrite <- Hret.
    + apply (loop_back_traverse _ _ _ _ _ Hs Ht Hlt).
    + apply (loop_back_traverse_earlier _ _ _ _ _ Hs Ht Hlt).
  - enough (Hrange : (forall pt, on_path p pt -> -10 <= fst pt) /\
                     (exists pt, on_path p pt /\ fst pt == -10)).
    { destruct Hrange as [Hlo Hmin].
      split; [exact Hlo|]. split; [exact Hmin|].
      pose proof (loop_back_run _ _ _ _ _ Hs Ht Hlt _ Hp) as Hrun.
      rewrite Hret in Hrun.
      eexists. split.
      - exact Hrun.
      - intros t H0 H1. cbn [seg_point fst snd].
        unfold anchor_sx, anchor_tx, gap.
        split; [apply lerp_lower; lra|].
        split; [apply lerp_upper; lra|apply lerp_same]. }
    pose proof Hlt as Hb. apply Qltb_lt in Hb.
    destruct Hp as [-> | ->].
    + rewrite (generateLinkPath_resolved _ _ _ _ _ _ Hs Ht). cbv zeta.
      rewrite Hb.
      match goal with
      | |- context [loopPath ?a ?b ?c ?d ?e ?f ?g] =>
          destruct (loopPath_x_range a b c d e f g Hlt) as [Hlo (pt & Hon & Hx)]
      end.
      split.
      * intros pt' Hon'. specialize (Hlo pt' Hon'). unfold anchor_tx in Hlo. lra.
      * exists pt. split; [exact Hon|]. unfold anchor_tx in Hx. lra.
    + unfold Earlier.generateLinkPath. rewrite Hs, Ht. cbv zeta. rewrite Hb.
      match goal with
      | |- context [Earlier.loopPath ?a ?b ?c ?d ?e ?f] =>
          destruct (loopPath_x_range_earlier a b c d e f Hlt)
            as [Hlo (pt & Hon & Hx)]
      end.
      split.
      * intros pt' Hon'. specialize (Hlo pt' Hon'). unfold anchor_tx in Hlo. lra.
      * exists pt. split; [exact Hon|]. unfold anchor_tx in Hx. lra.
Qed.

(** The example link at index 2. *)
Lemma loop_back_example_witness :
  exists lY,
    nth_error (generateLinkPath Sample.nm Sample.AB 2 false) 5
    = Some (LineTo (40 - 30) lY) /\
    lY == 300 + inject_Z (Z.of_nat 2) * 60 /\
    300 <= lY /\
    (forall pt, on_path (generateLinkPath Sample.nm Sample.AB 2 false) pt ->
                -10 <= fst pt) /\
    (exists pt, on_path (generateLinkPath Sample.nm Sample.AB 2 false) pt
                /\ fst pt == -10) /\
    (exists run,
       nth_error (segments (generateLinkPath Sample.nm Sample.AB 2 false)) 4
       = Some run /\
       forall t, 0 <= t -> t <= 1 ->
         10 <= fst (seg_point run t) /\ fst (seg_point run t) <= 130 /\
         snd (seg_point run t) == lY).
Proof.
  apply (loop_back_example Sample.nm Sample.AB 2 Sample.A Sample.B);
    try reflexivity.
  left. reflexivity.
Defined.

(** ** Viewport fit *)

(** C1, counterexample.  A 100 by 100 bounding box in a 120 by 120 viewport:
    the claim gives min(120/100, 120/100) * 0.95 = 1.14, the code gives
    0.95, because it divides the viewport less a padding of 20.  The two
    differ by 0.19. *)
Lemma viewportFit_scale_uses_padding :
  exists f,
    viewportFit 120 120 (Some (BBox.mk 0 0 100 100)) = Some f /\
    Fit.scale f == 95 # 100 /\
    Qmin (120 / 100) (120 / 100) * (95 # 100) == 114 # 100 /\
    1 # 10 < Qabs (Fit.scale f - Qmin (120 / 100) (120 / 100) * (95 # 100)).
Proof.
  eexists. split; [reflexivity|].
  split; [|split]; vm_compute; reflexivity.
Qed.

(** C1, amended.  For a bounding box of positive width W and height H
    rendered into a viewport of width Vw and height Vh, the scale applied
    to the group is min((Vw - 20)/W, (Vh - 20)/H) * 0.95, the translation
    is translateX = (Vw - W * scale)/2 - bbox.x * scale (and the same for
    Y), the scaled and translated box is centered in the viewport, and it
    is no larger than 95% of the viewport less the padding. *)
Theorem viewportFit_scale_and_centering (width height : Q) (bbox : BBox.t) :
  0 < BBox.width bbox -> 0 < BBox.height bbox ->
  exists f,
    viewportFit width height (Some bbox) = Some f /\
    Fit.scale f
    == Qmin ((width - 20) / BBox.width bbox) ((height - 20) / BBox.height bbox)
       * (95 # 100) /\
    Fit.translateX f
    == (width - BBox.width bbox * Fit.scale f) / 2 - BBox.x bbox * Fit.scale f /\
    Fit.translateY f
    == (height - BBox.height bbox * Fit.scale f) / 2
       - BBox.y bbox * Fit.scale f /\
    (let lo := applyFit f (BBox.x bbox, BBox.y bbox) in
     let hi := applyFit f (BBox.x bbox + BBox.width bbox,
                           BBox.y bbox + BBox.height bbox) in
     (fst lo + fst hi) / 2 == width / 2 /\
     (snd lo + snd hi) / 2 == height / 2 /\
     fst hi - fst lo == BBox.width bbox * Fit.scale f /\
     snd hi - snd lo == BBox.height bbox * Fit.scale f /\
     (20 <= width -> 20 <= height ->
      fst hi - fst lo <= (width - 20) * (95 # 100) /\
      snd hi - snd lo <= (height - 20) * (95 # 100))).
Proof.
  intros HW HH. eexists. split; [reflexivity|].
  unfold padding. simpl.
  split; [reflexivity|]. split; [reflexivity|]. split; [reflexivity|].
  split; [|split; [|split; [|split]]]; try field.
  intros Hw Hh.
  set (a := (width - 20) / BBox.width bbox).
  set (b := (height - 20) / BBox.height bbox).
  assert (Ha : BBox.width bbox * a == width - 20).
  { unfold a. field. lra. }
  assert (Hb : BBox.height bbox * b == height - 20).
  { unfold b. field. lra. }
  pose proof (Q.le_min_l a b) as Hl. pose proof (Q.le_min_r a b) as Hr.
  assert (Hml : BBox.width bbox * Qmin a b <= BBox.width bbox * a).
  { apply Qmult_le_l; assumption. }
  assert (Hmr : BBox.height bbox * Qmin a b <= BBox.height bbox * b).
  { apply Qmult_le_l; assumption. }
  split; lra.
Qed.

(** A 1000 by 500 box at (10, 20) in the default 850 by 700 viewport. *)
Lemma viewportFit_scale_and_centering_witness :
  exists f,
    viewportFit 850 700 (Some (BBox.mk 10 20 1000 500)) = Some f /\
    Fit.scale f == Qmin ((850 - 20) / 1000) ((700 - 20) / 500) * (95 # 100) /\
    Fit.translateX f == (850 - 1000 * Fit.scale f) / 2 - 10 * Fit.scale f /\
    Fit.translateY f == (700 - 500 * Fit.scale f) / 2 - 20 * Fit.scale f /\
    (let lo := applyFit f (10, 20) in
     let hi := applyFit f (10 + 1000, 20 + 500) in
     (fst lo + fst hi) / 2 == 850 / 2 /\
     (snd lo + snd hi) / 2 == 700 / 2 /\
     fst hi - fst lo == 1000 * Fit.scale f /\
     snd hi - snd lo == 500 * Fit.scale f /\
     (20 <= 850 -> 20 <= 700 ->
      fst hi - fst lo <= (850 - 20) * (95 # 100) /\
      snd hi - snd lo <= (700 - 20) * (95 # 100))).
Proof.
  apply (viewportFit_scale_and_centering 850 700 (BBox.mk 10 20 1000 500));
    reflexivity.
Defined.

(** ** The reveal schedule *)

Lemma phase_table_pairs :
  map (fun e => (AnimationPhase.delay (snd e), AnimationPhase.duration (snd e)))
      ANIMATION_PHASES
  = specPhases.
Proof. reflexivity. Qed.

Example getPhaseStartTime_values :
  map getPhaseStartTime [ 1; 2; 3; 4; 5; 6 ]%Z
  = [ Ok 0; Ok 1400; Ok 2400; Ok 3600; Ok 4500; Ok 5400 ]%Z.
Proof. reflexivity. Qed.

(** Outside the table: phase 7 has no entry of its own but the loop still
    finds phases 1 to 6; from phase 8 on the loop reads a missing phase. *)
Example getPhaseStartTime_outside_table :
  getPhaseStartTime 0 = Ok 0%Z /\ getPhaseStartTime 7 = Ok 6000%Z
  /\ getPhaseStartTime 8 = Throw.
Proof. repeat split. Qed.

Example getTotalAnimationDuration_value :
  getTotalAnimationDuration = Ok 6000%Z.
Proof. reflexivity. Qed.

Example getNodePhase_values :
  getNodePhase "anaerobic-digester" = Some (Int 1)
  /\ getNodePhase "pyrolysis-unit" = Some (Int 3)
  /\ getNodePhase "biochar-blend" = Some (Int 5)
  /\ getNodePhase "farm" = None.
Proof. repeat split. Qed.

Example getLinkPhase_values :
  getLinkPhase "link-plant-to-ad" = Some (Int 2)
  /\ getLinkPhase "link-house-to-pyrolysis" = Some (Int 4)
  /\ getLinkPhase "link-blend-to-farm" = Some (Int 6)
  /\ getLinkPhase "link-farm-to-house" = None.
Proof. repeat split. Qed.

(** C2, counterexample.  The claim puts the start of phase 4 at 3000 ms;
    [getPhaseStartTime(4)] is 3600 ms: (0 + 800) + (600 + 600) + (400 + 800)
    for the three phases before it, plus its own delay 400.  The claim's
    sum 800 + 600 + 400 + 800 + 400 leaves out the duration of phase 2. *)
Lemma phase4_start_time_is_3600 :
  getPhaseStartTime 4 = Ok 3600%Z /\ getPhaseStartTime 4 <> Ok 3000%Z.
Proof. split; [reflexivity|discriminate]. Qed.

(** C2, amended.  The six phases have the (delay, duration) pairs (0,800),
    (600,600), (400,800), (400,600), (300,600), (300,600); the start time
    of phase N is the sum of delay + duration over the phases before it
    plus the delay of phase N; the start time of phase 4 is 3600 ms. *)
Theorem getPhaseStartTime_spec (phaseNum : Z) :
  (1 <= phaseNum <= 6)%Z ->
  map (fun e => (AnimationPhase.delay (snd e), AnimationPhase.duration (snd e)))
      ANIMATION_PHASES
  = [ (0, 800); (600, 600); (400, 800); (400, 600); (300, 600); (300, 600) ]%Z
  /\ getPhaseStartTime phaseNum
     = Ok (specStartTime specPhases (Z.to_nat phaseNum))
  /\ getPhaseStartTime 4 = Ok 3600%Z.
Proof.
  intros H. split; [reflexivity|]. split; [|reflexivity].
  assert (Hc : phaseNum = 1%Z \/ phaseNum = 2%Z \/ phaseNum = 3%Z \/
               phaseNum = 4%Z \/ phaseNum = 5%Z \/ phaseNum = 6%Z) by lia.
  repeat (destruct Hc as [-> | Hc]; [reflexivity|]). subst. reflexivity.
Qed.

(** Phase 6 is one of the six phases. *)
Lemma getPhaseStartTime_spec_witness :
  map (fun e => (AnimationPhase.delay (snd e), AnimationPhase.duration (snd e)))
      ANIMATION_PHASES
  = [ (0, 800); (600, 600); (400, 800); (400, 600); (300, 600); (300, 600) ]%Z
  /\ getPhaseStartTime 6 = Ok (specStartTime specPhases (Z.to_nat 6))
  /\ getPhaseStartTime 4 = Ok 3600%Z.
Proof. apply (getPhaseStartTime_spec 6). lia. Defined.

(** The phase numbers the table can give. *)
Lemma getNodePhase_range (nodeId : string) :
  getNodePhase nodeId = None \/
  exists n, getNodePhase nodeId = Some (Int n) /\ (1 <= n <= 6)%Z.
Proof.
  unfold getNodePhase, ANIMATION_PHASES.
  cbn [findPhase AnimationPhase.nodes].
  repeat match goal with
         | |- context [if includes ?l nodeId then _ else _] =>
             destruct (includes l nodeId);
               [right; eexists; split; [vm_compute; reflexivity|lia]|]
         end.
  now left.
Qed.

Lemma getLinkPhase_range (linkId : string) :
  getLinkPhase linkId = None \/
  exists n, getLinkPhase linkId = Some (Int n) /\ (1 <= n <= 6)%Z.
Proof.
  unfold getLinkPhase, ANIMATION_PHASES.
  cbn [findPhase AnimationPhase.links].
  repeat match goal with
         | |- context [if includes ?l linkId then _ else _] =>
             destruct (includes l linkId);
               [right; eexists; split; [vm_compute; reflexivity|lia]|]
         end.
  now left.
Qed.

(** The transition of a phase of the table is always defined. *)
Lemma phaseTransition_defined (phaseNum : Z) (baseOpacity : Q) :
  (1 <= phaseNum <= 6)%Z ->
  exists startTime duration,
    phaseTransition phaseNum baseOpacity
    = Ok (Transition.mk startTime duration baseOpacity)
    /\ getPhaseStartTime phaseNum = Ok startTime.
Proof.
  intros H.
  assert (Hc : phaseNum = 1%Z \/ phaseNum = 2%Z \/ phaseNum = 3%Z \/
               phaseNum = 4%Z \/ phaseNum = 5%Z \/ phaseNum = 6%Z) by lia.
  repeat (destruct Hc as [-> | Hc];
          [eexists _, _; split; reflexivity|]).
  subst. eexists _, _; split; reflexivity.
Qed.

Lemma truthy_phase_range (phase : option Num) (n : Z) :
  (phase = None \/ exists k, phase = Some (Int k) /\ (1 <= k <= 6)%Z) ->
  truthy_phase phase = Some n -> (1 <= n <= 6)%Z.
Proof.
  intros [-> | (k & -> & Hk)]; simpl; [discriminate|].
  destruct (Z.eqb k 0); [discriminate|]. intros [= <-]. exact Hk.
Qed.

(** ** The node map *)

Lemma nodeMap_foldl_None (nodes : list DiagramNode.t)
    (m : gmap string DiagramNode.t) (k : string) :
  foldl (fun m node => <[DiagramNode.id node := node]> m) m nodes !! k = None
  <-> m !! k = None /\ ~ In k (map DiagramNode.id nodes).
Proof.
  revert m. induction nodes as [|node nodes IH]; intros m; simpl.
  - tauto.
  - rewrite IH, lookup_insert_None. intuition congruence.
Qed.

(** An identifier resolves exactly when some node of the array carries it. *)
Lemma nodeMap_lookup_None (nodes : list DiagramNode.t) (k : string) :
  nodeMap nodes !! k = None <-> ~ In k (map DiagramNode.id nodes).
Proof.
  unfold nodeMap. rewrite nodeMap_foldl_None, lookup_empty. tauto.
Qed.

(** ** [forEach] *)

Section ForEach.
Context {A B : Type}.
Variable body : A -> nat -> outcome (list B).

Lemma forEach_app (l1 l2 : list A) (index : nat) (o1 o2 : list B) :
  forEach body l1 index = Ok o1 ->
  forEach body l2 (index + List.length l1) = Ok o2 ->
  forEach body (l1 ++ l2) index = Ok (o1 ++ o2).
Proof.
  revert index o1. induction l1 as [|a l1 IH]; intros index o1; simpl.
  - intros [= <-]. rewrite Nat.add_0_r. auto.
  - destruct (body a index) as [here|]; [|discriminate].
    destruct (forEach body l1 (S index)) as [there|] eqn:E; [|discriminate].
    intros [= <-] H2.
    rewrite (IH (S index) there E).
    + now rewrite app_assoc.
    + now rewrite Nat.add_succ_comm.
Qed.

Lemma forEach_defined (arr : list A) (index : nat) :
  (forall item idx, exists out, body item idx = Ok out) ->
  exists out, forEach body arr index = Ok out.
Proof.
  intros Hbody. revert index.
  induction arr as [|a arr IH]; intros index; simpl.
  - now eexists.
  - destruct (Hbody a index) as [here ->].
    destruct (IH (S index)) as [there ->]. now eexists.
Qed.

Lemma forEach_Forall (P : B -> Prop) (arr : list A) (index : nat)
    (out : list B) :
  (forall item idx here, body item idx = Ok here -> Forall P here) ->
  forEach body arr index = Ok out ->
  Forall P out.
Proof.
  intros Hbody. revert index out.
  induction arr as [|a arr IH]; intros index out; simpl.
  - intros [= <-]. constructor.
  - destruct (body a index) as [here|] eqn:E1; [|discriminate].
    destruct (forEach body arr (S index)) as [there|] eqn:E2; [|discriminate].
    intros [= <-]. apply Forall_app. split; eauto.
Qed.

Lemma forEach_Forall2 (P : A -> B -> Prop) (arr : list A) (index : nat) :
  (forall item idx, exists b, body item idx = Ok [ b ] /\ P item b) ->
  exists out, forEach body arr index = Ok out /\ Forall2 P arr out.
Proof.
  intros Hbody. revert index.
  induction arr as [|a arr IH]; intros index; simpl.
  - eexists. split; [reflexivity|constructor].
  - destruct (Hbody a index) as (b & -> & Hb).
    destruct (IH (S index)) as (there & -> & Hthere).
    eexists. split; [reflexivity|]. simpl. now constructor.
Qed.

End ForEach.

(** ** The link pass *)

Lemma drawLink_unresolved (nm : gmap string DiagramNode.t) (shouldAnim : bool)
    (highlightedNode : option string) (instanceId : string)
    (link : DiagramLink.t) (linkIndex : nat) :
  nm !! DiagramLink.source link = None \/
  nm !! DiagramLink.target link = None ->
  drawLink nm shouldAnim highlightedNode instanceId link linkIndex = Ok [].
Proof.
  unfold drawLink. intros [H | H]; rewrite H; [reflexivity|].
  now destruct (nm !! DiagramLink.source link).
Qed.

(** What a drawn link group looks like: hidden with a transition when the
    reveal is on and the link is staged, at its base opacity otherwise. *)
Lemma drawLink_cases (nm : gmap string DiagramNode.t) (shouldAnim : bool)
    (highlightedNode : option string) (instanceId : string)
    (link : DiagramLink.t) (linkIndex : nat) :
  drawLink nm shouldAnim highlightedNode instanceId link linkIndex = Ok []
  \/ exists g,
       drawLink nm shouldAnim highlightedNode instanceId link linkIndex
       = Ok [ g ]
       /\ LinkGroup.link g = link
       /\ LinkGroup.d g = generateLinkPath nm link linkIndex false
       /\ LinkGroup.particleConfig g = particleConfigOf link
       /\ ((shouldAnim = false \/ getLinkPhase (DiagramLink.id link) = None) ->
           LinkGroup.opacity g = linkBaseOpacity highlightedNode link
           /\ LinkGroup.transition g = None)
       /\ (shouldAnim = true ->
           getLinkPhase (DiagramLink.id link) <> None ->
           LinkGroup.opacity g = 0
           /\ exists startTime duration,
                LinkGroup.transition g
                = Some (Transition.mk startTime duration
                          (linkBaseOpacity highlightedNode link))).
Proof.
  unfold drawLink.
  destruct (nm !! DiagramLink.source link) as [sourceNode|]; [|now left].
  destruct (nm !! DiagramLink.target link) as [targetNode|]; [|now left].
  right.
  pose proof (getLinkPhase_range (DiagramLink.id link)) as Hrange.
  destruct shouldAnim; simpl.
  - destruct Hrange as [Hnone | (n & Hn & Hr)].
    + rewrite Hnone. simpl. eexists. split; [reflexivity|]. simpl.
      repeat (split; [reflexivity|]). split; [tauto|]. intros _ Hne.
      congruence.
    + rewrite Hn. simpl.
      assert (Hz : Z.eqb n 0 = false) by (apply Z.eqb_neq; lia).
      rewrite Hz.
      destruct (phaseTransition_defined n (linkBaseOpacity highlightedNode link) Hr)
        as (startTime & dur & -> & _).
      eexists. split; [reflexivity|]. simpl.
      repeat (split; [reflexivity|]). split.
      * intros [H | H]; congruence.
      * intros _ _. split; [reflexivity|]. now eexists _, _.
  - eexists. split; [reflexivity|]. simpl.
    repeat (split; [reflexivity|]). split; [tauto|]. intros H; discriminate.
Qed.

Lemma drawLink_defined (nm : gmap string DiagramNode.t) (shouldAnim : bool)
    (highlightedNode : option string) (instanceId : string)
    (link : DiagramLink.t) (linkIndex : nat) :
  exists out,
    drawLink nm shouldAnim highlightedNode instanceId link linkIndex = Ok out.
Proof.
  destruct (drawLink_cases nm shouldAnim highlightedNode instanceId link
              linkIndex) as [-> | (g & -> & _)]; now eexists.
Qed.

(** A link that resolves is drawn, with the path [generateLinkPath] gives it
    at its own index. *)
Lemma drawLink_resolved (nm : gmap string DiagramNode.t) (shouldAnim : bool)
    (highlightedNode : option string) (instanceId : string)
    (link : DiagramLink.t) (linkIndex : nat)
    (sourceNode targetNode : DiagramNode.t) :
  nm !! DiagramLink.source link = Some sourceNode ->
  nm !! DiagramLink.target link = Some targetNode ->
  exists g,
    drawLink nm shouldAnim highlightedNode instanceId link linkIndex = Ok [ g ]
    /\ LinkGroup.link g = link
    /\ LinkGroup.d g = generateLinkPath nm link linkIndex false.
Proof.
  intros Hs Ht.
  destruct (drawLink_cases nm shouldAnim highlightedNode instanceId link
              linkIndex) as [H0 | (g & Hg & Hl & Hd & _)].
  - exfalso. unfold drawLink in H0. rewrite Hs, Ht in H0.
    destruct (if shouldAnim && not_null (getLinkPhase (DiagramLink.id link))
              then truthy_phase (getLinkPhase (DiagramLink.id link))
              else None) as [n|]; [|discriminate].
    destruct (phaseTransition n (linkBaseOpacity highlightedNode link));
      discriminate.
  - now exists g.
Qed.

(** ** The node pass *)

Lemma drawNode_cases (shouldAnim : bool) (highlightedNode : option string)
    (links : list DiagramLink.t) (node : DiagramNode.t) (index : nat) :
  exists g,
    drawNode shouldAnim highlightedNode links node index = Ok [ g ]
    /\ NodeGroup.node g = node
    /\ ((shouldAnim = false \/ getNodePhase (DiagramNode.id node) = None) ->
        NodeGroup.transform g
        = Translate (DiagramNode.x node) (DiagramNode.y node)
        /\ NodeGroup.opacity g = nodeBaseOpacity highlightedNode links node
        /\ NodeGroup.transition g = None
        /\ NodeGroup.pulseTimeout g = None)
    /\ (shouldAnim = true ->
        getNodePhase (DiagramNode.id node) <> None ->
        NodeGroup.opacity g = 0
        /\ (exists cx cy dx dy,
              NodeGroup.transform g
              = TranslateScaleTranslate cx cy (3 # 10) dx dy)
        /\ exists startTime duration,
             NodeGroup.transition g
             = Some (Transition.mk startTime duration
                       (nodeBaseOpacity highlightedNode links node))).
Proof.
  unfold drawNode.
  pose proof (getNodePhase_range (DiagramNode.id node)) as Hrange.
  destruct shouldAnim; simpl.
  - destruct Hrange as [Hnone | (n & Hn & Hr)].
    + rewrite Hnone. simpl. eexists. split; [reflexivity|]. simpl.
      split; [reflexivity|]. split; [tauto|]. intros _ Hne. congruence.
    + rewrite Hn. simpl.
      assert (Hz : Z.eqb n 0 = false) by (apply Z.eqb_neq; lia).
      rewrite Hz.
      destruct (phaseTransition_defined n
                  (nodeBaseOpacity highlightedNode links node) Hr)
        as (startTime & dur & -> & _).
      change getTotalAnimationDuration with (Ok 6000%Z).
      destruct (_ || _); eexists; (split; [reflexivity|]); simpl;
        (split; [reflexivity|]); (split; [intros [H | H]; congruence|]);
        intros _ _; (split; [reflexivity|]);
        (split; [now eexists _, _, _, _ | now eexists _, _]).
  - eexists. split; [reflexivity|]. simpl.
    split; [reflexivity|]. split; [tauto|]. intros H; discriminate.
Qed.

(** ** The render *)

Lemma shouldAnimate_true (animateTransition : bool)
    (diagramData : DiagramData.t) :
  shouldAnimate animateTransition diagramData = true
  <-> animateTransition = true
      /\ exists m, DiagramData.metadata diagramData = Some m
                   /\ Metadata.system m = "proposed"%string.
Proof.
  unfold shouldAnimate, context. rewrite andb_true_iff.
  destruct (DiagramData.metadata diagramData) as [m|].
  - destruct (String.eqb (Metadata.system m) "proposed") eqn:E.
    + apply String.eqb_eq in E. split.
      * intros [Ha _]. split; [exact Ha|]. now exists m.
      * intros [Ha _]. now split.
    + apply String.eqb_neq in E. split.
      * intros [_ H]. discriminate.
      * intros (_ & m' & [= <-] & H). contradiction.
  - split.
    + intros [_ H]. discriminate.
    + intros (_ & m & H & _). discriminate.
Qed.

(** The render never throws, and its link and node groups are what the two
    passes give. *)
Lemma render_defined (diagramData : DiagramData.t) (width height : Q)
    (instanceId : string) (animateTransition : bool)
    (highlightedNode : option string) (bbox : option BBox.t) :
  exists scene linkGroups nodeGroups,
    render diagramData width height instanceId animateTransition
      highlightedNode bbox = Ok scene
    /\ forEach (drawLink (nodeMap (DiagramData.nodes diagramData))
                  (shouldAnimate animateTransition diagramData)
                  highlightedNode instanceId)
         (DiagramData.links diagramData) 0 = Ok linkGroups
    /\ forEach (drawNode (shouldAnimate animateTransition diagramData)
                  highlightedNode (DiagramData.links diagramData))
         (DiagramData.nodes diagramData) 0 = Ok nodeGroups
    /\ Scene.linkGroups scene = linkGroups
    /\ Scene.nodeGroups scene = nodeGroups
    /\ Scene.fit scene = viewportFit width height bbox
    /\ Scene.particles scene
       = match viewportFit width height bbox with
         | Some _ => particlesOf linkGroups
         | None => []
         end.
Proof.
  unfold render.
  destruct (forEach_defined
              (fun link index =>
                 Ok (defsOfLink (nodeMap (DiagramData.nodes diagramData))
                       instanceId link index))
              (DiagramData.links diagramData) 0) as [defs ->].
  { intros. now eexists. }
  destruct (forEach_defined
              (drawLink (nodeMap (DiagramData.nodes diagramData))
                 (shouldAnimate animateTransition diagramData)
                 highlightedNode instanceId)
              (DiagramData.links diagramData) 0) as [linkGroups ->].
  { intros. apply drawLink_defined. }
  destruct (forEach_defined
              (drawNode (shouldAnimate animateTransition diagramData)
                 highlightedNode (DiagramData.links diagramData))
              (DiagramData.nodes diagramData) 0) as [nodeGroups ->].
  { intros item idx.
    destruct (drawNode_cases (shouldAnimate animateTransition diagramData)
                highlightedNode (DiagramData.links diagramData) item idx)
      as (g & -> & _). now eexists. }
  eexists _, _, _. repeat (split; [reflexivity|]). reflexivity.
Qed.

(** ** The staged reveal, element by element *)

Lemma includes_In (arr : list string) (s : string) :
  includes arr s = true <-> In s arr.
Proof.
  unfold includes. rewrite existsb_exists. split.
  - intros (x & Hin & Heq). apply String.eqb_eq in Heq. now subst.
  - intros Hin. exists s. split; [exact Hin|apply String.eqb_refl].
Qed.

(** What the loop of [getNodePhase] and [getLinkPhase] finds: nothing when
    no entry lists the id, else the number read off the key of the first
    entry that lists it. *)
Lemma findPhase_first (members : AnimationPhase.t -> list string)
    (entries : list (string * AnimationPhase.t)) (id : string) :
  (findPhase members entries id = None
   /\ forall n key phase, nth_error entries n = Some (key, phase) ->
                          ~ In id (members phase))
  \/ exists n key phase,
       nth_error entries n = Some (key, phase)
       /\ In id (members phase)
       /\ findPhase members entries id
          = Some (parseInt (remove_first "phase" key)).
Proof.
  induction entries as [|[key phase] entries IH]; simpl.
  - left. split; [reflexivity|]. intros [|n] ? ? [=].
  - destruct (includes (members phase) id) eqn:E.
    + right. exists 0%nat, key, phase. apply includes_In in E. now repeat split.
    + destruct IH as [[Hnone Hall] | (n & k & p & Hn & Hin & Hf)].
      * left. split; [exact Hnone|].
        intros [|n] k p; simpl.
        -- intros [= <- <-] Hin. apply includes_In in Hin. congruence.
        -- apply Hall.
      * right. exists (S n), k, p. now repeat split.
Qed.

(** On the table of the program the number found is the position of the
    phase in the sequence. *)
Lemma findPhase_named (members : AnimationPhase.t -> list string)
    (id : string) :
  (findPhase members ANIMATION_PHASES id = None
   /\ forall n, ~ namedBy members id n)
  \/ exists n,
       namedBy members id n
       /\ findPhase members ANIMATION_PHASES id
          = Some (Int (Z.of_nat (S n)))
       /\ forall baseOpacity,
            phaseTransition (Z.of_nat (S n)) baseOpacity
            = Ok (revealOf n baseOpacity).
Proof.
  destruct (findPhase_first members ANIMATION_PHASES id)
    as [[Hnone Hall] | (n & key & phase & Hn & Hin & Hf)].
  - left. split; [exact Hnone|].
    intros n (key & phase & Hn & Hin). exact (Hall _ _ _ Hn Hin).
  - right. exists n. split; [now exists key, phase|].
    rewrite Hf. clear Hf Hin.
    do 6 (destruct n as [|n];
          [injection Hn as <- <-; split; [reflexivity|intros b; reflexivity]|]).
    destruct n; discriminate.
Qed.

(** The group of a node: its reveal is scheduled exactly when the reveal is
    on and a phase names the node. *)
Lemma drawNode_reveal (shouldAnim : bool) (highlightedNode : option string)
    (links : list DiagramLink.t) (node : DiagramNode.t) (index : nat) :
  exists g,
    drawNode shouldAnim highlightedNode links node index = Ok [ g ]
    /\ NodeGroup.node g = node
    /\ (NodeGroup.transition g <> None
        <-> shouldAnim = true
            /\ exists n, namedBy AnimationPhase.nodes (DiagramNode.id node) n)
    /\ (NodeGroup.transition g = None ->
        NodeGroup.transform g
        = Translate (DiagramNode.x node) (DiagramNode.y node)
        /\ NodeGroup.opacity g = nodeBaseOpacity highlightedNode links node
        /\ NodeGroup.pulseTimeout g = None)
    /\ (forall tr, NodeGroup.transition g = Some tr ->
        NodeGroup.transform g
        = TranslateScaleTranslate
            (DiagramNode.x node + DiagramNode.width node / 2)
            (DiagramNode.y node + DiagramNode.height node / 2) (3 # 10)
            (- DiagramNode.width node / 2) (- DiagramNode.height node / 2)
        /\ NodeGroup.opacity g = 0
        /\ exists n,
             namedBy AnimationPhase.nodes (DiagramNode.id node) n
             /\ tr = revealOf n (nodeBaseOpacity highlightedNode links node)).
Proof.
  unfold drawNode, getNodePhase.
  destruct (findPhase_named AnimationPhase.nodes (DiagramNode.id node))
    as [[-> Hnot] | (n & Hnamed & -> & Htr)].
  - rewrite andb_false_r. cbv iota.
    eexists. split; [reflexivity|]. cbn.
    split; [reflexivity|]. split; [|split].
    + split; [congruence|]. intros (_ & n & Hn). destruct (Hnot n Hn).
    + now intros _.
    + intros tr [=].
  - destruct shouldAnim.
    + cbn [andb not_null truthy_phase].
      change (Z.eqb (Z.of_nat (S n)) 0) with false. cbv iota.
      rewrite Htr.
      change getTotalAnimationDuration with (Ok 6000%Z).
      destruct (String.eqb (DiagramNode.id node) "anaerobic-digester"
                || String.eqb (DiagramNode.id node) "pyrolysis-unit");
        (eexists; split; [reflexivity|]; cbn;
         split; [reflexivity|]; split; [|split];
         [ split; [intros _; split; [reflexivity|now exists n]|discriminate]
         | discriminate
         | intros tr [= <-]; split; [reflexivity|];
           split; [reflexivity|now exists n] ]).
    + cbn [andb]. cbv iota.
      eexists. split; [reflexivity|]. cbn.
      split; [reflexivity|]. split; [|split].
      * split; [congruence|]. intros ([=] & _).
      * now intros _.
      * intros tr [=].
Qed.

(** The group of a link, when it has one. *)
Lemma drawLink_reveal (nm : gmap string DiagramNode.t) (shouldAnim : bool)
    (highlightedNode : option string) (instanceId : string)
    (link : DiagramLink.t) (linkIndex : nat) :
  is_Some (nm !! DiagramLink.source link) ->
  is_Some (nm !! DiagramLink.target link) ->
  exists g,
    drawLink nm shouldAnim highlightedNode instanceId link linkIndex = Ok [ g ]
    /\ LinkGroup.link g = link
    /\ (LinkGroup.transition g <> None
        <-> shouldAnim = true
            /\ exists n, namedBy AnimationPhase.links (DiagramLink.id link) n)
    /\ (LinkGroup.transition g = None ->
        LinkGroup.opacity g = linkBaseOpacity highlightedNode link)
    /\ (forall tr, LinkGroup.transition g = Some tr ->
        LinkGroup.opacity g = 0
        /\ exists n,
             namedBy AnimationPhase.links (DiagramLink.id link) n
             /\ tr = revealOf n (linkBaseOpacity highlightedNode link)).
Proof.
  intros [sourceNode Hs] [targetNode Ht].
  unfold drawLink, getLinkPhase. rewrite Hs, Ht.
  destruct (findPhase_named AnimationPhase.links (DiagramLink.id link))
    as [[-> Hnot] | (n & Hnamed & -> & Htr)].
  - rewrite andb_false_r. cbv iota.
    eexists. split; [reflexivity|]. cbn.
    split; [reflexivity|]. split; [|split].
    + split; [congruence|]. intros (_ & n & Hn). destruct (Hnot n Hn).
    + now intros _.
    + intros tr [=].
  - destruct shouldAnim.
    + cbn [andb not_null truthy_phase].
      change (Z.eqb (Z.of_nat (S n)) 0) with false. cbv iota.
      rewrite Htr.
      eexists. split; [reflexivity|]. cbn.
      split; [reflexivity|]. split; [|split].
      * split; [intros _; split; [reflexivity|now exists n]|discriminate].
      * discriminate.
      * intros tr [= <-]. split; [reflexivity|now exists n].
    + cbn [andb]. cbv iota.
      eexists. split; [reflexivity|]. cbn.
      split; [reflexivity|]. split; [|split].
      * split; [congruence|]. intros ([=] & _).
      * now intros _.
      * intros tr [=].
Qed.

Lemma resolves_lookup (nodes : list DiagramNode.t) (link : DiagramLink.t) :
  (resolves nodes link = true ->
   is_Some (nodeMap nodes !! DiagramLink.source link)
   /\ is_Some (nodeMap nodes !! DiagramLink.target link))
  /\ (resolves nodes link = false ->
      nodeMap nodes !! DiagramLink.source link = None
      \/ nodeMap nodes !! DiagramLink.target link = None).
Proof.
  assert (Hmem : forall k,
             existsb (String.eqb k) (map DiagramNode.id nodes) = true
             <-> In k (map DiagramNode.id nodes)).
  { intros k. rewrite existsb_exists. split.
    - intros (x & Hin & Heq). apply String.eqb_eq in Heq. now subst.
    - intros Hin. exists k. split; [exact Hin|apply String.eqb_refl]. }
  assert (Hsome : forall k,
             In k (map DiagramNode.id nodes) -> is_Some (nodeMap nodes !! k)).
  { intros k Hin. destruct (nodeMap nodes !! k) eqn:E; [now eexists|].
    apply nodeMap_lookup_None in E. contradiction. }
  unfold resolves. split.
  - intros H. apply andb_true_iff in H as [H1 H2].
    split; apply Hsome, Hmem; assumption.
  - intros H. apply andb_false_iff in H as [H | H]; [left | right];
      apply nodeMap_lookup_None; intros Hin; apply Hmem in Hin; congruence.
Qed.

(** A [forEach] whose body appends one element for the items it keeps and
    none for the others. *)
Lemma forEach_filter_Forall2 {A B : Type} (body : A -> nat -> outcome (list B))
    (keep : A -> bool) (P : A -> B -> Prop) (arr : list A) (index : nat) :
  (forall item idx, keep item = false -> body item idx = Ok []) ->
  (forall item idx, keep item = true ->
                    exists b, body item idx = Ok [ b ] /\ P item b) ->
  exists out,
    forEach body arr index = Ok out /\ Forall2 P (List.filter keep arr) out.
Proof.
  intros Hskip Hkeep. revert index.
  induction arr as [|a arr IH]; intros index; simpl.
  - eexists. split; [reflexivity|constructor].
  - destruct (IH (S index)) as (there & -> & Hthere).
    destruct (keep a) eqn:E.
    + destruct (Hkeep a index E) as (b & -> & Hb).
      eexists. split; [reflexivity|]. simpl. now constructor.
    + rewrite (Hskip a index E). eexists. split; [reflexivity|]. exact Hthere.
Qed.

(** C9.  The render always completes, with one group for every node and
    one for every link both ends of which are node ids, in order.  A
    reveal transition is scheduled for an element exactly when the
    animateTransition flag is true, the metadata's system is "proposed"
    and a phase of the table names the element; the element then starts
    at opacity 0 (a node shrunk to scale 0.3 about its centre) and its
    transition starts at the start time of the phase, lasts the duration
    of the phase and ends at the base opacity.  In every other case (flag
    false, another system, no metadata) every node group is placed by
    translate(node.x, node.y) at its base opacity and every link group is
    at its base opacity, none with a transition and no pulse timer set. *)
Theorem staged_reveal_gate (animateTransition : bool)
    (diagramData : DiagramData.t) (width height : Q) (instanceId : string)
    (highlightedNode : option string) (bbox : option BBox.t) :
  let on := revealCondition animateTransition diagramData in
  let nodes := DiagramData.nodes diagramData in
  let links := DiagramData.links diagramData in
  exists scene,
    render diagramData width height instanceId animateTransition
      highlightedNode bbox = Ok scene
    /\ Forall2
         (fun node g =>
            NodeGroup.node g = node
            /\ (NodeGroup.transition g <> None
                <-> on /\ exists n, namedBy AnimationPhase.nodes
                                      (DiagramNode.id node) n)
            /\ (NodeGroup.transition g = None ->
                NodeGroup.transform g
                = Translate (DiagramNode.x node) (DiagramNode.y node)
                /\ NodeGroup.opacity g
                   = nodeBaseOpacity highlightedNode links node
                /\ NodeGroup.pulseTimeout g = None)
            /\ (forall tr, NodeGroup.transition g = Some tr ->
                NodeGroup.transform g
                = TranslateScaleTranslate
                    (DiagramNode.x node + DiagramNode.width node / 2)
                    (DiagramNode.y node + DiagramNode.height node / 2)
                    (3 # 10)
                    (- DiagramNode.width node / 2)
                    (- DiagramNode.height node / 2)
                /\ NodeGroup.opacity g = 0
                /\ exists n,
                     namedBy AnimationPhase.nodes (DiagramNode.id node) n
                     /\ tr = revealOf n (nodeBaseOpacity highlightedNode
                                           links node)))
         nodes (Scene.nodeGroups scene)
    /\ Forall2
         (fun link g =>
            LinkGroup.link g = link
            /\ (LinkGroup.transition g <> None
                <-> on /\ exists n, namedBy AnimationPhase.links
                                      (DiagramLink.id link) n)
            /\ (LinkGroup.transition g = None ->
                LinkGroup.opacity g = linkBaseOpacity highlightedNode link)
            /\ (forall tr, LinkGroup.transition g = Some tr ->
                LinkGroup.opacity g = 0
                /\ exists n,
                     namedBy AnimationPhase.links (DiagramLink.id link) n
                     /\ tr = revealOf n (linkBaseOpacity highlightedNode
                                           link)))
         (List.filter (resolves nodes) links) (Scene.linkGroups scene)
    /\ (~ on ->
        Forall
          (fun g =>
             NodeGroup.transition g = None
             /\ NodeGroup.pulseTimeout g = None
             /\ NodeGroup.transform g
                = Translate (DiagramNode.x (NodeGroup.node g))
                    (DiagramNode.y (NodeGroup.node g))
             /\ NodeGroup.opacity g
                = nodeBaseOpacity highlightedNode links (NodeGroup.node g))
          (Scene.nodeGroups scene)
        /\ Forall
             (fun g =>
                LinkGroup.transition g = None
                /\ LinkGroup.opacity g
                   = linkBaseOpacity highlightedNode (LinkGroup.link g))
             (Scene.linkGroups scene)).
Proof.
  intros on nodes links.
  destruct (render_defined diagramData width height instanceId
              animateTransition highlightedNode bbox)
    as (scene & linkGroups & nodeGroups & Hr & Hl & Hn & HL & HN & _).
  exists scene. split; [exact Hr|]. rewrite HL, HN. clear Hr HL HN scene.
  pose proof (shouldAnimate_true animateTransition diagramData) as Hon.
  fold (revealCondition animateTransition diagramData) in Hon. fold on in Hon.
  fold nodes in Hl, Hn. fold links in Hl, Hn.
  set (sa := shouldAnimate animateTransition diagramData) in *.
  assert (HNodes : Forall2
            (fun node g =>
               NodeGroup.node g = node
               /\ (NodeGroup.transition g <> None
                   <-> on /\ exists n, namedBy AnimationPhase.nodes
                                         (DiagramNode.id node) n)
               /\ (NodeGroup.transition g = None ->
                   NodeGroup.transform g
                   = Translate (DiagramNode.x node) (DiagramNode.y node)
                   /\ NodeGroup.opacity g
                      = nodeBaseOpacity highlightedNode links node
                   /\ NodeGroup.pulseTimeout g = None)
               /\ (forall tr, NodeGroup.transition g = Some tr ->
                   NodeGroup.transform g
                   = TranslateScaleTranslate
                       (DiagramNode.x node + DiagramNode.width node / 2)
                       (DiagramNode.y node + DiagramNode.height node / 2)
                       (3 # 10)
                       (- DiagramNode.width node / 2)
                       (- DiagramNode.height node / 2)
                   /\ NodeGroup.opacity g = 0
                   /\ exists n,
                        namedBy AnimationPhase.nodes (DiagramNode.id node) n
                        /\ tr = revealOf n (nodeBaseOpacity highlightedNode
                                              links node)))
            nodes nodeGroups).
  { destruct (forEach_Forall2 (drawNode sa highlightedNode links) _ nodes 0
                (fun item idx =>
                   drawNode_reveal sa highlightedNode links item idx))
      as (out & Hout & HF).
    rewrite Hn in Hout. injection Hout as <-.
    eapply Forall2_impl; [exact HF|].
    intros node g (H1 & H2 & H3 & H4).
    split; [exact H1|]. split; [|split; assumption].
    rewrite H2. now rewrite Hon. }
  assert (HLinks : Forall2
            (fun link g =>
               LinkGroup.link g = link
               /\ (LinkGroup.transition g <> None
                   <-> on /\ exists n, namedBy AnimationPhase.links
                                         (DiagramLink.id link) n)
               /\ (LinkGroup.transition g = None ->
                   LinkGroup.opacity g = linkBaseOpacity highlightedNode link)
               /\ (forall tr, LinkGroup.transition g = Some tr ->
                   LinkGroup.opacity g = 0
                   /\ exists n,
                        namedBy AnimationPhase.links (DiagramLink.id link) n
                        /\ tr = revealOf n (linkBaseOpacity highlightedNode
                                              link)))
            (List.filter (resolves nodes) links) linkGroups).
  { destruct (forEach_filter_Forall2
                (drawLink (nodeMap nodes) sa highlightedNode instanceId)
                (resolves nodes)
                (fun link g =>
                   LinkGroup.link g = link
                   /\ (LinkGroup.transition g <> None
                       <-> sa = true
                           /\ exists n, namedBy AnimationPhase.links
                                          (DiagramLink.id link) n)
                   /\ (LinkGroup.transition g = None ->
                       LinkGroup.opacity g
                       = linkBaseOpacity highlightedNode link)
                   /\ (forall tr, LinkGroup.transition g = Some tr ->
                       LinkGroup.opacity g = 0
                       /\ exists n,
                            namedBy AnimationPhase.links
                              (DiagramLink.id link) n
                            /\ tr = revealOf n
                                      (linkBaseOpacity highlightedNode link)))
                links 0) as (out & Hout & HF).
    - intros item idx Hres. apply drawLink_unresolved.
      now apply (resolves_lookup nodes item).
    - intros item idx Hres.
      destruct (proj1 (resolves_lookup nodes item) Hres) as [Hs Ht].
      exact (drawLink_reveal _ sa highlightedNode instanceId item idx Hs Ht).
    - rewrite Hl in Hout. injection Hout as <-.
      eapply Forall2_impl; [exact HF|].
      intros link g (H1 & H2 & H3 & H4).
      split; [exact H1|]. split; [|split; assumption].
      rewrite H2. now rewrite Hon. }
  split; [exact HNodes|]. split; [exact HLinks|].
  intros Hoff. split.
  - clear -HNodes Hoff. induction HNodes as [|node g ns gs Hg _ IH];
      constructor; [|exact IH].
    destruct Hg as (<- & Hiff & Hstatic & _).
    assert (Hnone : NodeGroup.transition g = None).
    { destruct (NodeGroup.transition g) eqn:E; [|reflexivity].
      exfalso. apply Hoff. apply Hiff. discriminate. }
    destruct (Hstatic Hnone) as (Ht & Ho & Hp). now repeat split.
  - clear -HLinks Hoff. induction HLinks as [|link g ls gs Hg _ IH];
      constructor; [|exact IH].
    destruct Hg as (<- & Hiff & Hstatic & _).
    assert (Hnone : LinkGroup.transition g = None).
    { destruct (LinkGroup.transition g) eqn:E; [|reflexivity].
      exfalso. apply Hoff. apply Hiff. discriminate. }
    split; [exact Hnone|]. now apply Hstatic.
Qed.

Lemma staged_reveal_gate_witness :
  (exists scene g tr,
     render Demo.proposed 850 700 "default" true None None = Ok scene
     /\ In g (Scene.nodeGroups scene)
     /\ NodeGroup.node g = Demo.digester
     /\ NodeGroup.transition g = Some tr
     /\ NodeGroup.opacity g = 0
     /\ Transition.delay tr = 0%Z /\ Transition.duration tr = 800%Z)
  /\ (exists scene,
        render Demo.proposed 850 700 "default" false None None = Ok scene
        /\ Forall (fun g => NodeGroup.transition g = None)
             (Scene.nodeGroups scene)
        /\ Forall (fun g => LinkGroup.transition g = None)
             (Scene.linkGroups scene)).
Proof.
  split.
  - destruct (staged_reveal_gate true Demo.proposed 850 700 "default" None None)
      as (scene & Hr & HN & _).
    exists scene.
    change (DiagramData.nodes Demo.proposed)
      with [ Demo.house; Demo.digester ] in HN.
    inversion HN as [|n1 g1 ns1 gs1 _ HN1]; subst; clear HN.
    inversion HN1 as [|n2 g2 ns2 gs2 Hg _]; subst; clear HN1.
    destruct Hg as (Hnode & Hiff & _ & Hstaged).
    assert (Hsome : NodeGroup.transition g2 <> None).
    { apply Hiff. split.
      - split; [reflexivity|]. eexists. split; reflexivity.
      - exists 0%nat. eexists _, _. split; [reflexivity|]. now left. }
    destruct (NodeGroup.transition g2) as [tr|] eqn:Etr; [|contradiction].
    destruct (Hstaged tr eq_refl) as (_ & Hop & n & Hnamed & ->).
    exists g2, (revealOf n
                  (nodeBaseOpacity None (DiagramData.links Demo.proposed)
                     Demo.digester)).
    assert (Hn : n = 0%nat).
    { destruct Hnamed as (key & phase & Hnth & Hin).
      do 6 (destruct n as [|n];
            [injection Hnth as <- <-; simpl in Hin;
             first [reflexivity | intuition discriminate]|]).
      destruct n; discriminate. }
    subst n.
    split; [exact Hr|].
    split; [right; now left|].
    split; [exact Hnode|].
    split; [exact Etr|]. split; [exact Hop|]. split; reflexivity.
  - destruct (staged_reveal_gate false Demo.proposed 850 700 "default" None None)
      as (scene & Hr & _ & _ & Hoff).
    exists scene. split; [exact Hr|].
    destruct Hoff as [HN HL]; [intros [H _]; discriminate|].
    split.
    + eapply List.Forall_impl; [|exact HN]. now intros g (H & _).
    + eapply List.Forall_impl; [|exact HL]. now intros g (H & _).
Defined.

(** C8.  For every link whose source or target identifier is not the id of
    a node of the node set: [generateLinkPath] returns the empty path, the
    only thing the definitions pass makes for it is a path definition with
    empty data, the drawing pass appends nothing for it (no path, no label,
    no particle configuration), the render completes without throwing, and
    the link groups and particles of the scene are those of the links
    before and after it, each drawn at its own index; every node gets its
    group. *)
Theorem unresolved_link_skipped (diagramData : DiagramData.t)
    (width height : Q) (instanceId : string) (animateTransition : bool)
    (highlightedNode : option string) (bbox : option BBox.t)
    (before after : list DiagramLink.t) (link : DiagramLink.t) :
  DiagramData.links diagramData = before ++ link :: after ->
  ~ In (DiagramLink.source link)
       (map DiagramNode.id (DiagramData.nodes diagramData))
  \/ ~ In (DiagramLink.target link)
          (map DiagramNode.id (DiagramData.nodes diagramData)) ->
  let nm := nodeMap (DiagramData.nodes diagramData) in
  let shouldAnim := shouldAnimate animateTransition diagramData in
  let index := List.length before in
  (forall reverse, generateLinkPath nm link index reverse = [])
  /\ defsOfLink nm instanceId link index = [ (linkPathId instanceId link, []) ]
  /\ drawLink nm shouldAnim highlightedNode instanceId link index = Ok []
  /\ exists scene groupsBefore groupsAfter,
       render diagramData width height instanceId animateTransition
         highlightedNode bbox = Ok scene
       /\ forEach (drawLink nm shouldAnim highlightedNode instanceId)
            before 0 = Ok groupsBefore
       /\ forEach (drawLink nm shouldAnim highlightedNode instanceId)
            after (S index) = Ok groupsAfter
       /\ Scene.linkGroups scene = groupsBefore ++ groupsAfter
       /\ Scene.particles scene
          = match Scene.fit scene with
            | Some _ => particlesOf (groupsBefore ++ groupsAfter)
            | None => []
            end
       /\ map NodeGroup.node (Scene.nodeGroups scene)
          = DiagramData.nodes diagramData.
Proof.
  intros Hlinks Hun nm shouldAnim index.
  assert (Hnone : nm !! DiagramLink.source link = None \/
                  nm !! DiagramLink.target link = None).
  { unfold nm. rewrite !nodeMap_lookup_None. exact Hun. }
  split; [intros reverse; now apply generateLinkPath_unresolved|].
  split.
  { unfold defsOfLink. rewrite (generateLinkPath_unresolved _ _ _ _ Hnone).
    destruct Hnone as [-> | H]; [reflexivity|]. rewrite H.
    now destruct (nm !! DiagramLink.source link). }
  pose proof (drawLink_unresolved nm shouldAnim highlightedNode instanceId
                link index Hnone) as Hskip.
  split; [exact Hskip|].
  destruct (render_defined diagramData width height instanceId
              animateTransition highlightedNode bbox)
    as (scene & linkGroups & nodeGroups & Hr & Hl & Hn & HL & HN & HF & HP).
  fold nm shouldAnim in Hl. fold shouldAnim in Hn.
  destruct (forEach_defined (drawLink nm shouldAnim highlightedNode instanceId)
              before 0) as [groupsBefore Hb].
  { intros. apply drawLink_defined. }
  destruct (forEach_defined (drawLink nm shouldAnim highlightedNode instanceId)
              after (S index)) as [groupsAfter Ha].
  { intros. apply drawLink_defined. }
  assert (Hall : linkGroups = groupsBefore ++ groupsAfter).
  { rewrite Hlinks in Hl.
    rewrite (forEach_app _ before (link :: after) 0 groupsBefore groupsAfter Hb)
      in Hl.
    - now injection Hl as <-.
    - simpl. fold index. rewrite Hskip, Ha. reflexivity. }
  exists scene, groupsBefore, groupsAfter.
  split; [exact Hr|]. split; [exact Hb|]. split; [exact Ha|].
  split; [congruence|]. split.
  - rewrite HP, HF, Hall. reflexivity.
  - rewrite HN.
    destruct (forEach_Forall2
                (drawNode shouldAnim highlightedNode
                   (DiagramData.links diagramData))
                (fun node g => NodeGroup.node g = node)
                (DiagramData.nodes diagramData) 0) as (out & Hout & HF2).
    { intros item idx.
      destruct (drawNode_cases shouldAnim highlightedNode
                  (DiagramData.links diagramData) item idx)
        as (g & Hg & Hnode & _). now exists g. }
    rewrite Hn in Hout. injection Hout as <-.
    clear -HF2. induction HF2; simpl; congruence.
Qed.

(** The sample diagram: the link from A to the unknown node X sits between
    two links that resolve. *)
Lemma unresolved_link_skipped_witness :
  (forall reverse,
      generateLinkPath (nodeMap Sample.nodes) Sample.AX 1 reverse = [])
  /\ defsOfLink (nodeMap Sample.nodes) "default" Sample.AX 1
     = [ (linkPathId "default" Sample.AX, []) ]
  /\ drawLink (nodeMap Sample.nodes) false None "default" Sample.AX 1 = Ok []
  /\ exists scene groupsBefore groupsAfter,
       render Sample.data 850 700 "default" false None
         (Some (BBox.mk 0 0 400 500)) = Ok scene
       /\ forEach (drawLink (nodeMap Sample.nodes) false None "default")
            [ Sample.AB ] 0 = Ok groupsBefore
       /\ forEach (drawLink (nodeMap Sample.nodes) false None "default")
            [ Sample.AD ] 2 = Ok groupsAfter
       /\ Scene.linkGroups scene = groupsBefore ++ groupsAfter
       /\ Scene.particles scene
          = match Scene.fit scene with
            | Some _ => particlesOf (groupsBefore ++ groupsAfter)
            | None => []
            end
       /\ map NodeGroup.node (Scene.nodeGroups scene) = Sample.nodes.
Proof.
  apply (unresolved_link_skipped Sample.data 850 700 "default" false None
           (Some (BBox.mk 0 0 400 500)) [ Sample.AB ] [ Sample.AD ] Sample.AX).
  - reflexivity.
  - right. simpl. intros H. decompose [or] H; discriminate || assumption.
Defined.

(** C7.  For loop-back links that share a source and target pair, sit at
    consecutive indices of the links array and have no explicit returnY,
    the fallback loop height of the first is max(source anchor y, target
    anchor y) + 100 + index * 60 and the next one's is exactly 60 more; the
    render draws the two links with these paths, one after the other. *)
Theorem fallback_loop_height_stagger (diagramData : DiagramData.t)
    (width height : Q) (instanceId : string) (animateTransition : bool)
    (highlightedNode : option string) (bbox : option BBox.t)
    (before after : list DiagramLink.t) (link1 link2 : DiagramLink.t)
    (sourceNode targetNode : DiagramNode.t) :
  DiagramData.links diagramData = before ++ link1 :: link2 :: after ->
  DiagramLink.source link1 = DiagramLink.source link2 ->
  DiagramLink.target link1 = DiagramLink.target link2 ->
  nodeMap (DiagramData.nodes diagramData) !! DiagramLink.source link1
  = Some sourceNode ->
  nodeMap (DiagramData.nodes diagramData) !! DiagramLink.target link1
  = Some targetNode ->
  DiagramNode.x targetNode
    < DiagramNode.x sourceNode + DiagramNode.width sourceNode ->
  DiagramLink.returnY link1 = None ->
  DiagramLink.returnY link2 = None ->
  let nm := nodeMap (DiagramData.nodes diagramData) in
  let index := List.length before in
  exists y1 y2,
    nth_error (generateLinkPath nm link1 index false) 5
    = Some (LineTo (DiagramNode.x targetNode - 30) y1)
    /\ nth_error (generateLinkPath nm link2 (S index) false) 5
       = Some (LineTo (DiagramNode.x targetNode - 30) y2)
    /\ y1 == Qmax (DiagramNode.y sourceNode + DiagramNode.height sourceNode / 2)
                  (DiagramNode.y targetNode + DiagramNode.height targetNode / 2)
             + 100 + inject_Z (Z.of_nat index) * 60
    /\ y2 - y1 == 60
    /\ exists scene groupsBefore g1 g2 groupsAfter,
         render diagramData width height instanceId animateTransition
           highlightedNode bbox = Ok scene
         /\ Scene.linkGroups scene = groupsBefore ++ g1 :: g2 :: groupsAfter
         /\ LinkGroup.link g1 = link1 /\ LinkGroup.link g2 = link2
         /\ LinkGroup.d g1 = generateLinkPath nm link1 index false
         /\ LinkGroup.d g2 = generateLinkPath nm link2 (S index) false.
Proof.
  intros Hlinks Esrc Etgt Hs Ht Hlt Hr1 Hr2 nm index.
  fold nm in Hs, Ht.
  assert (Hs2 : nm !! DiagramLink.source link2 = Some sourceNode)
    by now rewrite <- Esrc.
  assert (Ht2 : nm !! DiagramLink.target link2 = Some targetNode)
    by now rewrite <- Etgt.
  exists (loopY None index (anchor_sy sourceNode) (anchor_ty targetNode)),
         (loopY None (S index) (anchor_sy sourceNode) (anchor_ty targetNode)).
  split; [|split; [|split; [|split]]].
  - rewrite <- Hr1. apply (loop_back_traverse _ _ _ _ _ Hs Ht Hlt).
  - rewrite <- Hr2. apply (loop_back_traverse _ _ _ _ _ Hs2 Ht2 Hlt).
  - reflexivity.
  - apply loopY_fallback_succ.
  - set (shouldAnim := shouldAnimate animateTransition diagramData).
    destruct (render_defined diagramData width height instanceId
                animateTransition highlightedNode bbox)
      as (scene & linkGroups & nodeGroups & Hr & Hl & _ & HL & _).
    fold nm shouldAnim in Hl.
    destruct (forEach_defined
                (drawLink nm shouldAnim highlightedNode instanceId) before 0)
      as [groupsBefore Hb].
    { intros. apply drawLink_defined. }
    destruct (forEach_defined
                (drawLink nm shouldAnim highlightedNode instanceId) after
                (S (S index))) as [groupsAfter Ha].
    { intros. apply drawLink_defined. }
    destruct (drawLink_resolved nm shouldAnim highlightedNode instanceId link1
                index sourceNode targetNode Hs Ht) as (g1 & Hg1 & Hl1 & Hd1).
    destruct (drawLink_resolved nm shouldAnim highlightedNode instanceId link2
                (S index) sourceNode targetNode Hs2 Ht2)
      as (g2 & Hg2 & Hl2 & Hd2).
    exists scene, groupsBefore, g1, g2, groupsAfter.
    split; [exact Hr|]. split; [|now repeat split].
    rewrite HL. rewrite Hlinks in Hl.
    rewrite (forEach_app _ before (link1 :: link2 :: after) 0 groupsBefore
               (g1 :: g2 :: groupsAfter) Hb) in Hl.
    + now injection Hl as <-.
    + simpl. fold index. rewrite Hg1, Hg2, Ha. reflexivity.
Qed.

(** Two copies of the sample link from A to B at indices 1 and 2 of the
    links array. *)
Lemma fallback_loop_height_stagger_witness :
  exists y1 y2,
    nth_error (generateLinkPath (nodeMap Sample.nodes) Sample.AB 1 false) 5
    = Some (LineTo (40 - 30) y1)
    /\ nth_error (generateLinkPath (nodeMap Sample.nodes) Sample.AB 2 false) 5
       = Some (LineTo (40 - 30) y2)
    /\ y1 == Qmax (0 + 100 / 2) (150 + 100 / 2) + 100
             + inject_Z (Z.of_nat 1) * 60
    /\ y2 - y1 == 60
    /\ exists scene groupsBefore g1 g2 groupsAfter,
         render Sample.twoLoops 850 700 "default" false None None = Ok scene
         /\ Scene.linkGroups scene = groupsBefore ++ g1 :: g2 :: groupsAfter
         /\ LinkGroup.link g1 = Sample.AB /\ LinkGroup.link g2 = Sample.AB
         /\ LinkGroup.d g1
            = generateLinkPath (nodeMap Sample.nodes) Sample.AB 1 false
         /\ LinkGroup.d g2
            = generateLinkPath (nodeMap Sample.nodes) Sample.AB 2 false.
Proof.
  apply (fallback_loop_height_stagger Sample.twoLoops 850 700 "default" false None
           None [ Sample.AD ] [] Sample.AB Sample.AB Sample.A Sample.B);
    reflexivity.
Defined.

(** ** Particle scheduling *)

Lemma num_or_nonzero (q d : Q) : ~ q == 0 -> num_or (Some q) d = q.
Proof.
  intros H. unfold num_or, truthy_num.
  destruct (Qeq_bool q 0) eqn:E; [|reflexivity].
  apply Qeq_bool_iff in E. contradiction.
Qed.

(** A rate of [0] is not told apart from a missing one. *)
Lemma num_or_zero (q d : Q) : q == 0 -> num_or (Some q) d = d.
Proof.
  intros H. unfold num_or, truthy_num.
  apply Qeq_bool_iff in H. now rewrite H.
Qed.

Lemma duration_decreasing (link1 link2 : DiagramLink.t) :
  animationRate link1 < animationRate link2 ->
  duration link2 < duration link1.
Proof. unfold duration. intros H. lra. Qed.

(** C6, counterexample.  The claim says the loop duration is strictly
    decreasing in the configured rate.  A link configured with rate 0 gets
    the default rate 3 ([link.animationRate || 3]) and so a 16 second loop,
    shorter than the 20 second loop of a link configured with rate 1. *)
Lemma duration_not_decreasing_at_rate_zero :
  let slow := DiagramLink.mk "l0" "A" "B" 4 "#999" None None None (Some 0)
                None None None None None in
  let fast := DiagramLink.mk "l1" "A" "B" 4 "#999" None None None (Some 1)
                None None None None None in
  DiagramLink.animationRate slow = Some 0
  /\ DiagramLink.animationRate fast = Some 1
  /\ 0 < 1
  /\ duration slow == 16 /\ duration fast == 20
  /\ ~ duration fast < duration slow.
Proof.
  cbv zeta. repeat (split; [reflexivity|]). vm_compute. discriminate.
Qed.

(** C6, amended.  For every link with particle count 3 and rate 3 (set on
    the link or taken from the defaults) the loop duration is
    (11 - 3) * 2 = 16 seconds and its three markers start at (i/3) * 16 for
    i = 0, 1, 2, that is 0 s, 16/3 s (5.33) and 32/3 s (10.67), one third
    of the period apart.  The loop duration is strictly decreasing in the
    configured rate over the rates that are not 0; a rate of 0, like a
    missing rate, is replaced by the default rate 3. *)
Theorem particle_schedule (link : DiagramLink.t) :
  particleCount link == 3 ->
  animationRate link == 3 ->
  exists config d0 d1 d2,
    particleConfigOf link = Some config
    /\ ParticleConfig.duration config == (11 - 3) * 2
    /\ ParticleConfig.duration config == 16
    /\ map Marker.delay (markersOf config) = [ d0; d1; d2 ]
    /\ d0 == (0 / 3) * 16 /\ d1 == (1 / 3) * 16 /\ d2 == (2 / 3) * 16
    /\ d0 == 0
    /\ Qabs (d1 - (533 # 100)) <= 1 # 200
    /\ Qabs (d2 - (1067 # 100)) <= 1 # 200
    /\ d1 - d0 == 16 / 3 /\ d2 - d1 == 16 / 3 /\ 16 - d2 == 16 / 3
    /\ (forall link1 link2 rate1 rate2,
          DiagramLink.animationRate link1 = Some rate1 ->
          DiagramLink.animationRate link2 = Some rate2 ->
          ~ rate1 == 0 -> ~ rate2 == 0 ->
          rate1 < rate2 ->
          duration link2 < duration link1)
    /\ (forall link0,
          DiagramLink.animationRate link0 = None
          \/ (exists rate0, DiagramLink.animationRate link0 = Some rate0
                            /\ rate0 == 0) ->
          duration link0 == 16).
Proof.
  intros Hc Hrate.
  assert (Hdur : duration link == 16).
  { unfold duration. rewrite Hrate. reflexivity. }
  assert (Hceil : Qceiling (particleCount link) = 3%Z)
    by (rewrite Hc; reflexivity).
  unfold particleConfigOf.
  assert (Hpos : Qltb 0 (particleCount link) = true) by (apply Qltb_lt; lra).
  rewrite Hpos.
  eexists _, (inject_Z (Z.of_nat 0) / particleCount link * duration link),
             (inject_Z (Z.of_nat 1) / particleCount link * duration link),
             (inject_Z (Z.of_nat 2) / particleCount link * duration link).
  split; [reflexivity|].
  cbn [ParticleConfig.duration].
  split; [rewrite Hdur; reflexivity|]. split; [exact Hdur|].
  split.
  { unfold markersOf, particleDelays.
    cbn [ParticleConfig.duration ParticleConfig.count].
    rewrite Hceil. reflexivity. }
  assert (E0 : inject_Z (Z.of_nat 0) / particleCount link * duration link
               == 0).
  { rewrite Hc, Hdur. reflexivity. }
  assert (E1 : inject_Z (Z.of_nat 1) / particleCount link * duration link
               == 16 # 3).
  { rewrite Hc, Hdur. reflexivity. }
  assert (E2 : inject_Z (Z.of_nat 2) / particleCount link * duration link
               == 32 # 3).
  { rewrite Hc, Hdur. reflexivity. }
  rewrite E0, E1, E2.
  repeat (split; [first [reflexivity | vm_compute; discriminate]|]).
  split.
  - intros link1 link2 rate1 rate2 H1 H2 Hn1 Hn2 Hlt.
    apply duration_decreasing. unfold animationRate. rewrite H1, H2.
    now rewrite !num_or_nonzero.
  - intros link0 [H0 | (rate0 & H0 & Hz)]; unfold duration, animationRate;
      rewrite H0.
    + reflexivity.
    + rewrite (num_or_zero _ _ Hz). reflexivity.
Qed.

(** A link configured with count 3 and rate 3. *)
Lemma particle_schedule_witness :
  exists config d0 d1 d2,
    particleConfigOf
      (DiagramLink.mk "l" "A" "B" 4 "#999" None None (Some 3) (Some 3) None
         None None None None) = Some config
    /\ ParticleConfig.duration config == (11 - 3) * 2
    /\ ParticleConfig.duration config == 16
    /\ map Marker.delay (markersOf config) = [ d0; d1; d2 ]
    /\ d0 == (0 / 3) * 16 /\ d1 == (1 / 3) * 16 /\ d2 == (2 / 3) * 16
    /\ d0 == 0
    /\ Qabs (d1 - (533 # 100)) <= 1 # 200
    /\ Qabs (d2 - (1067 # 100)) <= 1 # 200
    /\ d1 - d0 == 16 / 3 /\ d2 - d1 == 16 / 3 /\ 16 - d2 == 16 / 3
    /\ (forall link1 link2 rate1 rate2,
          DiagramLink.animationRate link1 = Some rate1 ->
          DiagramLink.animationRate link2 = Some rate2 ->
          ~ rate1 == 0 -> ~ rate2 == 0 ->
          rate1 < rate2 ->
          duration link2 < duration link1)
    /\ (forall link0,
          DiagramLink.animationRate link0 = None
          \/ (exists rate0, DiagramLink.animationRate link0 = Some rate0
                            /\ rate0 == 0) ->
          duration link0 == 16).
Proof.
  apply (particle_schedule
           (DiagramLink.mk "l" "A" "B" 4 "#999" None None (Some 3) (Some 3)
              None None None None None)); reflexivity.
Defined.

Import Middleware.

(** ** The basic-auth gate *)


Lemma split_nonempty (sep : ascii) (s : string) : split sep s <> [].
Proof.
  destruct s as [|c s]; simpl; [discriminate|].
  destruct (Ascii.eqb c sep); [discriminate|].
  destruct (split sep s); discriminate.
Qed.

(** The first piece of a split ends at the first separator. *)
Lemma split_cons_inv (sep : ascii) (s a : string) (rest : list string) :
  split sep s = a :: rest ->
  (rest = [] /\ s = a)
  \/ exists s', s = String.append a (String sep s') /\ rest = split sep s'.
Proof.
  revert a rest. induction s as [|c s IH]; intros a rest; simpl.
  - intros [= <- <-]. now left.
  - destruct (Ascii.eqb c sep) eqn:E.
    + apply Ascii.eqb_eq in E. subst c. intros [= <- <-].
      right. now exists s.
    + destruct (split sep s) as [|piece pieces] eqn:Es.
      * now apply split_nonempty in Es.
      * intros [= <- <-].
        destruct (IH piece pieces eq_refl) as [[-> ->] | (s' & -> & ->)].
        -- now left.
        -- right. now exists s'.
Qed.

(** Which decoded credentials the comparison accepts: the text
    [calvin:calvin123], alone or followed by a colon and anything. *)
Lemma credentials_accepted (decoded : string) :
  (exists rest, split ":" decoded = "calvin"%string :: "calvin123"%string :: rest)
  <-> decoded = "calvin:calvin123"%string
      \/ exists extra,
           decoded = String.append "calvin:calvin123:" extra.
Proof.
  split.
  - intros (rest & H).
    apply split_cons_inv in H as [[H _] | (s1 & -> & H)]; [discriminate|].
    symmetry in H.
    apply split_cons_inv in H as [[_ ->] | (s2 & -> & _)].
    + now left.
    + right. now exists s2.
  - intros [-> | (extra & ->)].
    + now exists [].
    + exists (split ":" extra). reflexivity.
Qed.

Lemma atob_undefined : atob "undefined" = None.
Proof. reflexivity. Qed.

Example atob_values :
  atob "Y2FsdmluOmNhbHZpbjEyMw==" = Some "calvin:calvin123"%string
  /\ atob "Y2FsdmluOmNhbHZpbjEyMw" = Some "calvin:calvin123"%string
  /\ atob "YWI=" = Some "ab"%string
  /\ atob " Y W J j " = Some "abc"%string
  /\ atob "" = Some ""%string
  /\ atob "YQ=" = None
  /\ atob "Y" = None
  /\ atob "Y2Fs*mlu" = None.
Proof. repeat split. Qed.

Example middleware_values :
  let request header := Request.mk header (Url.mk "/details/farm" "?v=1") in
  let rewritten := Ok (Rewrite (Url.mk "/api/auth" "?v=1")) in
  middleware (request (Some "Basic Y2FsdmluOmNhbHZpbjEyMw=="%string)) = Ok Next
  /\ middleware (request (Some "Basic Y2FsdmluOndyb25n"%string)) = rewritten
  /\ middleware (request (Some "Basic "%string)) = rewritten
  /\ middleware (request (Some "Basic"%string)) = Throw
  /\ middleware (request (Some "Basic Y2Fs*mlu"%string)) = Throw
  /\ middleware (request (Some ""%string)) = rewritten
  /\ middleware (request None) = rewritten.
Proof. repeat split. Qed.


Lemma middleware_with_header (request : Request.t) (header : string) :
  Request.authorization request = Some header -> header <> ""%string ->
  middleware request
  = match atob (to_DOMString (nth_error (split " " header) 1)) with
    | Some decoded =>
        if strict_eq (nth_error (split ":" decoded) 0) "calvin"
           && strict_eq (nth_error (split ":" decoded) 1) "calvin123"
        then Ok Next
        else Ok (Rewrite (Url.mk "/api/auth"
                            (Url.search (Request.nextUrl request))))
    | None => Throw
    end.
Proof.
  intros H Hne. unfold middleware. rewrite H. unfold truthy_str.
  apply String.eqb_neq in Hne. rewrite Hne. reflexivity.
Qed.

Lemma middleware_without_header (request : Request.t) :
  Request.authorization request = None
  \/ Request.authorization request = Some ""%string ->
  middleware request
  = Ok (Rewrite (Url.mk "/api/auth" (Url.search (Request.nextUrl request)))).
Proof. intros [H | H]; unfold middleware; rewrite H; reflexivity. Qed.

(** C10, counterexample.  The header [Basic Y2FsdmluOmNhbHZpbjEyMzp4]
    carries the base64 text of [calvin:calvin123:x]: the request passes,
    although its token does not decode to [calvin:calvin123].  The header
    with two spaces after [Basic] has the right second token between
    whitespace, and is rewritten: [split(' ')[1]] is the empty string. *)
Lemma middleware_pass_is_not_as_claimed :
  let extra := Request.mk (Some "Basic Y2FsdmluOmNhbHZpbjEyMzp4"%string)
                 (Url.mk "/" "") in
  let spaced := Request.mk (Some "Basic  Y2FsdmluOmNhbHZpbjEyMw=="%string)
                  (Url.mk "/" "") in
  (middleware extra = Ok Next /\ ~ claimed_pass extra)
  /\ (claimed_pass spaced /\ middleware spaced <> Ok Next)
  /\ ~ (forall request, middleware request = Ok Next <-> claimed_pass request).
Proof.
  intros extra spaced.
  assert (H1 : middleware extra = Ok Next /\ ~ claimed_pass extra).
  { split; [reflexivity|].
    intros (header & token & Hh & Ht & Ha).
    injection Hh as <-. vm_compute in Ht. injection Ht as <-.
    vm_compute in Ha. discriminate. }
  split; [exact H1|]. split.
  - split; [|vm_compute; discriminate].
    eexists _, _. split; [reflexivity|]. split; reflexivity.
  - intros H. destruct H1 as [Hp Hn]. apply Hn, H, Hp.
Qed.

(** C10, amended.  A request passes through exactly when its Authorization
    header is non-empty and the piece after the first single space of the
    header ([split(' ')[1]]) base64-decodes to [calvin:calvin123], alone or
    followed by a colon and any text.  The middleware throws exactly when
    the header is non-empty and that piece is missing (the header has no
    space) or does not decode.  Every other request, among them those with
    no or an empty Authorization header, is rewritten to /api/auth. *)
Theorem middleware_spec (request : Request.t) :
  let pass :=
    exists header token decoded,
      Request.authorization request = Some header /\ header <> ""%string /\
      nth_error (split " " header) 1 = Some token /\
      atob token = Some decoded /\
      (decoded = "calvin:calvin123"%string \/
       exists extra, decoded = String.append "calvin:calvin123:" extra) in
  let throws :=
    exists header,
      Request.authorization request = Some header /\ header <> ""%string /\
      (nth_error (split " " header) 1 = None \/
       exists token, nth_error (split " " header) 1 = Some token /\
                     atob token = None) in
  let rewritten :=
    Ok (Rewrite (Url.mk "/api/auth" (Url.search (Request.nextUrl request)))) in
  (middleware request = Ok Next <-> pass)
  /\ (middleware request = Throw <-> throws)
  /\ (middleware request = rewritten <-> ~ pass /\ ~ throws)
  /\ (Request.authorization request = None
       \/ Request.authorization request = Some ""%string ->
      middleware request = rewritten).
Proof.
  intros pass throws rewritten.
  assert (Hcases :
    (middleware request = Ok Next /\ pass /\ ~ throws)
    \/ (middleware request = Throw /\ throws /\ ~ pass)
    \/ (middleware request = rewritten /\ ~ pass /\ ~ throws)).
  { destruct (Request.authorization request) as [header|] eqn:Eh.
    2:{ right. right. split; [now apply middleware_without_header; left|].
        split; [intros (? & ? & ? & [=] & _) | intros (? & [=] & _)]. }
    destruct (String.eqb header "") eqn:Ee.
    { apply String.eqb_eq in Ee. subst header.
      right. right. split; [now apply middleware_without_header; right|].
      split; [intros (? & ? & ? & [= <-] & Hne & _) | intros (? & [= <-] & Hne & _)];
        now apply Hne. }
    apply String.eqb_neq in Ee.
    rewrite (middleware_with_header request header Eh Ee). fold rewritten.
    destruct (nth_error (split " " header) 1) as [token|] eqn:Et.
    2:{ unfold to_DOMString. rewrite atob_undefined.
        right. left. split; [reflexivity|]. split.
        - exists header. split; [reflexivity|]. split; [exact Ee|]. now left.
        - intros (h & t & d & [= <-] & _ & Ht & _). congruence. }
    unfold to_DOMString.
    destruct (atob token) as [decoded|] eqn:Ea.
    2:{ right. left. split; [reflexivity|]. split.
        - exists header. split; [reflexivity|]. split; [exact Ee|].
          right. now exists token.
        - intros (h & t & d & [= <-] & _ & Ht & Hd & _). congruence. }
    assert (Hnothrow : ~ throws).
    { intros (h & [= <-] & _ & [Hn | (t & Ht & Hd)]); congruence. }
    destruct (strict_eq (nth_error (split ":" decoded) 0) "calvin"
              && strict_eq (nth_error (split ":" decoded) 1) "calvin123")
      eqn:Ec.
    - left. split; [reflexivity|]. split; [|exact Hnothrow].
      exists header, token, decoded.
      repeat (split; [first [reflexivity | assumption]|]).
      apply credentials_accepted.
      apply andb_true_iff in Ec as [Eu Ep].
      destruct (split ":" decoded) as [|u [|p rest]]; simpl in Eu, Ep;
        try discriminate.
      apply String.eqb_eq in Eu, Ep. subst. now exists rest.
    - right. right. split; [reflexivity|]. split; [|exact Hnothrow].
      intros (h & t & d & [= <-] & _ & Ht & Hd & Hcred).
      rewrite Et in Ht. injection Ht as <-.
      rewrite Ea in Hd. injection Hd as <-.
      apply credentials_accepted in Hcred as (rest & Hs).
      rewrite Hs in Ec. simpl in Ec. discriminate. }
  assert (Hne1 : Ok Next <> @Throw Response) by discriminate.
  assert (Hne2 : Ok Next <> rewritten) by discriminate.
  assert (Hne3 : @Throw Response <> rewritten) by discriminate.
  split; [|split; [|split]].
  - destruct Hcases as [(E & Hp & _) | [(E & _ & Hn) | (E & Hn & _)]];
      rewrite E; split; intros H; try assumption; try reflexivity;
      try contradiction; try congruence.
  - destruct Hcases as [(E & _ & Hn) | [(E & Ht & _) | (E & _ & Hn)]];
      rewrite E; split; intros H; try assumption; try reflexivity;
      try contradiction; try congruence.
  - destruct Hcases as [(E & Hp & _) | [(E & Ht & _) | (E & Hp & Ht)]];
      rewrite E; split; intros H; try assumption; try reflexivity;
      try tauto; try congruence.
  - apply middleware_without_header.
Qed.

(** * Further properties *)

(** ** The reversed route *)

Lemma seg_point_reverse (s : Segment) (t : Q) :
  fst (seg_point (seg_reverse s) t) == fst (seg_point s (1 - t))
  /\ snd (seg_point (seg_reverse s) t) == snd (seg_point s (1 - t)).
Proof.
  destruct s as [p0 p1 | p0 c p1 | p0 c1 c2 p1]; simpl; unfold lerp;
    split; ring.
Qed.

Lemma seg_reverse_involutive (s : Segment) : seg_reverse (seg_reverse s) = s.
Proof. now destruct s. Qed.

(** Paths whose pieces are each other's reversals, in reverse order, pass
    through the same points. *)
Lemma on_path_reversed (p q : Path) :
  segments q = map seg_reverse (rev (segments p)) ->
  forall pt, on_path q pt <-> on_path p pt.
Proof.
  intros Hq pt.
  assert (Hhalf : forall (a b : list Segment),
             b = map seg_reverse (rev a) ->
             forall s t, In s b -> 0 <= t -> t <= 1 ->
               exists s' t', In s' a /\ 0 <= t' /\ t' <= 1 /\
                 fst (seg_point s t) == fst (seg_point s' t') /\
                 snd (seg_point s t) == snd (seg_point s' t')).
  { intros a b -> s t Hin H0 H1.
    apply in_map_iff in Hin as (s' & <- & Hin'). apply in_rev in Hin'.
    exists s', (1 - t). split; [exact Hin'|].
    split; [lra|]. split; [lra|]. apply seg_point_reverse. }
  assert (Hp : segments p = map seg_reverse (rev (segments q))).
  { rewrite Hq, <- map_rev, rev_involutive, map_map.
    rewrite <- (map_id (segments p)) at 1.
    apply map_ext. intros s. now rewrite seg_reverse_involutive. }
  unfold on_path. split; intros (s & t & Hin & H0 & H1 & Hx & Hy).
  - destruct (Hhalf _ _ Hq s t Hin H0 H1) as (s' & t' & Hin' & H0' & H1' & Ex & Ey).
    exists s', t'. repeat (split; [assumption|]).
    split; [now rewrite Hx|now rewrite Hy].
  - destruct (Hhalf _ _ Hp s t Hin H0 H1) as (s' & t' & Hin' & H0' & H1' & Ex & Ey).
    exists s', t'. repeat (split; [assumption|]).
    split; [now rewrite Hx|now rewrite Hy].
Qed.

(** X1.  For a loop-back link the path made for the label text (reverse =
    true) is the primary path drawn backwards: it starts at the target's
    left anchor, ends at the source's right anchor, its pieces are the
    reversed pieces of the primary path in reverse order, and it passes
    through exactly the same points.  This holds for the generator of
    part_006 and for the one of part_005. *)
Theorem reverse_path_is_reversal (nm : gmap string DiagramNode.t)
    (link : DiagramLink.t) (linkIndex : nat)
    (sourceNode targetNode : DiagramNode.t) :
  nm !! DiagramLink.source link = Some sourceNode ->
  nm !! DiagramLink.target link = Some targetNode ->
  DiagramNode.x targetNode
    < DiagramNode.x sourceNode + DiagramNode.width sourceNode ->
  forall forward backward,
    (forward = generateLinkPath nm link linkIndex false /\
     backward = generateLinkPath nm link linkIndex true) \/
    (forward = Earlier.generateLinkPath nm link linkIndex false /\
     backward = Earlier.generateLinkPath nm link linkIndex true) ->
    path_start backward = path_end forward
    /\ path_end backward = path_start forward
    /\ path_start backward
       = Some (DiagramNode.x targetNode,
               DiagramNode.y targetNode + DiagramNode.height targetNode / 2)
    /\ segments backward = map seg_reverse (rev (segments forward))
    /\ forall pt, on_path backward pt <-> on_path forward pt.
Proof.
  intros Hs Ht Hlt forward backward Hfb.
  assert (Hb : Qltb (anchor_tx targetNode) (anchor_sx sourceNode) = true)
    by now apply Qltb_lt.
  assert (Hseg : segments backward = map seg_reverse (rev (segments forward))
                 /\ path_start backward = path_end forward
                 /\ path_end backward = path_start forward
                 /\ path_start backward
                    = Some (anchor_tx targetNode, anchor_ty targetNode)).
  { destruct Hfb as [[-> ->] | [-> ->]].
    - rewrite !(generateLinkPath_resolved _ _ _ _ _ _ Hs Ht). cbv zeta.
      rewrite Hb. repeat split.
    - unfold Earlier.generateLinkPath. rewrite Hs, Ht. cbv zeta.
      rewrite Hb. repeat split. }
  destruct Hseg as (Hseg & H1 & H2 & H3).
  repeat (split; [assumption|]).
  now apply on_path_reversed.
Qed.

Lemma reverse_path_is_reversal_witness :
  let forward := generateLinkPath Sample.nm Sample.AB 1 false in
  let backward := generateLinkPath Sample.nm Sample.AB 1 true in
  path_start backward = path_end forward
  /\ path_end backward = path_start forward
  /\ path_start backward = Some (40, 150 + 100 / 2)
  /\ segments backward = map seg_reverse (rev (segments forward))
  /\ forall pt, on_path backward pt <-> on_path forward pt.
Proof.
  intros forward backward.
  apply (reverse_path_is_reversal Sample.nm Sample.AB 1 Sample.A Sample.B);
    [reflexivity | reflexivity | reflexivity | left; split; reflexivity].
Defined.

(** ** The box a route stays in *)

Lemma seg_point_x_upper (s : Segment) (m t : Q) :
  0 <= t -> t <= 1 ->
  Forall (fun x => x <= m) (seg_xs s) ->
  fst (seg_point s t) <= m.
Proof.
  intros H0 H1 Hxs.
  destruct s as [p0 p1 | p0 c p1 | p0 c1 c2 p1]; simpl in *;
    repeat match goal with
           | H : Forall _ (_ :: _) |- _ => inversion H; subst; clear H
           end;
    repeat apply lerp_upper; assumption.
Qed.

Lemma seg_point_y_lower (s : Segment) (m t : Q) :
  0 <= t -> t <= 1 ->
  Forall (fun y => m <= y) (seg_ys s) ->
  m <= snd (seg_point s t).
Proof.
  intros H0 H1 Hys.
  destruct s as [p0 p1 | p0 c p1 | p0 c1 c2 p1]; simpl in *;
    repeat match goal with
           | H : Forall _ (_ :: _) |- _ => inversion H; subst; clear H
           end;
    repeat apply lerp_lower; assumption.
Qed.

Lemma seg_point_y_upper (s : Segment) (m t : Q) :
  0 <= t -> t <= 1 ->
  Forall (fun y => y <= m) (seg_ys s) ->
  snd (seg_point s t) <= m.
Proof.
  intros H0 H1 Hys.
  destruct s as [p0 p1 | p0 c p1 | p0 c1 c2 p1]; simpl in *;
    repeat match goal with
           | H : Forall _ (_ :: _) |- _ => inversion H; subst; clear H
           end;
    repeat apply lerp_upper; assumption.
Qed.

(** A path stays in any box that holds the end and control points of all
    its pieces. *)
Lemma on_path_in_box (p : Path) (xlo xhi ylo yhi : Q) :
  Forall (fun s =>
            Forall (fun x => xlo <= x /\ x <= xhi) (seg_xs s)
            /\ Forall (fun y => ylo <= y /\ y <= yhi) (seg_ys s))
         (segments p) ->
  forall pt, on_path p pt ->
    xlo <= fst pt /\ fst pt <= xhi /\ ylo <= snd pt /\ snd pt <= yhi.
Proof.
  intros Hall pt (s & t & Hin & H0 & H1 & Hx & Hy).
  rewrite List.Forall_forall in Hall. destruct (Hall s Hin) as [Hxs Hys].
  rewrite Hx, Hy.
  split; [|split; [|split]].
  - apply seg_point_x_lower; try assumption.
    eapply List.Forall_impl; [|exact Hxs]. now intros a [? ?].
  - apply seg_point_x_upper; try assumption.
    eapply List.Forall_impl; [|exact Hxs]. now intros a [? ?].
  - apply seg_point_y_lower; try assumption.
    eapply List.Forall_impl; [|exact Hys]. now intros a [? ?].
  - apply seg_point_y_upper; try assumption.
    eapply List.Forall_impl; [|exact Hys]. now intros a [? ?].
Qed.

(** The loop-back route of part_006 with its curve directions, in a box. *)
Lemma loopPath_in_box (sx sy tx ty lY ylo yhi : Q) :
  tx < sx ->
  sy + 20 <= lY \/ lY + 20 <= sy ->
  ty + 20 <= lY \/ lY + 20 <= ty ->
  ylo <= sy -> ylo <= ty -> ylo <= lY ->
  sy <= yhi -> ty <= yhi -> lY <= yhi ->
  forall pt,
    on_path (loopPath sx sy tx ty lY
               (if Qltb sy lY then 1 else -1)
               (if Qltb ty lY then -1 else 1)) pt ->
    tx - 50 <= fst pt /\ fst pt <= sx + 50
    /\ ylo <= snd pt /\ snd pt <= yhi.
Proof.
  intros Hlt Hs Ht L1 L2 L3 U1 U2 U3.
  apply on_path_in_box.
  assert (Hsd : (Qltb sy lY = true /\ sy + 20 <= lY)
                \/ (Qltb sy lY = false /\ lY + 20 <= sy)).
  { destruct Hs; [left | right]; split; try assumption.
    - apply Qltb_lt. lra.
    - apply Qltb_ge. lra. }
  assert (Htd : (Qltb ty lY = true /\ ty + 20 <= lY)
                \/ (Qltb ty lY = false /\ lY + 20 <= ty)).
  { destruct Ht; [left | right]; split; try assumption.
    - apply Qltb_lt. lra.
    - apply Qltb_ge. lra. }
  destruct Hsd as [[-> Hsd] | [-> Hsd]]; destruct Htd as [[-> Htd] | [-> Htd]];
    unfold segments, loopPath, gap; simpl;
    repeat constructor; simpl; lra.
Qed.

Lemma loopPath_earlier_in_box (sx sy tx ty lY ylo yhi : Q) :
  tx < sx ->
  (sy + 20 <= lY /\ ty + 20 <= lY) \/ (lY + 20 <= sy /\ lY + 20 <= ty) ->
  ylo <= sy -> ylo <= ty -> ylo <= lY ->
  sy <= yhi -> ty <= yhi -> lY <= yhi ->
  forall pt,
    on_path (Earlier.loopPath sx sy tx ty lY
               (if Qltb lY (Qmin sy ty) then -1 else 1)) pt ->
    tx - 50 <= fst pt /\ fst pt <= sx + 50
    /\ ylo <= snd pt /\ snd pt <= yhi.
Proof.
  intros Hlt Hc L1 L2 L3 U1 U2 U3.
  apply on_path_in_box.
  pose proof (Q.le_min_l sy ty) as Hm1. pose proof (Q.le_min_r sy ty) as Hm2.
  assert (Hmin : Qmin sy ty == sy \/ Qmin sy ty == ty).
  { destruct (Q.min_spec sy ty) as [[_ H] | [_ H]]; auto. }
  assert (Hcd : (Qltb lY (Qmin sy ty) = false /\ sy + 20 <= lY /\ ty + 20 <= lY)
                \/ (Qltb lY (Qmin sy ty) = true /\ lY + 20 <= sy /\ lY + 20 <= ty)).
  { destruct Hc as [[H1 H2] | [H1 H2]]; [left | right];
      (split; [|split; assumption]).
    - apply Qltb_ge. lra.
    - apply Qltb_lt. destruct Hmin as [-> | ->]; lra. }
  destruct Hcd as [(-> & H1 & H2) | (-> & H1 & H2)];
    unfold segments, Earlier.loopPath, gap; simpl;
    repeat constructor; simpl; lra.
Qed.

(** X2.  A loop-back link without returnY is routed below both anchors:
    every point of its path lies between 50 to the left of the target's
    left edge and 50 to the right of the source's right edge, and between
    the higher of the two anchors and the loop height max(sy, ty) + 100 +
    60 * index.  This holds for the generator of part_006 and for the one
    of part_005. *)
Theorem fallback_loop_box (nm : gmap string DiagramNode.t)
    (link : DiagramLink.t) (linkIndex : nat)
    (sourceNode targetNode : DiagramNode.t) :
  nm !! DiagramLink.source link = Some sourceNode ->
  nm !! DiagramLink.target link = Some targetNode ->
  DiagramNode.x targetNode
    < DiagramNode.x sourceNode + DiagramNode.width sourceNode ->
  DiagramLink.returnY link = None ->
  let sx := DiagramNode.x sourceNode + DiagramNode.width sourceNode in
  let sy := DiagramNode.y sourceNode + DiagramNode.height sourceNode / 2 in
  let tx := DiagramNode.x targetNode in
  let ty := DiagramNode.y targetNode + DiagramNode.height targetNode / 2 in
  forall p pt,
    p = generateLinkPath nm link linkIndex false \/
    p = Earlier.generateLinkPath nm link linkIndex false ->
    on_path p pt ->
    tx - 50 <= fst pt /\ fst pt <= sx + 50
    /\ Qmin sy ty <= snd pt
    /\ snd pt <= Qmax sy ty + 100 + inject_Z (Z.of_nat linkIndex) * 60.
Proof.
  intros Hs Ht Hlt Hret sx sy tx ty p pt Hp Hon.
  assert (Hb : Qltb (anchor_tx targetNode) (anchor_sx sourceNode) = true)
    by now apply Qltb_lt.
  pose proof (stagger_nonneg linkIndex) as Hst. unfold stagger in Hst.
  pose proof (Q.le_max_l sy ty) as M1. pose proof (Q.le_max_r sy ty) as M2.
  pose proof (Q.le_min_l sy ty) as m1. pose proof (Q.le_min_r sy ty) as m2.
  destruct Hp as [-> | ->].
  - rewrite (generateLinkPath_resolved _ _ _ _ _ _ Hs Ht) in Hon.
    cbv zeta in Hon. rewrite Hb, Hret in Hon.
    unfold loopY, stagger, anchor_sx, anchor_sy, anchor_tx, anchor_ty in Hon.
    fold sx sy tx ty in Hon.
    revert Hon. apply loopPath_in_box; try assumption; try lra.
  - unfold Earlier.generateLinkPath in Hon. rewrite Hs, Ht in Hon.
    cbv zeta in Hon. rewrite Hb, Hret in Hon.
    unfold loopY, stagger, anchor_sx, anchor_sy, anchor_tx, anchor_ty in Hon.
    fold sx sy tx ty in Hon.
    revert Hon. apply loopPath_earlier_in_box; try assumption; try lra.
Qed.

Lemma fallback_loop_box_witness :
  DiagramLink.returnY Sample.AB = None
  /\ forall pt,
       on_path (generateLinkPath Sample.nm Sample.AB 1 false) pt ->
       40 - 50 <= fst pt /\ fst pt <= 0 + 100 + 50
       /\ Qmin (0 + 100 / 2) (150 + 100 / 2) <= snd pt
       /\ snd pt <= Qmax (0 + 100 / 2) (150 + 100 / 2) + 100
                    + inject_Z (Z.of_nat 1) * 60.
Proof.
  split; [reflexivity|]. intros pt.
  apply (fallback_loop_box Sample.nm Sample.AB 1 Sample.A Sample.B);
    [reflexivity | reflexivity | reflexivity | reflexivity | left; reflexivity].
Defined.

(** X3.  With an explicit returnY that clears both anchors by at least 20
    (the corner radius), above or below each of them, the loop-back route
    of part_006 stays between 50 left of the target's left edge and 50
    right of the source's right edge, and between the lowest and the
    highest of the two anchors and the loop height: the corners turn
    towards the loop on the source side and towards the target on the
    target side. *)
Theorem custom_loop_box (nm : gmap string DiagramNode.t)
    (link : DiagramLink.t) (linkIndex : nat)
    (sourceNode targetNode : DiagramNode.t) (returnY : Q) :
  nm !! DiagramLink.source link = Some sourceNode ->
  nm !! DiagramLink.target link = Some targetNode ->
  DiagramNode.x targetNode
    < DiagramNode.x sourceNode + DiagramNode.width sourceNode ->
  DiagramLink.returnY link = Some returnY ->
  let sx := DiagramNode.x sourceNode + DiagramNode.width sourceNode in
  let sy := DiagramNode.y sourceNode + DiagramNode.height sourceNode / 2 in
  let tx := DiagramNode.x targetNode in
  let ty := DiagramNode.y targetNode + DiagramNode.height targetNode / 2 in
  sy + 20 <= returnY \/ returnY + 20 <= sy ->
  ty + 20 <= returnY \/ returnY + 20 <= ty ->
  forall pt,
    on_path (generateLinkPath nm link linkIndex false) pt ->
    tx - 50 <= fst pt /\ fst pt <= sx + 50
    /\ Qmin (Qmin sy ty) returnY <= snd pt
    /\ snd pt <= Qmax (Qmax sy ty) returnY.
Proof.
  intros Hs Ht Hlt Hret sx sy tx ty C1 C2 pt Hon.
  assert (Hb : Qltb (anchor_tx targetNode) (anchor_sx sourceNode) = true)
    by now apply Qltb_lt.
  pose proof (Q.le_max_l (Qmax sy ty) returnY) as M0.
  pose proof (Q.le_max_r (Qmax sy ty) returnY) as M3.
  pose proof (Q.le_max_l sy ty) as M1. pose proof (Q.le_max_r sy ty) as M2.
  pose proof (Q.le_min_l (Qmin sy ty) returnY) as m0.
  pose proof (Q.le_min_r (Qmin sy ty) returnY) as m3.
  pose proof (Q.le_min_l sy ty) as m1. pose proof (Q.le_min_r sy ty) as m2.
  rewrite (generateLinkPath_resolved _ _ _ _ _ _ Hs Ht) in Hon.
  cbv zeta in Hon. rewrite Hb, Hret in Hon.
  unfold loopY, anchor_sx, anchor_sy, anchor_tx, anchor_ty in Hon.
  fold sx sy tx ty in Hon.
  revert Hon. apply loopPath_in_box; try assumption; try lra.
Qed.

Lemma custom_loop_box_witness :
  (10 + 20 <= 0 + 100 / 2 /\ 10 + 20 <= 150 + 100 / 2)
  /\ forall pt,
       on_path (generateLinkPath Sample.nm (Sample.link "up" "A" "B" (Some 10))
                  0 false) pt ->
       40 - 50 <= fst pt /\ fst pt <= 0 + 100 + 50
       /\ Qmin (Qmin (0 + 100 / 2) (150 + 100 / 2)) 10 <= snd pt
       /\ snd pt <= Qmax (Qmax (0 + 100 / 2) (150 + 100 / 2)) 10.
Proof.
  split; [split; vm_compute; discriminate|]. intros pt.
  apply (custom_loop_box Sample.nm (Sample.link "up" "A" "B" (Some 10)) 0
           Sample.A Sample.B 10);
    [reflexivity | reflexivity | reflexivity | reflexivity
    | right; vm_compute; discriminate | right; vm_compute; discriminate].
Defined.

(** X4.  A forward link is drawn inside the rectangle spanned by its two
    anchors: every point of the cubic has its x between the source's right
    edge and the target's left edge and its y between the two anchor
    heights.  Both generators draw the same curve. *)
Theorem forward_curve_box (nm : gmap string DiagramNode.t)
    (link : DiagramLink.t) (linkIndex : nat)
    (sourceNode targetNode : DiagramNode.t) :
  nm !! DiagramLink.source link = Some sourceNode ->
  nm !! DiagramLink.target link = Some targetNode ->
  DiagramNode.x sourceNode + DiagramNode.width sourceNode
    <= DiagramNode.x targetNode ->
  let sx := DiagramNode.x sourceNode + DiagramNode.width sourceNode in
  let sy := DiagramNode.y sourceNode + DiagramNode.height sourceNode / 2 in
  let tx := DiagramNode.x targetNode in
  let ty := DiagramNode.y targetNode + DiagramNode.height targetNode / 2 in
  Earlier.generateLinkPath nm link linkIndex false
  = generateLinkPath nm link linkIndex false
  /\ forall pt,
       on_path (generateLinkPath nm link linkIndex false) pt ->
       sx <= fst pt /\ fst pt <= tx
       /\ Qmin sy ty <= snd pt /\ snd pt <= Qmax sy ty.
Proof.
  intros Hs Ht Hle sx sy tx ty.
  assert (Hb : Qltb (anchor_tx targetNode) (anchor_sx sourceNode) = false)
    by now apply Qltb_ge.
  split.
  - rewrite (generateLinkPath_resolved _ _ _ _ _ _ Hs Ht).
    unfold Earlier.generateLinkPath. rewrite Hs, Ht. cbv zeta.
    now rewrite Hb.
  - rewrite (generateLinkPath_resolved _ _ _ _ _ _ Hs Ht). cbv zeta.
    rewrite Hb. unfold anchor_sx, anchor_sy, anchor_tx, anchor_ty.
    fold sx sy tx ty.
    pose proof (Q.le_max_l sy ty) as M1. pose proof (Q.le_max_r sy ty) as M2.
    pose proof (Q.le_min_l sy ty) as m1. pose proof (Q.le_min_r sy ty) as m2.
    change (sx <= tx) in Hle. clearbody sx sy tx ty.
    apply on_path_in_box. unfold segments, forwardPath. simpl.
    assert (Hmid1 : sx <= (sx + tx) / 2) by (apply Qle_shift_div_l; lra).
    assert (Hmid2 : (sx + tx) / 2 <= tx) by (apply Qle_shift_div_r; lra).
    repeat constructor; simpl; lra.
Qed.

Lemma forward_curve_box_witness :
  Earlier.generateLinkPath Sample.nm Sample.AD 0 false
  = generateLinkPath Sample.nm Sample.AD 0 false
  /\ forall pt,
       on_path (generateLinkPath Sample.nm Sample.AD 0 false) pt ->
       0 + 100 <= fst pt /\ fst pt <= 300
       /\ Qmin (0 + 100 / 2) (100 + 100 / 2) <= snd pt
       /\ snd pt <= Qmax (0 + 100 / 2) (100 + 100 / 2).
Proof.
  apply (forward_curve_box Sample.nm Sample.AD 0 Sample.A Sample.D);
    [reflexivity | reflexivity | vm_compute; discriminate].
Defined.

(** ** The two versions of the generator *)

(** X5.  The generator of part_005 and the one of part_006 spell the same
    path, primary and reversed, whenever the loop height lies strictly
    below both anchors (as the fallback height always does) or strictly
    above both; they can differ only when the loop height lies between the
    anchors or level with one of them. *)
Theorem generators_agree (nm : gmap string DiagramNode.t)
    (link : DiagramLink.t) (linkIndex : nat) (reverse : bool)
    (sourceNode targetNode : DiagramNode.t) :
  nm !! DiagramLink.source link = Some sourceNode ->
  nm !! DiagramLink.target link = Some targetNode ->
  let sy := DiagramNode.y sourceNode + DiagramNode.height sourceNode / 2 in
  let ty := DiagramNode.y targetNode + DiagramNode.height targetNode / 2 in
  let lY := loopY (DiagramLink.returnY link) linkIndex sy ty in
  Qmax sy ty < lY \/ lY < Qmin sy ty ->
  path_eq (Earlier.generateLinkPath nm link linkIndex reverse)
          (generateLinkPath nm link linkIndex reverse).
Proof.
  intros Hs Ht sy ty lY Hout.
  rewrite (generateLinkPath_resolved _ _ _ _ _ _ Hs Ht).
  unfold Earlier.generateLinkPath. rewrite Hs, Ht. cbv zeta.
  unfold anchor_sy, anchor_ty. fold sy ty. fold lY.
  pose proof (Q.le_max_l sy ty) as M1. pose proof (Q.le_max_r sy ty) as M2.
  pose proof (Q.le_min_l sy ty) as m1. pose proof (Q.le_min_r sy ty) as m2.
  clearbody lY. clearbody sy ty.
  destruct (Qltb (anchor_tx targetNode) (anchor_sx sourceNode)).
  2:{ unfold forwardPath. repeat constructor; reflexivity. }
  assert (Hd : (Qltb lY (Qmin sy ty) = false /\ Qltb sy lY = true
                /\ Qltb ty lY = true)
               \/ (Qltb lY (Qmin sy ty) = true /\ Qltb sy lY = false
                   /\ Qltb ty lY = false)).
  { destruct Hout as [H | H]; [left | right]; repeat split;
      first [apply Qltb_lt; lra | apply Qltb_ge; lra]. }
  destruct Hd as [(-> & -> & ->) | (-> & -> & ->)]; destruct reverse;
    unfold Earlier.loopPath, Earlier.loopPathReverse, loopPath,
      loopPathReverse;
    repeat constructor; simpl; ring.
Qed.

Lemma generators_agree_witness :
  path_eq (Earlier.generateLinkPath Sample.nm Sample.AB 2 true)
          (generateLinkPath Sample.nm Sample.AB 2 true).
Proof.
  apply (generators_agree Sample.nm Sample.AB 2 true Sample.A Sample.B);
    [reflexivity | reflexivity | left; vm_compute; reflexivity].
Defined.

(** ** The link index *)



(** ** The passes of the render, taken apart *)

Lemma forEach_app_inv {A B : Type} (body : A -> nat -> outcome (list B))
    (l1 l2 : list A) (index : nat) (out : list B) :
  forEach body (l1 ++ l2) index = Ok out ->
  exists o1 o2,
    forEach body l1 index = Ok o1
    /\ forEach body l2 (index + List.length l1) = Ok o2
    /\ out = o1 ++ o2.
Proof.
  revert index out. induction l1 as [|a l1 IH]; intros index out; simpl.
  - intros H. exists [], out. rewrite Nat.add_0_r. now repeat split.
  - destruct (body a index) as [here|]; [|discriminate].
    destruct (forEach body (l1 ++ l2) (S index)) as [there|] eqn:E;
      [|discriminate].
    intros [= <-].
    destruct (IH _ _ E) as (o1 & o2 & -> & H2 & ->).
    exists (here ++ o1), o2. rewrite <- Nat.add_succ_comm.
    split; [reflexivity|]. split; [exact H2|]. now rewrite app_assoc.
Qed.

(** What the body appends for the item at a position is in the result. *)
Lemma forEach_at {A B : Type} (body : A -> nat -> outcome (list B))
    (before after : list A) (item : A) (out : list B) :
  forEach body (before ++ item :: after) 0 = Ok out ->
  exists here,
    body item (List.length before) = Ok here /\ incl here out.
Proof.
  intros H.
  apply forEach_app_inv in H as (o1 & o2 & _ & H2 & ->).
  simpl in H2.
  destruct (body item (List.length before)) as [here|]; [|discriminate].
  destruct (forEach body after (S (List.length before))) as [there|];
    [|discriminate].
  injection H2 as <-. exists here. split; [reflexivity|].
  intros b Hb. apply in_or_app. right. apply in_or_app. now left.
Qed.

(** Everything in the result was appended by the body for some item, at
    the position of that item. *)
Lemma forEach_from {A B : Type} (body : A -> nat -> outcome (list B))
    (arr : list A) (index : nat) (out : list B) (b : B) :
  forEach body arr index = Ok out ->
  In b out ->
  exists k item here,
    nth_error arr k = Some item
    /\ body item (index + k)%nat = Ok here /\ In b here.
Proof.
  revert index out. induction arr as [|a arr IH]; intros index out; simpl.
  - intros [= <-] [].
  - destruct (body a index) as [here|] eqn:E1; [|discriminate].
    destruct (forEach body arr (S index)) as [there|] eqn:E2; [|discriminate].
    intros [= <-] Hin. apply in_app_or in Hin as [Hin | Hin].
    + exists 0%nat, a, here. rewrite Nat.add_0_r. now repeat split.
    + destruct (IH _ _ E2 Hin) as (k & item & here' & Hk & Hb & Hin').
      exists (S k), item, here'. rewrite <- Nat.add_succ_comm.
      now repeat split.
Qed.

Lemma render_parts (diagramData : DiagramData.t) (width height : Q)
    (instanceId : string) (animateTransition : bool)
    (highlightedNode : option string) (bbox : option BBox.t)
    (scene : Scene.t) :
  render diagramData width height instanceId animateTransition
    highlightedNode bbox = Ok scene ->
  forEach (fun link index =>
             Ok (defsOfLink (nodeMap (DiagramData.nodes diagramData))
                   instanceId link index))
    (DiagramData.links diagramData) 0 = Ok (Scene.defs scene)
  /\ forEach (drawLink (nodeMap (DiagramData.nodes diagramData))
                (shouldAnimate animateTransition diagramData)
                highlightedNode instanceId)
       (DiagramData.links diagramData) 0 = Ok (Scene.linkGroups scene)
  /\ forEach (drawNode (shouldAnimate animateTransition diagramData)
                highlightedNode (DiagramData.links diagramData))
       (DiagramData.nodes diagramData) 0 = Ok (Scene.nodeGroups scene)
  /\ Scene.fit scene = viewportFit width height bbox
  /\ Scene.particles scene
     = match viewportFit width height bbox with
       | Some _ => particlesOf (Scene.linkGroups scene)
       | None => []
       end.
Proof.
  unfold render.
  destruct (forEach _ (DiagramData.links diagramData) 0) as [defs|];
    [|discriminate].
  destruct (forEach (drawLink _ _ _ _) _ 0) as [linkGroups|]; [|discriminate].
  destruct (forEach (drawNode _ _ _) _ 0) as [nodeGroups|]; [|discriminate].
  intros [= <-]. now repeat split.
Qed.

(** The label of a drawn link. *)
Lemma drawLink_label (nm : gmap string DiagramNode.t) (shouldAnim : bool)
    (highlightedNode : option string) (instanceId : string)
    (link : DiagramLink.t) (linkIndex : nat)
    (sourceNode targetNode : DiagramNode.t) (g : LinkGroup.t) :
  nm !! DiagramLink.source link = Some sourceNode ->
  nm !! DiagramLink.target link = Some targetNode ->
  drawLink nm shouldAnim highlightedNode instanceId link linkIndex = Ok [ g ] ->
  LinkGroup.label g
  = if truthy_str (DiagramLink.label link) then
      Some (Label.mk
              (if Qltb (DiagramNode.x targetNode)
                       (DiagramNode.x sourceNode + DiagramNode.width sourceNode)
               then String.append (linkPathId instanceId link) "-text"
               else linkPathId instanceId link)
              (match DiagramLink.labelPosition link with
               | Some p => p
               | None => 5 # 10
               end * 100)
              (match DiagramLink.label link with
               | Some s => s
               | None => EmptyString
               end))
    else None.
Proof.
  intros Hs Ht. unfold drawLink. rewrite Hs, Ht.
  destruct (if shouldAnim && not_null (getLinkPhase (DiagramLink.id link))
            then truthy_phase (getLinkPhase (DiagramLink.id link))
            else None) as [n|].
  - destruct (phaseTransition n (linkBaseOpacity highlightedNode link));
      [|discriminate].
    now intros [= <-].
  - now intros [= <-].
Qed.

(** X7.  Every link that resolves gets exactly one primary path definition,
    with the path its group is drawn with; a loop-back link gets one more,
    the reversed path, under the id with the suffix "-text", and a forward
    link gets none.  A label, when the link has one, always refers to a
    path definition of the same render: the reversed one for a loop-back
    link, the primary one for a forward link. *)
Theorem label_rides_defined_path (diagramData : DiagramData.t)
    (width height : Q) (instanceId : string) (animateTransition : bool)
    (highlightedNode : option string) (bbox : option BBox.t)
    (scene : Scene.t) (before after : list DiagramLink.t)
    (link : DiagramLink.t) (sourceNode targetNode : DiagramNode.t) :
  render diagramData width height instanceId animateTransition
    highlightedNode bbox = Ok scene ->
  DiagramData.links diagramData = before ++ link :: after ->
  nodeMap (DiagramData.nodes diagramData) !! DiagramLink.source link
  = Some sourceNode ->
  nodeMap (DiagramData.nodes diagramData) !! DiagramLink.target link
  = Some targetNode ->
  let nm := nodeMap (DiagramData.nodes diagramData) in
  let index := List.length before in
  let primary := (linkPathId instanceId link,
                  generateLinkPath nm link index false) in
  let reversed := (String.append (linkPathId instanceId link) "-text",
                   generateLinkPath nm link index true) in
  let loopBack :=
    DiagramNode.x targetNode
    < DiagramNode.x sourceNode + DiagramNode.width sourceNode in
  exists g,
    In g (Scene.linkGroups scene)
    /\ LinkGroup.link g = link
    /\ LinkGroup.d g = snd primary
    /\ In primary (Scene.defs scene)
    /\ (loopBack ->
        defsOfLink nm instanceId link index = [ primary; reversed ]
        /\ In reversed (Scene.defs scene)
        /\ forall l, LinkGroup.label g = Some l -> Label.href l = fst reversed)
    /\ (~ loopBack ->
        defsOfLink nm instanceId link index = [ primary ]
        /\ forall l, LinkGroup.label g = Some l -> Label.href l = fst primary)
    /\ (LinkGroup.label g <> None
        <-> exists text, DiagramLink.label link = Some text
                         /\ text <> EmptyString).
Proof.
  intros Hr Hlinks Hs Ht nm index primary reversed loopBack.
  destruct (render_parts _ _ _ _ _ _ _ _ Hr) as (Hdefs & Hgroups & _).
  fold nm in Hdefs, Hgroups, Hs, Ht. rewrite Hlinks in Hdefs, Hgroups.
  apply forEach_at in Hdefs as (dhere & Hd & Hdin).
  apply forEach_at in Hgroups as (ghere & Hg & Hgin).
  fold index in Hd, Hg. injection Hd as <-.
  destruct (drawLink_resolved nm (shouldAnimate animateTransition diagramData)
              highlightedNode instanceId link index _ _ Hs Ht)
    as (g & Hg' & Hlink & Hpath).
  rewrite Hg' in Hg. injection Hg as <-.
  pose proof (drawLink_label _ _ _ _ _ _ _ _ _ Hs Ht Hg') as Hlabel.
  exists g.
  split; [apply Hgin; now left|]. split; [exact Hlink|].
  split; [exact Hpath|].
  split; [apply Hdin; unfold defsOfLink; now left|].
  split; [|split].
  - intros Hloop. pose proof Hloop as Hb. apply Qltb_lt in Hb.
    assert (E : defsOfLink nm instanceId link index = [ primary; reversed ]).
    { unfold defsOfLink. rewrite Hs, Ht, Hb. reflexivity. }
    split; [exact E|]. split.
    + apply Hdin. rewrite E. right. now left.
    + intros l Hl. rewrite Hlabel in Hl.
      destruct (truthy_str (DiagramLink.label link)); [|discriminate].
      injection Hl as <-. simpl. now rewrite Hb.
  - intros Hfwd. apply Qnot_lt_le, Qltb_ge in Hfwd.
    assert (E : defsOfLink nm instanceId link index = [ primary ]).
    { unfold defsOfLink. rewrite Hs, Ht, Hfwd. reflexivity. }
    split; [exact E|].
    intros l Hl. rewrite Hlabel in Hl.
    destruct (truthy_str (DiagramLink.label link)); [|discriminate].
    injection Hl as <-. simpl. now rewrite Hfwd.
  - rewrite Hlabel. unfold truthy_str.
    destruct (DiagramLink.label link) as [text|].
    + destruct (String.eqb text "") eqn:E; simpl.
      * apply String.eqb_eq in E. split; [congruence|].
        intros (t & [= <-] & Hne). contradiction.
      * apply String.eqb_neq in E. split; [|discriminate].
        intros _. now exists text.
    + split; [congruence|]. intros (t & [=] & _).
Qed.

Lemma label_rides_defined_path_witness :
  exists scene g,
    render Sample.twoLoops 850 700 "default" false None None = Ok scene
    /\ In g (Scene.linkGroups scene)
    /\ LinkGroup.link g = Sample.AB
    /\ In (linkPathId "default" Sample.AB,
           generateLinkPath (nodeMap Sample.nodes) Sample.AB 1 false)
          (Scene.defs scene)
    /\ In (String.append (linkPathId "default" Sample.AB) "-text",
           generateLinkPath (nodeMap Sample.nodes) Sample.AB 1 true)
          (Scene.defs scene).
Proof.
  eexists.
  assert (Hr : render Sample.twoLoops 850 700 "default" false None None
               = Ok _) by (vm_compute; reflexivity).
  destruct (label_rides_defined_path Sample.twoLoops 850 700 "default" false
              None None _ [ Sample.AD ] [ Sample.AB ] Sample.AB Sample.A
              Sample.B Hr eq_refl eq_refl eq_refl)
    as (g & Hin & Hlink & _ & Hprim & Hloop & _).
  exists g. split; [exact Hr|]. split; [exact Hin|]. split; [exact Hlink|].
  split; [exact Hprim|].
  apply Hloop. reflexivity.
Defined.

(** ** Particles *)

Lemma markersOf_length (config : ParticleConfig.t) :
  List.length (markersOf config)
  = Z.to_nat (Qceiling (ParticleConfig.count config)).
Proof.
  unfold markersOf, particleDelays. now rewrite !length_map, length_seq.
Qed.

Lemma markersOf_nth (config : ParticleConfig.t) (i : nat) (m : Marker.t) :
  nth_error (markersOf config) i = Some m ->
  (i < Z.to_nat (Qceiling (ParticleConfig.count config)))%nat
  /\ Marker.delay m
     = inject_Z (Z.of_nat i) / ParticleConfig.count config
       * ParticleConfig.duration config
  /\ Marker.duration m = ParticleConfig.duration config.
Proof.
  unfold markersOf, particleDelays. intros Hm.
  rewrite !nth_error_map in Hm.
  destruct (nth_error (seq 0 _) i) as [k|] eqn:Ek; [|discriminate].
  injection Hm as <-. cbn [Marker.delay Marker.duration].
  assert (Hlt : (i < List.length
                       (seq 0 (Z.to_nat
                                 (Qceiling (ParticleConfig.count config)))))%nat)
    by (apply nth_error_Some; congruence).
  rewrite length_seq in Hlt.
  apply nth_error_nth with (d := 0%nat) in Ek.
  rewrite seq_nth in Ek by exact Hlt. simpl in Ek. subst k.
  now repeat split.
Qed.

(** X8.  For every link with a positive particle count and a rate below 11
    the drawing pass stores a particle configuration; the particle pass
    then makes as many markers as the count rounded up, at least one, and
    every marker starts within the first loop period: its delay is at
    least 0 and less than the loop duration.  The delay of marker i is
    i / count of the duration. *)
Theorem marker_delays_within_period (link : DiagramLink.t) :
  0 < particleCount link ->
  animationRate link < 11 ->
  exists config,
    particleConfigOf link = Some config
    /\ ParticleConfig.duration config = duration link
    /\ 0 < duration link
    /\ List.length (markersOf config)
       = Z.to_nat (Qceiling (particleCount link))
    /\ (1 <= List.length (markersOf config))%nat
    /\ forall i m,
         nth_error (markersOf config) i = Some m ->
         Marker.delay m
         == inject_Z (Z.of_nat i) / particleCount link * duration link
         /\ 0 <= Marker.delay m
         /\ Marker.delay m < duration link
         /\ Marker.duration m = duration link.
Proof.
  intros Hpos Hrate.
  assert (Hb : Qltb 0 (particleCount link) = true) by now apply Qltb_lt.
  assert (Hdur : 0 < duration link) by (unfold duration; lra).
  unfold particleConfigOf. rewrite Hb.
  eexists. split; [reflexivity|]. cbn [ParticleConfig.duration].
  split; [reflexivity|]. split; [exact Hdur|].
  rewrite markersOf_length. cbn [ParticleConfig.count].
  split; [reflexivity|]. split.
  { pose proof (Qle_ceiling (particleCount link)) as Hc.
    assert (H : 0 < inject_Z (Qceiling (particleCount link))) by lra.
    change 0 with (inject_Z 0) in H. rewrite <- Zlt_Qlt in H. lia. }
  intros i m Hm.
  apply markersOf_nth in Hm as (Hin & -> & ->).
  cbn [ParticleConfig.count ParticleConfig.duration] in *.
  assert (Hi0 : 0 <= inject_Z (Z.of_nat i)).
  { change 0 with (inject_Z 0). rewrite <- Zle_Qle. lia. }
  assert (Hic : inject_Z (Z.of_nat i) < particleCount link).
  { pose proof (Qceiling_lt (particleCount link)) as Hc.
    assert (Hle : inject_Z (Z.of_nat i)
                  <= inject_Z (Qceiling (particleCount link) - 1)).
    { rewrite <- Zle_Qle. lia. }
    lra. }
  revert Hi0 Hic Hpos Hdur.
  generalize (particleCount link), (duration link), (inject_Z (Z.of_nat i)).
  intros c D q Hi0 Hic Hpos Hdur.
  assert (Hfrac0 : 0 <= q / c) by (apply Qle_shift_div_l; lra).
  assert (Hfrac1 : q / c < 1) by (apply Qlt_shift_div_r; lra).
  split; [reflexivity|]. split; [|split; [|reflexivity]]; nra.
Qed.

Lemma marker_delays_within_period_witness :
  exists config,
    particleConfigOf Sample.AB = Some config
    /\ ParticleConfig.duration config = duration Sample.AB
    /\ 0 < duration Sample.AB
    /\ List.length (markersOf config)
       = Z.to_nat (Qceiling (particleCount Sample.AB))
    /\ (1 <= List.length (markersOf config))%nat
    /\ forall i m,
         nth_error (markersOf config) i = Some m ->
         Marker.delay m
         == inject_Z (Z.of_nat i) / particleCount Sample.AB
            * duration Sample.AB
         /\ 0 <= Marker.delay m
         /\ Marker.delay m < duration Sample.AB
         /\ Marker.duration m = duration Sample.AB.
Proof.
  apply (marker_delays_within_period Sample.AB); reflexivity.
Defined.

(** What the drawing pass keeps of a link: only resolved links are drawn,
    each with the particle configuration of its own link. *)
Lemma drawLink_group (nm : gmap string DiagramNode.t) (shouldAnim : bool)
    (highlightedNode : option string) (instanceId : string)
    (link : DiagramLink.t) (linkIndex : nat) (here : list LinkGroup.t)
    (g : LinkGroup.t) :
  drawLink nm shouldAnim highlightedNode instanceId link linkIndex = Ok here ->
  In g here ->
  LinkGroup.link g = link
  /\ LinkGroup.particleConfig g = particleConfigOf link
  /\ is_Some (nm !! DiagramLink.source link)
  /\ is_Some (nm !! DiagramLink.target link).
Proof.
  intros Hd Hin.
  destruct (drawLink_cases nm shouldAnim highlightedNode instanceId link
              linkIndex) as [H0 | (g' & Hg & Hl & _ & Hp & _)].
  - rewrite H0 in Hd. injection Hd as <-. destruct Hin.
  - rewrite Hg in Hd. injection Hd as <-. destruct Hin as [<- | []].
    split; [exact Hl|]. split; [exact Hp|].
    unfold drawLink in Hg.
    destruct (nm !! DiagramLink.source link); [|discriminate].
    destruct (nm !! DiagramLink.target link); [|discriminate].
    split; eexists; reflexivity.
Qed.

(** X9.  The render makes particles only after a viewport fit and only for
    links that were drawn: without a bounding box the scene has no
    particles at all, and every entry of the particles of a scene belongs
    to a link of the data whose source and target both resolve and whose
    particle count is positive; it holds at least one marker, and as many
    as the count rounded up. *)
Theorem particles_only_for_drawn_links (diagramData : DiagramData.t)
    (width height : Q) (instanceId : string) (animateTransition : bool)
    (highlightedNode : option string) (bbox : option BBox.t)
    (scene : Scene.t) :
  render diagramData width height instanceId animateTransition
    highlightedNode bbox = Ok scene ->
  (bbox = None -> Scene.particles scene = [])
  /\ forall link markers,
       In (link, markers) (Scene.particles scene) ->
       bbox <> None
       /\ In link (DiagramData.links diagramData)
       /\ is_Some (nodeMap (DiagramData.nodes diagramData)
                     !! DiagramLink.source link)
       /\ is_Some (nodeMap (DiagramData.nodes diagramData)
                     !! DiagramLink.target link)
       /\ 0 < particleCount link
       /\ List.length markers = Z.to_nat (Qceiling (particleCount link))
       /\ (1 <= List.length markers)%nat.
Proof.
  intros Hr.
  destruct (render_parts _ _ _ _ _ _ _ _ Hr) as (_ & Hgroups & _ & _ & Hp).
  split.
  - intros ->. rewrite Hp. reflexivity.
  - intros link markers Hin. rewrite Hp in Hin.
    destruct bbox as [b|]; [|destruct Hin]. simpl in Hin.
    split; [discriminate|].
    unfold particlesOf in Hin. apply in_flat_map in Hin as (g & Hg & Hin).
    destruct (forEach_from _ _ _ _ _ Hgroups Hg)
      as (k & item & here & Hk & Hbody & Hhere).
    destruct (drawLink_group _ _ _ _ _ _ _ _ Hbody Hhere)
      as (Hlink & Hconf & Hsrc & Htgt).
    rewrite Hconf, Hlink in Hin.
    destruct (particleConfigOf item) as [config|] eqn:Ec; [|destruct Hin].
    destruct Hin as [[= <- <-] | []].
    split; [eapply nth_error_In; exact Hk|].
    split; [exact Hsrc|]. split; [exact Htgt|].
    unfold particleConfigOf in Ec.
    destruct (Qltb 0 (particleCount item)) eqn:Eb; [|discriminate].
    apply Qltb_lt in Eb. injection Ec as <-.
    split; [exact Eb|].
    rewrite markersOf_length. cbn [ParticleConfig.count].
    split; [reflexivity|].
    pose proof (Qle_ceiling (particleCount item)) as Hc.
    assert (H : 0 < inject_Z (Qceiling (particleCount item))) by lra.
    change 0 with (inject_Z 0) in H. rewrite <- Zlt_Qlt in H. lia.
Qed.

Lemma particles_only_for_drawn_links_witness :
  exists scene,
    render Demo.proposed 850 700 "default" true None
      (Some (BBox.mk 0 0 500 400)) = Ok scene
    /\ (Some (BBox.mk 0 0 500 400) = None -> Scene.particles scene = [])
    /\ forall link markers,
         In (link, markers) (Scene.particles scene) ->
         Some (BBox.mk 0 0 500 400) <> None
         /\ In link (DiagramData.links Demo.proposed)
         /\ is_Some (nodeMap (DiagramData.nodes Demo.proposed)
                       !! DiagramLink.source link)
         /\ is_Some (nodeMap (DiagramData.nodes Demo.proposed)
                       !! DiagramLink.target link)
         /\ 0 < particleCount link
         /\ List.length markers = Z.to_nat (Qceiling (particleCount link))
         /\ (1 <= List.length markers)%nat.
Proof.
  eexists.
  assert (Hr : render Demo.proposed 850 700 "default" true None
                 (Some (BBox.mk 0 0 500 400)) = Ok _)
    by (vm_compute; reflexivity).
  split; [exact Hr|].
  exact (particles_only_for_drawn_links Demo.proposed 850 700 "default" true
           None (Some (BBox.mk 0 0 500 400)) _ Hr).
Defined.

(** ** The timing of the reveal *)

Lemma phaseTransition_bounds (phaseNum : Z) (baseOpacity : Q)
    (tr : Transition.t) :
  (1 <= phaseNum <= 6)%Z ->
  phaseTransition phaseNum baseOpacity = Ok tr ->
  (0 <= Transition.delay tr)%Z
  /\ (0 < Transition.duration tr)%Z
  /\ (Transition.delay tr + Transition.duration tr <= 6000)%Z
  /\ Transition.opacity tr = baseOpacity.
Proof.
  intros H.
  assert (Hc : phaseNum = 1%Z \/ phaseNum = 2%Z \/ phaseNum = 3%Z \/
               phaseNum = 4%Z \/ phaseNum = 5%Z \/ phaseNum = 6%Z) by lia.
  repeat (destruct Hc as [-> | Hc];
          [intros [= <-]; cbn; repeat split; lia|]).
  subst. intros [= <-]. cbn. repeat split; lia.
Qed.

Lemma drawNode_timing (shouldAnim : bool) (highlightedNode : option string)
    (links : list DiagramLink.t) (node : DiagramNode.t) (index : nat)
    (here : list NodeGroup.t) (g : NodeGroup.t) :
  drawNode shouldAnim highlightedNode links node index = Ok here ->
  In g here ->
  NodeGroup.node g = node
  /\ (forall tr, NodeGroup.transition g = Some tr ->
        shouldAnim = true
        /\ (0 <= Transition.delay tr)%Z
        /\ (Transition.delay tr + Transition.duration tr <= 6000)%Z
        /\ Transition.opacity tr = nodeBaseOpacity highlightedNode links node)
  /\ (forall t, NodeGroup.pulseTimeout g = Some t ->
        t = 6500%Z
        /\ NodeGroup.transition g <> None
        /\ (DiagramNode.id node = "anaerobic-digester"%string
            \/ DiagramNode.id node = "pyrolysis-unit"%string)).
Proof.
  unfold drawNode.
  pose proof (getNodePhase_range (DiagramNode.id node)) as Hrange.
  destruct shouldAnim; simpl.
  - destruct Hrange as [Hnone | (n & Hn & Hr)].
    + rewrite Hnone. simpl. intros [= <-] [<- | []]. cbn.
      split; [reflexivity|]. split; intros ? [=].
    + rewrite Hn. simpl.
      assert (Hz : Z.eqb n 0 = false) by (apply Z.eqb_neq; lia).
      rewrite Hz.
      destruct (phaseTransition_defined n
                  (nodeBaseOpacity highlightedNode links node) Hr)
        as (startTime & dur & Ept & _).
      rewrite Ept.
      destruct (phaseTransition_bounds _ _ _ Hr Ept) as (B1 & _ & B2 & B3).
      change getTotalAnimationDuration with (Ok 6000%Z).
      destruct (String.eqb (DiagramNode.id node) "anaerobic-digester"
                || String.eqb (DiagramNode.id node) "pyrolysis-unit")
        eqn:Epulse.
      * intros [= <-] [<- | []]. cbn. split; [reflexivity|]. split.
        -- intros tr' [= <-]. now repeat split.
        -- intros t [= <-]. split; [reflexivity|]. split; [discriminate|].
           apply orb_true_iff in Epulse as [Hid | Hid];
             apply String.eqb_eq in Hid; auto.
      * intros [= <-] [<- | []]. cbn. split; [reflexivity|]. split.
        -- intros tr' [= <-]. now repeat split.
        -- intros t [=].
  - intros [= <-] [<- | []]. cbn. split; [reflexivity|].
    split; intros ? [=].
Qed.

Lemma drawLink_timing (nm : gmap string DiagramNode.t) (shouldAnim : bool)
    (highlightedNode : option string) (instanceId : string)
    (link : DiagramLink.t) (linkIndex : nat) (here : list LinkGroup.t)
    (g : LinkGroup.t) :
  drawLink nm shouldAnim highlightedNode instanceId link linkIndex = Ok here ->
  In g here ->
  forall tr, LinkGroup.transition g = Some tr ->
    shouldAnim = true
    /\ (0 <= Transition.delay tr)%Z
    /\ (Transition.delay tr + Transition.duration tr <= 6000)%Z
    /\ Transition.opacity tr = linkBaseOpacity highlightedNode link.
Proof.
  unfold drawLink.
  destruct (nm !! DiagramLink.source link); [|intros [= <-] []].
  destruct (nm !! DiagramLink.target link); [|intros [= <-] []].
  pose proof (getLinkPhase_range (DiagramLink.id link)) as Hrange.
  destruct shouldAnim; simpl.
  - destruct Hrange as [Hnone | (n & Hn & Hr)].
    + rewrite Hnone. simpl. intros [= <-] [<- | []]. cbn. intros ? [=].
    + rewrite Hn. simpl.
      assert (Hz : Z.eqb n 0 = false) by (apply Z.eqb_neq; lia).
      rewrite Hz.
      destruct (phaseTransition_defined n
                  (linkBaseOpacity highlightedNode link) Hr)
        as (startTime & dur & Ept & _).
      rewrite Ept.
      destruct (phaseTransition_bounds _ _ _ Hr Ept) as (B1 & _ & B2 & B3).
      intros [= <-] [<- | []]. cbn. intros tr' [= <-]. now repeat split.
  - intros [= <-] [<- | []]. cbn. intros ? [=].
Qed.

(** X10.  Every reveal transition the render schedules, for a node or for a
    link, belongs to a render with the staged reveal on, starts at a time
    that is not negative, is over by 6000 ms and ends at the base opacity
    of its element.  The timer the render sets to start the pulse is set
    only for the nodes anaerobic-digester and pyrolysis-unit, only together
    with a reveal transition, and always at 6500 ms: later than the end of
    every reveal transition of the same render.  (This is the timer of the
    render only; the pointer handlers of a node, which start the pulse
    again as soon as the pointer leaves it, are not part of [render].) *)
Theorem pulse_timer_after_reveals (diagramData : DiagramData.t)
    (width height : Q) (instanceId : string) (animateTransition : bool)
    (highlightedNode : option string) (bbox : option BBox.t)
    (scene : Scene.t) :
  render diagramData width height instanceId animateTransition
    highlightedNode bbox = Ok scene ->
  (forall g tr,
      In g (Scene.nodeGroups scene) ->
      NodeGroup.transition g = Some tr ->
      shouldAnimate animateTransition diagramData = true
      /\ (0 <= Transition.delay tr)%Z
      /\ (Transition.delay tr + Transition.duration tr <= 6000)%Z
      /\ Transition.opacity tr
         = nodeBaseOpacity highlightedNode (DiagramData.links diagramData)
             (NodeGroup.node g))
  /\ (forall g tr,
        In g (Scene.linkGroups scene) ->
        LinkGroup.transition g = Some tr ->
        shouldAnimate animateTransition diagramData = true
        /\ (0 <= Transition.delay tr)%Z
        /\ (Transition.delay tr + Transition.duration tr <= 6000)%Z
        /\ Transition.opacity tr
           = linkBaseOpacity highlightedNode (LinkGroup.link g))
  /\ (forall g t,
        In g (Scene.nodeGroups scene) ->
        NodeGroup.pulseTimeout g = Some t ->
        t = 6500%Z
        /\ NodeGroup.transition g <> None
        /\ (DiagramNode.id (NodeGroup.node g) = "anaerobic-digester"%string
            \/ DiagramNode.id (NodeGroup.node g) = "pyrolysis-unit"%string)
        /\ (forall g' tr,
              In g' (Scene.nodeGroups scene) ->
              NodeGroup.transition g' = Some tr ->
              (Transition.delay tr + Transition.duration tr < t)%Z)
        /\ (forall g' tr,
              In g' (Scene.linkGroups scene) ->
              LinkGroup.transition g' = Some tr ->
              (Transition.delay tr + Transition.duration tr < t)%Z)).
Proof.
  intros Hr.
  destruct (render_parts _ _ _ _ _ _ _ _ Hr) as (_ & Hlinks & Hnodes & _).
  assert (HN : forall g tr,
             In g (Scene.nodeGroups scene) ->
             NodeGroup.transition g = Some tr ->
             shouldAnimate animateTransition diagramData = true
             /\ (0 <= Transition.delay tr)%Z
             /\ (Transition.delay tr + Transition.duration tr <= 6000)%Z
             /\ Transition.opacity tr
                = nodeBaseOpacity highlightedNode
                    (DiagramData.links diagramData) (NodeGroup.node g)).
  { intros g tr Hg Htr.
    destruct (forEach_from _ _ _ _ _ Hnodes Hg)
      as (k & node & here & _ & Hbody & Hhere).
    destruct (drawNode_timing _ _ _ _ _ _ _ Hbody Hhere) as (Hn & Ht & _).
    rewrite Hn. now apply Ht. }
  assert (HL : forall g tr,
             In g (Scene.linkGroups scene) ->
             LinkGroup.transition g = Some tr ->
             shouldAnimate animateTransition diagramData = true
             /\ (0 <= Transition.delay tr)%Z
             /\ (Transition.delay tr + Transition.duration tr <= 6000)%Z
             /\ Transition.opacity tr
                = linkBaseOpacity highlightedNode (LinkGroup.link g)).
  { intros g tr Hg Htr.
    destruct (forEach_from _ _ _ _ _ Hlinks Hg)
      as (k & link & here & _ & Hbody & Hhere).
    destruct (drawLink_group _ _ _ _ _ _ _ _ Hbody Hhere) as (Hl & _).
    rewrite Hl. now apply (drawLink_timing _ _ _ _ _ _ _ _ Hbody Hhere). }
  split; [exact HN|]. split; [exact HL|].
  intros g t Hg Ht.
  destruct (forEach_from _ _ _ _ _ Hnodes Hg)
    as (k & node & here & _ & Hbody & Hhere).
  destruct (drawNode_timing _ _ _ _ _ _ _ Hbody Hhere) as (Hn & _ & Hp).
  rewrite Hn. destruct (Hp t Ht) as (-> & Htr & Hid).
  split; [reflexivity|]. split; [exact Htr|]. split; [exact Hid|]. split.
  - intros g' tr Hg' Htr'. destruct (HN g' tr Hg' Htr') as (_ & _ & H & _). lia.
  - intros g' tr Hg' Htr'. destruct (HL g' tr Hg' Htr') as (_ & _ & H & _). lia.
Qed.

Lemma pulse_timer_after_reveals_witness :
  exists scene,
    render Demo.proposed 850 700 "default" true None None = Ok scene
    /\ (forall g tr,
          In g (Scene.nodeGroups scene) ->
          NodeGroup.transition g = Some tr ->
          shouldAnimate true Demo.proposed = true
          /\ (0 <= Transition.delay tr)%Z
          /\ (Transition.delay tr + Transition.duration tr <= 6000)%Z
          /\ Transition.opacity tr
             = nodeBaseOpacity None (DiagramData.links Demo.proposed)
                 (NodeGroup.node g))
    /\ (forall g tr,
          In g (Scene.linkGroups scene) ->
          LinkGroup.transition g = Some tr ->
          shouldAnimate true Demo.proposed = true
          /\ (0 <= Transition.delay tr)%Z
          /\ (Transition.delay tr + Transition.duration tr <= 6000)%Z
          /\ Transition.opacity tr
             = linkBaseOpacity None (LinkGroup.link g))
    /\ (forall g t,
          In g (Scene.nodeGroups scene) ->
          NodeGroup.pulseTimeout g = Some t ->
          t = 6500%Z
          /\ NodeGroup.transition g <> None
          /\ (DiagramNode.id (NodeGroup.node g) = "anaerobic-digester"%string
              \/ DiagramNode.id (NodeGroup.node g) = "pyrolysis-unit"%string)
          /\ (forall g' tr,
                In g' (Scene.nodeGroups scene) ->
                NodeGroup.transition g' = Some tr ->
                (Transition.delay tr + Transition.duration tr < t)%Z)
          /\ (forall g' tr,
                In g' (Scene.linkGroups scene) ->
                LinkGroup.transition g' = Some tr ->
                (Transition.delay tr + Transition.duration tr < t)%Z)).
Proof.
  eexists.
  assert (Hr : render Demo.proposed 850 700 "default" true None None = Ok _)
    by (vm_compute; reflexivity).
  split; [exact Hr|].
  exact (pulse_timer_after_reveals Demo.proposed 850 700 "default" true
           None None _ Hr).
Defined.

(** ** Highlighting *)

(** X11.  Highlighting is consistent between links and nodes: whenever a
    link of the data is emphasised (base opacity 0.8), the nodes at both
    of its ends are emphasised too (base opacity 1); so every link that
    touches a dimmed node is dimmed.  With no node highlighted every link
    has base opacity 0.6 and every node base opacity 1. *)
Theorem highlight_consistent (highlightedNode : option string)
    (links : list DiagramLink.t) (link : DiagramLink.t)
    (node : DiagramNode.t) :
  In link links ->
  DiagramNode.id node = DiagramLink.source link
  \/ DiagramNode.id node = DiagramLink.target link ->
  (linkBaseOpacity highlightedNode link = 8 # 10 ->
   nodeBaseOpacity highlightedNode links node = 1)
  /\ (nodeBaseOpacity highlightedNode links node = 2 # 10 ->
      linkBaseOpacity highlightedNode link = 1 # 10)
  /\ (truthy_str highlightedNode = false ->
      linkBaseOpacity highlightedNode link = 6 # 10
      /\ nodeBaseOpacity highlightedNode links node = 1).
Proof.
  intros Hin Hend.
  assert (Hkey : truthy_str highlightedNode = true ->
                 highlighted_is highlightedNode (DiagramLink.source link)
                 || highlighted_is highlightedNode (DiagramLink.target link)
                 = true ->
                 isConnected highlightedNode links node = true).
  { intros Htr Hhl. unfold isConnected. rewrite Htr.
    apply orb_true_iff in Hhl.
    destruct Hend as [Hid | Hid]; destruct Hhl as [Hh | Hh].
    - rewrite Hid, Hh. reflexivity.
    - apply orb_true_iff. right. apply existsb_exists. exists link.
      split; [exact Hin|]. rewrite Hh, Hid, String.eqb_refl.
      apply orb_true_iff. right. reflexivity.
    - apply orb_true_iff. right. apply existsb_exists. exists link.
      split; [exact Hin|]. rewrite Hh, Hid, String.eqb_refl. reflexivity.
    - rewrite Hid, Hh. reflexivity. }
  unfold linkBaseOpacity, nodeBaseOpacity in *.
  destruct (truthy_str highlightedNode) eqn:Htr.
  - destruct (highlighted_is highlightedNode (DiagramLink.source link)
              || highlighted_is highlightedNode (DiagramLink.target link))
      eqn:Hhl.
    + rewrite (Hkey eq_refl eq_refl).
      split; [reflexivity|]. split; [discriminate|discriminate].
    + split; [discriminate|]. split; [reflexivity|discriminate].
  - unfold isConnected. rewrite Htr.
    split; [discriminate|]. split; [discriminate|]. now split.
Qed.

Lemma highlight_consistent_witness :
  (linkBaseOpacity (Some "A"%string) Sample.AB = 8 # 10 ->
   nodeBaseOpacity (Some "A"%string) [ Sample.AD; Sample.AB ] Sample.B = 1)
  /\ (nodeBaseOpacity (Some "A"%string) [ Sample.AD; Sample.AB ] Sample.B
      = 2 # 10 ->
      linkBaseOpacity (Some "A"%string) Sample.AB = 1 # 10)
  /\ (truthy_str (Some "A"%string) = false ->
      linkBaseOpacity (Some "A"%string) Sample.AB = 6 # 10
      /\ nodeBaseOpacity (Some "A"%string) [ Sample.AD; Sample.AB ] Sample.B
         = 1).
Proof.
  apply (highlight_consistent (Some "A"%string) [ Sample.AD; Sample.AB ]
           Sample.AB Sample.B).
  - right. left. reflexivity.
  - right. reflexivity.
Defined.

(** ** The tooltip position *)

Lemma Qmax_cases (a b : Q) : (Qmax a b == a /\ b <= a) \/ (Qmax a b == b /\ a <= b).
Proof.
  destruct (Q.max_spec a b) as [[H1 H2] | [H1 H2]]; [right | left];
    split; try assumption; lra.
Qed.

Lemma Qmin_cases (a b : Q) : (Qmin a b == a /\ a <= b) \/ (Qmin a b == b /\ b <= a).
Proof.
  destruct (Q.min_spec a b) as [[H1 H2] | [H1 H2]]; [left | right];
    split; try assumption; lra.
Qed.

(** X12.  The first version of the tooltip never leaves the 20 pixel
    padding at the left and at the top, whatever the window and the
    pointer; its width and height are taken to be at least 300 and 200;
    and in a window that has room for it (the tooltip and 20 on either
    side) it lies entirely inside the padding.  With the pointer in the
    right half of such a window, the tooltip sits at the far left. *)
Theorem tooltip_stays_in_window (tooltipRect : Tooltip.Rect.t)
    (viewportWidth viewportHeight x y : Q) :
  let tooltipWidth := Qmax (Tooltip.Rect.width tooltipRect) 300 in
  let tooltipHeight := Qmax (Tooltip.Rect.height tooltipRect) 200 in
  let p := Tooltip.place tooltipRect viewportWidth viewportHeight x y in
  20 <= Tooltip.Position.left p
  /\ 20 <= Tooltip.Position.top p
  /\ (tooltipWidth + 40 <= viewportWidth ->
      Tooltip.Position.left p + tooltipWidth <= viewportWidth - 20
      /\ (viewportWidth / 2 < x -> Tooltip.Position.left p == 20))
  /\ (tooltipHeight + 40 <= viewportHeight ->
      Tooltip.Position.top p + tooltipHeight <= viewportHeight - 20).
Proof.
  intros tw th p. unfold p, Tooltip.place, Tooltip.padding.
  cbn [Tooltip.Position.left Tooltip.Position.top]. fold tw th.
  clearbody tw th.
  split; [apply Q.le_max_l|]. split; [apply Q.le_max_l|]. split.
  - intros Hfit. split.
    + match goal with
      | |- Qmax 20 (Qmin ?l ?r) + _ <= _ =>
          destruct (Qmax_cases 20 (Qmin l r)) as [[-> _] | [-> _]];
            [lra | pose proof (Q.le_min_r l r); lra]
      end.
    + intros Hright. apply Qltb_lt in Hright. rewrite Hright.
      rewrite (Q.min_l 20) by lra. now rewrite Q.max_id.
  - intros Hfit.
    match goal with
    | |- Qmax 20 (Qmin ?l ?r) + _ <= _ =>
        destruct (Qmax_cases 20 (Qmin l r)) as [[-> _] | [-> _]];
          [lra | pose proof (Q.le_min_r l r); lra]
    end.
Qed.

Lemma tooltip_stays_in_window_witness :
  let p := Tooltip.place (Tooltip.Rect.mk 320 240) 1280 800 1000 700 in
  20 <= Tooltip.Position.left p
  /\ 20 <= Tooltip.Position.top p
  /\ (Qmax 320 300 + 40 <= 1280 ->
      Tooltip.Position.left p + Qmax 320 300 <= 1280 - 20
      /\ (1280 / 2 < 1000 -> Tooltip.Position.left p == 20))
  /\ (Qmax 240 200 + 40 <= 800 ->
      Tooltip.Position.top p + Qmax 240 200 <= 800 - 20).
Proof.
  exact (tooltip_stays_in_window (Tooltip.Rect.mk 320 240) 1280 800 1000 700).
Defined.

(** X13.  The second version of the tooltip never reaches past the padding
    at the right and at the bottom of the window, whatever the window and
    the pointer; in a window that has room for the tooltip (its measured
    size and 20 on either side) it also keeps the padding at the left and
    at the top, and in a narrower window it does not: the last clamp
    pushes it left of the padding. *)
Theorem tooltip2_stays_in_window (tooltipRect : Tooltip.Rect.t)
    (viewportWidth viewportHeight x y : Q) :
  0 < Tooltip.Rect.width tooltipRect ->
  0 < Tooltip.Rect.height tooltipRect ->
  let tooltipWidth := Tooltip.Rect.width tooltipRect in
  let tooltipHeight := Tooltip.Rect.height tooltipRect in
  let p := Tooltip.place2 tooltipRect viewportWidth viewportHeight x y in
  Tooltip.Position.left p + tooltipWidth <= viewportWidth - 20
  /\ Tooltip.Position.top p + tooltipHeight <= viewportHeight - 20
  /\ (tooltipWidth + 40 <= viewportWidth -> 20 <= Tooltip.Position.left p)
  /\ (tooltipHeight + 40 <= viewportHeight -> 20 <= Tooltip.Position.top p)
  /\ (viewportWidth < tooltipWidth + 40 ->
      Tooltip.Position.left p == viewportWidth - tooltipWidth - 20
      /\ Tooltip.Position.left p < 20).
Proof.
  intros Hw Hh tw th p. unfold p, Tooltip.place2, Tooltip.padding.
  cbn [Tooltip.Position.left Tooltip.Position.top].
  rewrite !num_or_nonzero by lra. fold tw th. clearbody tw th.
  split; [|split; [|split; [|split]]].
  - match goal with
    | |- Qmin ?l ?r + _ <= _ => pose proof (Q.le_min_r l r); lra
    end.
  - match goal with
    | |- Qmin ?l ?r + _ <= _ => pose proof (Q.le_min_r l r); lra
    end.
  - intros Hfit. apply Q.min_glb; [|lra].
    match goal with
    | |- 20 <= (if Qltb ?a 20 then 20 else ?a) =>
        destruct (Qltb a 20) eqn:E; [lra | apply Qltb_ge in E; exact E]
    end.
  - intros Hfit. apply Q.min_glb; [|lra].
    match goal with
    | |- 20 <= (if Qltb ?a 20 then 20 else ?a) =>
        destruct (Qltb a 20) eqn:E; [lra | apply Qltb_ge in E; exact E]
    end.
  - intros Hsmall.
    match goal with
    | |- Qmin ?l ?r == _ /\ _ =>
        assert (Hl : 20 <= l);
          [ match goal with
            | |- 20 <= (if Qltb ?a 20 then 20 else ?a) =>
                destruct (Qltb a 20) eqn:E;
                  [lra | apply Qltb_ge in E; exact E]
            end
          | rewrite (Q.min_r l r) by lra; split; [reflexivity | lra] ]
    end.
Qed.

Lemma tooltip2_stays_in_window_witness :
  let p := Tooltip.place2 (Tooltip.Rect.mk 350 300) 1280 800 1200 700 in
  Tooltip.Position.left p + 350 <= 1280 - 20
  /\ Tooltip.Position.top p + 300 <= 800 - 20
  /\ (350 + 40 <= 1280 -> 20 <= Tooltip.Position.left p)
  /\ (300 + 40 <= 800 -> 20 <= Tooltip.Position.top p)
  /\ (1280 < 350 + 40 ->
      Tooltip.Position.left p == 1280 - 350 - 20
      /\ Tooltip.Position.left p < 20).
Proof.
  apply (tooltip2_stays_in_window (Tooltip.Rect.mk 350 300) 1280 800 1200 700);
    reflexivity.
Defined.

(** ** Click navigation *)

Lemma lower_char_idempotent (c : ascii) :
  Navigation.lower_char (Navigation.lower_char c) = Navigation.lower_char c.
Proof.
  destruct c as [[] [] [] [] [] [] [] []]; reflexivity.
Qed.

Lemma toLowerCase_idempotent (s : string) :
  Navigation.toLowerCase (Navigation.toLowerCase s) = Navigation.toLowerCase s.
Proof.
  induction s as [|c s IH]; simpl; [reflexivity|].
  now rewrite lower_char_idempotent, IH.
Qed.

(** After [toLowerCase] only two inherited property names can be hit. *)
Lemma inherited_lower (s : string) (v : string) :
  Navigation.inherited (Navigation.toLowerCase s) = Some v ->
  Navigation.toLowerCase s = "__proto__"%string
  \/ Navigation.toLowerCase s = "constructor"%string.
Proof.
  pose proof (toLowerCase_idempotent s) as Hid.
  remember (Navigation.toLowerCase s) as t eqn:Et. clear Et s.
  unfold Navigation.inherited.
  destruct (String.eqb t "__proto__") eqn:E1;
    [apply String.eqb_eq in E1; auto|].
  destruct (String.eqb t "constructor") eqn:E2;
    [apply String.eqb_eq in E2; auto|].
  destruct (existsb _ _) eqn:E3; [|discriminate].
  exfalso. apply existsb_exists in E3 as (n & Hin & Hn).
  apply String.eqb_eq in Hn. subst n.
  simpl in Hin.
  repeat (destruct Hin as [<- | Hin]; [vm_compute in Hid; discriminate|]).
  destruct Hin.
Qed.

Lemma prop_get_In {A : Type} (obj : list (string * A)) (key : string) (v : A) :
  prop_get obj key = Some v -> In (key, v) obj.
Proof.
  induction obj as [|[k a] obj IH]; simpl; [discriminate|].
  destruct (String.eqb k key) eqn:E.
  - apply String.eqb_eq in E. intros [= <-]. left. now subst.
  - intros H. right. now apply IH.
Qed.

Lemma partialMatch_In (entries : list (string * string)) (nodeId url : string) :
  Navigation.partialMatch entries nodeId = Navigation.Push url ->
  exists key slug,
    In (key, slug) entries
    /\ url = String.append "/details/" slug
    /\ (Navigation.str_includes nodeId key = true
        \/ Navigation.str_includes key nodeId = true).
Proof.
  induction entries as [|[key slug] entries IH]; simpl; [discriminate|].
  destruct (_ || _) eqn:E.
  - intros [= <-]. exists key, slug. split; [now left|].
    split; [reflexivity|]. now apply orb_true_iff.
  - intros H. destruct (IH H) as (k & s & Hin & Hu & Hinc).
    exists k, s. split; [now right|]. now split.
Qed.

(** X14.  A click on a node never lands on an error page: when the handler
    pushes a url, the url is /details/ followed by one of the six slugs of
    the detail page's configuration, and the detail page shows the
    comparison for it.  (The two ids that lower-case to the inherited
    property names constructor and __proto__ are left aside; node ids are
    ASCII.)  With navigation switched off the handler pushes nothing. *)
Theorem click_opens_known_page (enableNavigation : bool)
    (node : DiagramNode.t) (url : string) :
  Navigation.handleClick enableNavigation node = Navigation.Push url ->
  Navigation.toLowerCase (DiagramNode.id node) <> "constructor"%string ->
  Navigation.toLowerCase (DiagramNode.id node) <> "__proto__"%string ->
  enableNavigation = true
  /\ exists slug hasCurrent,
       url = String.append "/details/" slug
       /\ prop_get Navigation.COMPONENT_CONFIG slug = Some hasCurrent
       /\ Navigation.ComponentDetailPage slug
          = Navigation.Comparison hasCurrent.
Proof.
  intros Hc Hn1 Hn2. unfold Navigation.handleClick in Hc.
  destruct enableNavigation; [|discriminate]. split; [reflexivity|].
  simpl negb in Hc. cbv iota in Hc.
  assert (Hslug : exists key slug,
             In (key, slug) Navigation.NODE_TO_COMPONENT_MAP
             /\ url = String.append "/details/" slug).
  { destruct (prop_get Navigation.NODE_TO_COMPONENT_MAP
                (Navigation.toLowerCase (DiagramNode.id node)))
      as [slug|] eqn:Ep.
    - injection Hc as <-. eexists _, slug.
      split; [exact (prop_get_In _ _ _ Ep)|reflexivity].
    - destruct (Navigation.inherited
                  (Navigation.toLowerCase (DiagramNode.id node)))
        as [v|] eqn:Ei.
      + apply inherited_lower in Ei as [Ei | Ei]; contradiction.
      + apply partialMatch_In in Hc as (key & slug & Hin & Hu & _).
        now exists key, slug. }
  destruct Hslug as (key & slug & Hin & ->).
  exists slug. simpl in Hin.
  repeat (destruct Hin as [[= <- <-] | Hin];
          [eexists; split; [reflexivity|split; reflexivity]|]).
  destruct Hin.
Qed.

Lemma click_opens_known_page_witness :
  true = true
  /\ exists slug hasCurrent,
       "/details/chicken-house"%string = String.append "/details/" slug
       /\ prop_get Navigation.COMPONENT_CONFIG slug = Some hasCurrent
       /\ Navigation.ComponentDetailPage slug
          = Navigation.Comparison hasCurrent.
Proof.
  apply (click_opens_known_page true
           (Sample.node "Chicken-Houses-North" 0 0 10 10)
           "/details/chicken-house");
    [reflexivity | discriminate | discriminate].
Defined.

(** X15.  The partial match takes the first entry of the map it finds, and
    the first entry is farm: every node id that contains the word farm, or
    is a fragment of it (the empty id, a single letter a, ...), opens the
    farm page, whatever else it mentions; the one exception is the exact
    id farm-waterways, which opens the waterways page.  Letter case does
    not matter. *)
Theorem click_prefers_farm (node : DiagramNode.t) :
  let nodeId := Navigation.toLowerCase (DiagramNode.id node) in
  Navigation.str_includes nodeId "farm" = true
  \/ Navigation.str_includes "farm" nodeId = true ->
  (nodeId = "farm-waterways"%string
   /\ Navigation.handleClick true node = Navigation.Push "/details/waterways")
  \/ (nodeId <> "farm-waterways"%string
      /\ Navigation.handleClick true node = Navigation.Push "/details/farm").
Proof.
  intros nodeId Hinc. unfold Navigation.handleClick. fold nodeId.
  simpl negb. cbv iota.
  destruct (prop_get Navigation.NODE_TO_COMPONENT_MAP nodeId) as [slug|] eqn:Ep.
  - apply prop_get_In in Ep. simpl in Ep.
    assert (Hinc' : (Navigation.str_includes nodeId "farm"
                     || Navigation.str_includes "farm" nodeId) = true)
      by now apply orb_true_iff.
    repeat (destruct Ep as [[= E1 E2] | Ep];
            [rewrite <- E1 in *; rewrite <- E2;
             first [ right; split; [discriminate|reflexivity]
                   | left; split; reflexivity
                   | vm_compute in Hinc'; discriminate ]|]).
    destruct Ep.
  - destruct (Navigation.inherited nodeId) as [v|] eqn:Ei.
    + exfalso.
      assert (Hinc' : (Navigation.str_includes nodeId "farm"
                       || Navigation.str_includes "farm" nodeId) = true)
        by now apply orb_true_iff.
      apply inherited_lower in Ei as [Ei | Ei]; fold nodeId in Ei;
        rewrite Ei in Hinc'; vm_compute in Hinc'; discriminate.
    + right. split.
      * intros E. rewrite E in Ep. vm_compute in Ep. discriminate.
      * unfold Navigation.NODE_TO_COMPONENT_MAP.
        cbn [Navigation.partialMatch].
        apply orb_true_iff in Hinc. now rewrite Hinc.
Qed.

Lemma click_prefers_farm_witness :
  (Navigation.toLowerCase "Poultry-Farm-3" = "farm-waterways"%string
   /\ Navigation.handleClick true (Sample.node "Poultry-Farm-3" 0 0 10 10)
      = Navigation.Push "/details/waterways")
  \/ (Navigation.toLowerCase "Poultry-Farm-3" <> "farm-waterways"%string
      /\ Navigation.handleClick true (Sample.node "Poultry-Farm-3" 0 0 10 10)
         = Navigation.Push "/details/farm").
Proof.
  apply (click_prefers_farm (Sample.node "Poultry-Farm-3" 0 0 10 10)).
  left. reflexivity.
Defined.

(** ** The home page toggle *)

Lemma HomePage_invariant (events : list HomePage.Event) (st : HomePage.State.t) :
  HomePage.State.animateTransition st = HomePage.State.showProposed st ->
  HomePage.State.animateTransition (fold_left HomePage.handle events st)
  = HomePage.State.showProposed (fold_left HomePage.handle events st).
Proof.
  revert st. induction events as [|e events IH]; intros st Hst; simpl.
  - exact Hst.
  - apply IH. destruct e; simpl; [|reflexivity].
    unfold HomePage.handleToggleToProposed.
    destruct (HomePage.State.showProposed st) eqn:E; simpl;
      [congruence|reflexivity].
Qed.

(** X16.  On the home page the animation flag always equals the toggle:
    after any run of clicks on the two buttons, animateTransition is true
    exactly when the proposed system is shown, and the last click decides
    which one is shown.  So, when the proposed data is tagged "proposed",
    the diagram is rendered with the staged reveal exactly while the
    proposed system is shown. *)
Theorem home_page_animates_proposed (events : list HomePage.Event)
    (currentSystemData proposedSystemData : DiagramData.t) (m : Metadata.t) :
  DiagramData.metadata proposedSystemData = Some m ->
  Metadata.system m = "proposed"%string ->
  let st := HomePage.after events in
  HomePage.State.animateTransition st = HomePage.State.showProposed st
  /\ HomePage.State.showProposed st
     = match List.last events HomePage.ToggleToCurrent with
       | HomePage.ToggleToProposed => true
       | HomePage.ToggleToCurrent => false
       end
  /\ shouldAnimate (HomePage.State.animateTransition st)
       (HomePage.shown currentSystemData proposedSystemData st)
     = HomePage.State.showProposed st.
Proof.
  intros Hm Hsys st.
  assert (Hinv : HomePage.State.animateTransition st
                 = HomePage.State.showProposed st).
  { apply HomePage_invariant. reflexivity. }
  split; [exact Hinv|]. split.
  - unfold st, HomePage.after.
    clear Hinv st. induction events as [|e0 events _] using rev_ind;
      [reflexivity|].
    rewrite fold_left_app, last_last. simpl.
    destruct e0; simpl; [|reflexivity].
    unfold HomePage.handleToggleToProposed.
    now destruct (HomePage.State.showProposed
                    (fold_left HomePage.handle events HomePage.initial))
      eqn:E.
  - rewrite Hinv. unfold HomePage.shown, shouldAnimate.
    destruct (HomePage.State.showProposed st); [|reflexivity].
    unfold context. rewrite Hm, Hsys. reflexivity.
Qed.

Lemma home_page_animates_proposed_witness :
  let proposed :=
    DiagramData.mk (Some (Metadata.mk "t" "d" "sankey" "proposed"))
      Sample.nodes [ Sample.AB ] 850 700 in
  let st := HomePage.after [ HomePage.ToggleToProposed;
                             HomePage.ToggleToCurrent;
                             HomePage.ToggleToProposed ] in
  HomePage.State.animateTransition st = HomePage.State.showProposed st
  /\ HomePage.State.showProposed st
     = match List.last [ HomePage.ToggleToProposed; HomePage.ToggleToCurrent;
                    HomePage.ToggleToProposed ] HomePage.ToggleToCurrent with
       | HomePage.ToggleToProposed => true
       | HomePage.ToggleToCurrent => false
       end
  /\ shouldAnimate (HomePage.State.animateTransition st)
       (HomePage.shown Sample.data proposed st)
     = HomePage.State.showProposed st.
Proof.
  intros proposed.
  apply (home_page_animates_proposed
           [ HomePage.ToggleToProposed; HomePage.ToggleToCurrent;
             HomePage.ToggleToProposed ]
           Sample.data proposed (Metadata.mk "t" "d" "sankey" "proposed"));
    reflexivity.
Defined.

(** ** The gate, again *)

Lemma append_cons (x : ascii) (a b : string) :
  String.append (String x a) b = String x (String.append a b).
Proof. reflexivity. Qed.

Lemma append_nil_r (a : string) : String.append a EmptyString = a.
Proof.
  induction a as [|x a IH]; [reflexivity|]. now rewrite append_cons, IH.
Qed.

Lemma append_assoc (a b c : string) :
  String.append (String.append a b) c = String.append a (String.append b c).
Proof.
  induction a as [|x a IH]; [reflexivity|]. now rewrite !append_cons, IH.
Qed.

Lemma split_no_sep (sep : ascii) (a : string) :
  has_char sep a = false -> split sep a = [ a ].
Proof.
  induction a as [|c a IH]; simpl; [reflexivity|].
  intros H. apply orb_false_iff in H as [Hc Ha].
  rewrite Hc, (IH Ha). reflexivity.
Qed.

Lemma split_at_sep (sep : ascii) (a s : string) :
  has_char sep a = false ->
  split sep (String.append a (String sep s)) = a :: split sep s.
Proof.
  induction a as [|c a IH].
  - intros _. change (String.append "" (String sep s)) with (String sep s).
    simpl. now rewrite Ascii.eqb_refl.
  - simpl. intros H. apply orb_false_iff in H as [Hc Ha].
    rewrite ?append_cons. simpl. rewrite Hc, (IH Ha). reflexivity.
Qed.

(** X17.  The gate looks only at the second piece of the header: the word
    before the first space (the scheme) is never checked, and whatever
    follows a second space is ignored.  A header made of any space-free
    word, a space, a space-free token and possibly a space and more text
    is treated exactly like "Basic " followed by that token. *)
Theorem gate_ignores_scheme (scheme token : string) (more : option string)
    (url : Url.t) :
  has_char " " scheme = false ->
  has_char " " token = false ->
  let header :=
    String.append scheme
      (String " " (String.append token
                     match more with
                     | Some text => String " " text
                     | None => EmptyString
                     end)) in
  middleware (Request.mk (Some header) url)
  = middleware (Request.mk (Some (String.append "Basic " token)) url).
Proof.
  intros Hs Ht header.
  assert (Hpiece : forall w, has_char " " w = false ->
            forall tail,
              tail = EmptyString \/ (exists text, tail = String " " text) ->
              nth_error (split " " (String.append w
                                      (String " " (String.append token tail))))
                1 = Some token).
  { intros w Hw tail Htail. rewrite (split_at_sep _ _ _ Hw).
    destruct Htail as [-> | (text & ->)].
    - rewrite append_nil_r. now rewrite (split_no_sep _ _ Ht).
    - now rewrite (split_at_sep _ _ _ Ht). }
  assert (Hne : forall w tail,
            String.append w (String " " tail) <> EmptyString).
  { intros w tail. destruct w; discriminate. }
  rewrite (middleware_with_header (Request.mk (Some header) url) header
             eq_refl (Hne _ _)).
  rewrite (middleware_with_header
             (Request.mk (Some (String.append "Basic " token)) url)
             (String.append "Basic " token) eq_refl)
    by discriminate.
  cbn [Request.nextUrl].
  unfold header. rewrite (Hpiece scheme Hs).
  2:{ destruct more as [text|]; [right; now exists text|now left]. }
  change (String.append "Basic " token)
    with (String.append "Basic" (String " " token)).
  pose proof (Hpiece "Basic"%string eq_refl "" (or_introl eq_refl)) as Hb.
  rewrite append_nil_r in Hb. rewrite Hb. reflexivity.
Qed.

Lemma gate_ignores_scheme_witness :
  middleware
    (Request.mk
       (Some (String.append "Bearer"
                (String " " (String.append "Y2FsdmluOmNhbHZpbjEyMw=="
                               (String " " "and more")))))
       (Url.mk "/" ""))
  = middleware
      (Request.mk (Some (String.append "Basic " "Y2FsdmluOmNhbHZpbjEyMw=="))
         (Url.mk "/" "")).
Proof.
  apply (gate_ignores_scheme "Bearer" "Y2FsdmluOmNhbHZpbjEyMw=="
           (Some "and more"%string) (Url.mk "/" "")); reflexivity.
Defined.

(** ** Path ids of two diagrams on one page *)

Lemma append_same_prefix (a x y : string) :
  String.append a x = String.append a y -> x = y.
Proof.
  induction a as [|c a IH]; [auto|]. rewrite !append_cons. intros [= H]. auto.
Qed.

Lemma hyphen_free_prefix (c : ascii) (a b s s' : string) :
  has_char c a = false -> has_char c b = false ->
  String.append a (String c s) = String.append b (String c s') ->
  a = b.
Proof.
  revert b. induction a as [|x a IH]; intros [|y b]; simpl; intros Ha Hb H;
    rewrite ?append_cons in H;
    change (String.append "" (String c s)) with (String c s) in H;
    change (String.append "" (String c s')) with (String c s') in H.
  - reflexivity.
  - injection H as Hc _. subst y. now rewrite Ascii.eqb_refl in Hb.
  - injection H as Hc _. subst x. now rewrite Ascii.eqb_refl in Ha.
  - apply orb_false_iff in Ha as [_ Ha]. apply orb_false_iff in Hb as [_ Hb].
    injection H as -> H. f_equal. now apply IH.
Qed.

(** X18.  Two diagrams on one page never share a path id when their
    instance ids are different and contain no hyphen (as "current",
    "proposed" and "default" do): no primary or text path id of the one
    equals a primary or text path id of the other, whatever the link
    ids. *)
Theorem path_ids_do_not_collide (instanceId1 instanceId2 : string)
    (link1 link2 : DiagramLink.t) (text1 text2 : bool) :
  has_char "-" instanceId1 = false ->
  has_char "-" instanceId2 = false ->
  instanceId1 <> instanceId2 ->
  let pathId instanceId link (text : bool) :=
    if text then String.append (linkPathId instanceId link) "-text"
    else linkPathId instanceId link in
  pathId instanceId1 link1 text1 <> pathId instanceId2 link2 text2.
Proof.
  intros H1 H2 Hne pathId Heq. apply Hne.
  assert (Hshape : forall inst link text,
            exists tail,
              pathId inst link text
              = String.append "link-path-"
                  (String.append inst (String "-" tail))).
  { intros inst link [|]; unfold pathId, linkPathId.
    - exists (String.append (DiagramLink.id link) "-text").
      rewrite !append_assoc. reflexivity.
    - exists (DiagramLink.id link). reflexivity. }
  destruct (Hshape instanceId1 link1 text1) as (t1 & E1).
  destruct (Hshape instanceId2 link2 text2) as (t2 & E2).
  rewrite E1, E2 in Heq. apply append_same_prefix in Heq.
  now apply (hyphen_free_prefix _ _ _ _ _ H1 H2 Heq).
Qed.

Lemma path_ids_do_not_collide_witness :
  (if true then String.append (linkPathId "current" Sample.AB) "-text"
   else linkPathId "current" Sample.AB)
  <> (if false then String.append (linkPathId "proposed" Sample.AB) "-text"
      else linkPathId "proposed" Sample.AB).
Proof.
  apply (path_ids_do_not_collide "current" "proposed" Sample.AB Sample.AB
           true false); [reflexivity | reflexivity | discriminate].
Defined.

(** ** The viewport fit, again *)

Lemma fit_inside_aux (width height W H x0 y0 s : Q) :
  0 < W -> 0 < H -> 0 < s ->
  W * s <= (width - 20) * (95 # 100) ->
  H * s <= (height - 20) * (95 # 100) ->
  20 < width -> 20 < height ->
  let tX := (width - W * s) / 2 - x0 * s in
  let tY := (height - H * s) / 2 - y0 * s in
  0 < x0 * s + tX /\ x0 * s + tX < (x0 + W) * s + tX
  /\ (x0 + W) * s + tX < width
  /\ 0 < y0 * s + tY /\ y0 * s + tY < (y0 + H) * s + tY
  /\ (y0 + H) * s + tY < height.
Proof.
  intros HW HH Hs Hws Hhs Hw Hh tX tY.
  assert (Pw : 0 < W * s) by (apply Qmult_lt_0_compat; assumption).
  assert (Ph : 0 < H * s) by (apply Qmult_lt_0_compat; assumption).
  assert (E1 : (x0 + W) * s == x0 * s + W * s) by ring.
  assert (E2 : (y0 + H) * s == y0 * s + H * s) by ring.
  assert (T1 : tX == (width - W * s) * (1 # 2) - x0 * s)
    by (unfold tX; field).
  assert (T2 : tY == (height - H * s) * (1 # 2) - y0 * s)
    by (unfold tY; field).
  clearbody tX tY.
  rewrite E1, E2.
  generalize dependent (W * s). generalize dependent (H * s).
  generalize dependent (x0 * s). generalize dependent (y0 * s).
  intros. clear E1 E2. do 4 (split; [lra|]). split; lra.
Qed.

(** X19.  For a bounding box of positive size the scale of the fit is
    positive exactly when the viewport is wider and higher than the
    padding of 20 (a narrower viewport mirrors the diagram).  In such a
    viewport the fitted box lies strictly inside the viewport on all four
    sides, and it is tight in one direction: its width is 95% of the
    viewport width less the padding, or its height is 95% of the viewport
    height less the padding. *)
Theorem viewportFit_inside (width height : Q) (bbox : BBox.t) :
  0 < BBox.width bbox -> 0 < BBox.height bbox ->
  exists f,
    viewportFit width height (Some bbox) = Some f
    /\ (0 < Fit.scale f <-> 20 < width /\ 20 < height)
    /\ (20 < width -> 20 < height ->
        let lo := applyFit f (BBox.x bbox, BBox.y bbox) in
        let hi := applyFit f (BBox.x bbox + BBox.width bbox,
                              BBox.y bbox + BBox.height bbox) in
        0 < fst lo /\ fst lo < fst hi /\ fst hi < width
        /\ 0 < snd lo /\ snd lo < snd hi /\ snd hi < height
        /\ (fst hi - fst lo == (width - 20) * (95 # 100)
            \/ snd hi - snd lo == (height - 20) * (95 # 100))).
Proof.
  intros HW HH. eexists. split; [reflexivity|].
  unfold applyFit, padding. cbn [Fit.scale Fit.translateX Fit.translateY fst snd].
  set (W := BBox.width bbox) in *. set (H := BBox.height bbox) in *.
  set (a := (width - 20) / W). set (b := (height - 20) / H).
  assert (Ha : W * a == width - 20) by (unfold a; field; lra).
  assert (Hb : H * b == height - 20) by (unfold b; field; lra).
  assert (Hapos : 0 < a <-> 20 < width).
  { split; intros Hx; [nra|]. unfold a. apply Qlt_shift_div_l; lra. }
  assert (Hbpos : 0 < b <-> 20 < height).
  { split; intros Hx; [nra|]. unfold b. apply Qlt_shift_div_l; lra. }
  generalize (BBox.x bbox), (BBox.y bbox). intros x0 y0.
  clearbody a b W H.
  set (s := Qmin a b * (95 # 100)).
  assert (Hmin : (Qmin a b == a /\ a <= b) \/ (Qmin a b == b /\ b <= a))
    by apply Qmin_cases.
  assert (Hs : 0 < s <-> 20 < width /\ 20 < height).
  { unfold s. destruct Hmin as [[Em Hle] | [Em Hle]]; rewrite Em;
      split; intros Hx.
    - assert (0 < a) by lra. assert (0 < b) by lra. tauto.
    - assert (0 < a) by tauto. lra.
    - assert (0 < a) by lra. assert (0 < b) by lra. tauto.
    - assert (0 < b) by tauto. lra. }
  split; [exact Hs|].
  intros Hw Hh.
  assert (Hspos : 0 < s) by tauto.
  assert (Hws : W * s <= (width - 20) * (95 # 100)).
  { unfold s. rewrite Qmult_assoc.
    assert (W * Qmin a b <= W * a)
      by (apply Qmult_le_l; [exact HW | apply Q.le_min_l]).
    lra. }
  assert (Hhs : H * s <= (height - 20) * (95 # 100)).
  { unfold s. rewrite Qmult_assoc.
    assert (H * Qmin a b <= H * b)
      by (apply Qmult_le_l; [exact HH | apply Q.le_min_r]).
    lra. }
  destruct (fit_inside_aux width height W H x0 y0 s HW HH Hspos Hws Hhs Hw Hh)
    as (B1 & B2 & B3 & B4 & B5 & B6).
  do 6 (split; [assumption|]).
  unfold s. destruct Hmin as [[Em _] | [Em _]]; rewrite Em.
  - left. rewrite <- Ha. ring.
  - right. rewrite <- Hb. ring.
Qed.

Lemma viewportFit_inside_witness :
  exists f,
    viewportFit 850 700 (Some (BBox.mk 10 20 1000 500)) = Some f
    /\ (0 < Fit.scale f <-> 20 < 850 /\ 20 < 700)
    /\ (20 < 850 -> 20 < 700 ->
        let lo := applyFit f (10, 20) in
        let hi := applyFit f (10 + 1000, 20 + 500) in
        0 < fst lo /\ fst lo < fst hi /\ fst hi < 850
        /\ 0 < snd lo /\ snd lo < snd hi /\ snd hi < 700
        /\ (fst hi - fst lo == (850 - 20) * (95 # 100)
            \/ snd hi - snd lo == (700 - 20) * (95 # 100))).
Proof.
  apply (viewportFit_inside 850 700 (BBox.mk 10 20 1000 500)); reflexivity.
Defined.

(** ** The label of a node *)

Lemma append_nil_l (s : string) : String.append EmptyString s = s.
Proof. reflexivity. Qed.

Lemma skip_spaces_length (s : string) :
  (String.length (skip_spaces s) <= String.length s)%nat.
Proof.
  induction s as [|c s IH]; simpl; [lia|].
  destruct (is_space c); simpl; lia.
Qed.

(** A match is not empty. *)
Lemma br_tag_length (s after : string) :
  br_tag s = Some after -> (String.length after < String.length s)%nat.
Proof.
  unfold br_tag.
  destruct s as [|c0 [|b [|r rest]]]; try discriminate.
  destruct (_ && _); [|discriminate].
  pose proof (skip_spaces_length rest) as H.
  destruct (skip_spaces rest) as [|c1 t]; [discriminate|].
  simpl in H. cbv zeta.
  destruct (Ascii.eqb c1 "/").
  - destruct t as [|c2 t']; [discriminate|].
    destruct (Ascii.eqb c2 ">"); [|discriminate].
    intros [= <-]. simpl in *. lia.
  - destruct (Ascii.eqb c1 ">"); [|discriminate].
    intros [= <-]. simpl in *. lia.
Qed.

Lemma split_br_from_S (fuel : nat) (s : string) :
  split_br_from (S fuel) s
  = match br_tag s with
    | Some after => EmptyString :: split_br_from fuel after
    | None =>
        match s with
        | EmptyString => [ EmptyString ]
        | String c rest => cons_first c (split_br_from fuel rest)
        end
    end.
Proof. reflexivity. Qed.

(** More than the length of the string is enough fuel: the result does not
    depend on the bound. *)
Lemma split_br_from_enough (fuel1 fuel2 : nat) (s : string) :
  (String.length s < fuel1)%nat -> (String.length s < fuel2)%nat ->
  split_br_from fuel1 s = split_br_from fuel2 s.
Proof.
  revert fuel2 s. induction fuel1 as [|fuel1 IH]; intros fuel2 s H1 H2; [lia|].
  destruct fuel2 as [|fuel2]; [lia|]. rewrite !split_br_from_S.
  destruct (br_tag s) as [after|] eqn:E.
  - apply br_tag_length in E. f_equal. apply IH; lia.
  - destruct s as [|c rest]; [reflexivity|]. simpl in H1, H2.
    f_equal. apply IH; lia.
Qed.

Lemma split_br_tag (s after : string) :
  br_tag s = Some after -> split_br s = EmptyString :: split_br after.
Proof.
  intros Htag. unfold split_br.
  rewrite (split_br_from_S (String.length s) s), Htag. f_equal.
  apply br_tag_length in Htag. apply split_br_from_enough; lia.
Qed.

Lemma split_br_nil : split_br EmptyString = [ EmptyString ].
Proof. reflexivity. Qed.

Lemma split_br_char (c : ascii) (rest : string) :
  br_tag (String c rest) = None ->
  split_br (String c rest) = cons_first c (split_br rest).
Proof.
  intros Htag. unfold split_br.
  rewrite (split_br_from_S (String.length (String c rest))), Htag.
  reflexivity.
Qed.

(** Induction along the way [split_br] reads a string. *)
Lemma split_br_ind (P : string -> Prop) :
  P EmptyString ->
  (forall s after, br_tag s = Some after -> P after -> P s) ->
  (forall c rest, br_tag (String c rest) = None -> P rest ->
                  P (String c rest)) ->
  forall s, P s.
Proof.
  intros Hnil Htag Hchar s.
  remember (String.length s) as n eqn:En. revert s En.
  induction n as [n IH] using lt_wf_ind. intros s ->.
  destruct (br_tag s) as [after|] eqn:E.
  - apply (Htag _ _ E). apply (IH (String.length after)); [|reflexivity].
    now apply br_tag_length.
  - destruct s as [|c rest]; [exact Hnil|].
    apply (Hchar _ _ E). apply (IH (String.length rest)); [simpl; lia|].
    reflexivity.
Qed.

Lemma has_br_tag_cons (c : ascii) (s : string) :
  has_br_tag (String c s)
  = match br_tag (String c s) with
    | Some _ => true
    | None => has_br_tag s
    end.
Proof. reflexivity. Qed.

Lemma split_br_nonempty (s : string) : split_br s <> [].
Proof.
  induction s as [| s after E IH | c rest E IH] using split_br_ind.
  - now rewrite split_br_nil.
  - now rewrite (split_br_tag _ _ E).
  - rewrite (split_br_char _ _ E). now destruct (split_br rest).
Qed.

Lemma skip_spaces_app (a b : string) (c : ascii) (t : string) :
  skip_spaces a = String c t ->
  skip_spaces (String.append a b) = String c (String.append t b).
Proof.
  induction a as [|x a IH]; simpl; [discriminate|].
  destruct (is_space x) eqn:E.
  - intros H. rewrite ?append_cons. simpl. rewrite ?E. now apply IH.
  - intros [= -> ->]. rewrite ?append_cons. simpl. now rewrite ?E.
Qed.

(** A match stays a match when text is added behind it. *)
Lemma br_tag_app (a b after : string) :
  br_tag a = Some after ->
  br_tag (String.append a b) = Some (String.append after b).
Proof.
  unfold br_tag.
  destruct a as [|c0 [|x [|r rest]]]; try discriminate.
  rewrite !append_cons.
  destruct (_ && _); [|discriminate].
  destruct (skip_spaces rest) as [|c1 t] eqn:Es; [discriminate|].
  rewrite (skip_spaces_app _ b _ _ Es). cbv zeta.
  destruct (Ascii.eqb c1 "/").
  - destruct t as [|c2 t']; [discriminate|]. rewrite append_cons.
    destruct (Ascii.eqb c2 ">"); [|discriminate]. now intros [= <-].
  - destruct (Ascii.eqb c1 ">"); [|discriminate]. now intros [= <-].
Qed.

Lemma skip_spaces_all (a b : string) :
  skip_spaces a = EmptyString ->
  skip_spaces (String.append a b) = skip_spaces b.
Proof.
  induction a as [|x a IH]; simpl; [reflexivity|].
  destruct (is_space x) eqn:E; [|discriminate].
  intros H. rewrite ?append_cons. simpl. rewrite ?E. now apply IH.
Qed.

(** A match never runs into a following [<]: the bracket can only be the
    first character of a match. *)
Lemma br_tag_before_bracket (a x : string) (after : string) :
  a <> EmptyString ->
  br_tag (String.append a (String "<" x)) = Some after ->
  exists after', br_tag a = Some after'.
Proof.
  intros Hne. unfold br_tag.
  destruct a as [|c0 [|b [|r rest]]]; [contradiction| | |].
  - rewrite append_cons, append_nil_l.
    destruct x as [|r x]; [discriminate|].
    change (Ascii.eqb "<" "b" || Ascii.eqb "<" "B") with false.
    rewrite andb_false_r. discriminate.
  - rewrite !append_cons, append_nil_l.
    change (Ascii.eqb "<" "r" || Ascii.eqb "<" "R") with false.
    rewrite andb_false_r. discriminate.
  - rewrite !append_cons.
    destruct (_ && _); [|discriminate].
    destruct (skip_spaces rest) as [|c1 t] eqn:Es.
    + rewrite (skip_spaces_all _ _ Es). simpl. discriminate.
    + rewrite (skip_spaces_app _ _ _ _ Es). cbv zeta.
      destruct (Ascii.eqb c1 "/").
      * destruct t as [|c2 t']; [simpl; discriminate|]. rewrite append_cons.
        destruct (Ascii.eqb c2 ">"); [|discriminate]. eauto.
      * destruct (Ascii.eqb c1 ">"); [|discriminate]. eauto.
Qed.

(** The first piece is the start of the string. *)
Lemma split_br_first (s : string) :
  exists line lines rest,
    split_br s = line :: lines /\ s = String.append line rest.
Proof.
  induction s as [| s after E IH | c s E IH] using split_br_ind.
  - exists EmptyString, [], EmptyString. rewrite split_br_nil.
    split; reflexivity.
  - rewrite (split_br_tag _ _ E). exists EmptyString, (split_br after), s.
    split; reflexivity.
  - rewrite (split_br_char _ _ E).
    destruct IH as (line & lines & rest & -> & ->).
    exists (String c line), lines, rest. split; reflexivity.
Qed.

Lemma split_br_no_tag (s : string) :
  Forall (fun line => has_br_tag line = false) (split_br s).
Proof.
  induction s as [| s after E IH | c s E IH] using split_br_ind.
  - rewrite split_br_nil. now repeat constructor.
  - rewrite (split_br_tag _ _ E). now constructor.
  - rewrite (split_br_char _ _ E).
    destruct (split_br_first s) as (line & lines & rest & Hs & Hrest).
    rewrite Hs in IH |- *. simpl.
    inversion IH as [|? ? Hline Hlines]; subst.
    constructor; [|assumption].
    rewrite has_br_tag_cons.
    destruct (br_tag (String c line)) as [after|] eqn:Et; [|exact Hline].
    apply (br_tag_app _ rest) in Et. rewrite append_cons in Et. congruence.
Qed.

Lemma split_br_without_tag (s : string) :
  has_br_tag s = false -> split_br s = [ s ].
Proof.
  induction s as [|c s IH]; [reflexivity|].
  rewrite has_br_tag_cons.
  destruct (br_tag (String c s)) eqn:E; [discriminate|].
  intros H. rewrite (split_br_char _ _ E), (IH H). reflexivity.
Qed.

Lemma has_br_tag_empty : has_br_tag EmptyString = false.
Proof. reflexivity. Qed.

(** A piece without a match, a [<br>] and more text: the piece is split
    off. *)
Lemma split_br_line (line rest : string) :
  has_br_tag line = false ->
  split_br (String.append line (String.append "<br>" rest))
  = line :: split_br rest.
Proof.
  induction line as [|c line IH].
  - intros _. now apply split_br_tag.
  - rewrite has_br_tag_cons.
    destruct (br_tag (String c line)) eqn:E; [discriminate|].
    intros H. rewrite append_cons.
    rewrite split_br_char.
    + now rewrite (IH H).
    + rewrite <- append_cons.
      destruct (br_tag (String.append (String c line)
                          (String.append "<br>" rest))) eqn:E'; [|reflexivity].
      apply br_tag_before_bracket in E' as (after' & E'); [|discriminate].
      congruence.
Qed.

Lemma split_join_br (lines : list string) :
  lines <> [] ->
  Forall (fun line => has_br_tag line = false) lines ->
  split_br (join_br lines) = lines.
Proof.
  induction lines as [|line [|line2 rest] IH]; [contradiction| |].
  - intros _ Hall. inversion Hall; subst. now apply split_br_without_tag.
  - intros _ Hall. inversion Hall as [|? ? Hline Hrest]; subst.
    change (join_br (line :: line2 :: rest))
      with (String.append line (String.append "<br>" (join_br (line2 :: rest)))).
    rewrite (split_br_line _ _ Hline). f_equal. now apply IH.
Qed.

Lemma nodeLabel_texts (node : DiagramNode.t) (label : NodeLabel.t) :
  nodeLabel node = Some label ->
  map Tspan.text (NodeLabel.tspans label) = split_br (DiagramNode.name node).
Proof.
  unfold nodeLabel.
  assert (H : forall (f : nat -> Q) (x : Q) (l : list string),
             map Tspan.text (imap (fun i line => Tspan.mk x (f i) line) l) = l).
  { intros f x l. revert f. induction l as [|a l IH]; intros f; simpl;
      [reflexivity|].
    f_equal. apply (IH (fun i => f (S i))). }
  destruct (DiagramNode.showLabel node) as [[|]|]; try discriminate;
    intros [= <-]; cbn [NodeLabel.tspans];
    apply (H (fun i => if (i =? 0)%nat then 0 else _)).
Qed.

Lemma nodeLabel_shown (node : DiagramNode.t) :
  DiagramNode.showLabel node <> Some false ->
  exists label, nodeLabel node = Some label.
Proof.
  unfold nodeLabel.
  destruct (DiagramNode.showLabel node) as [[|]|]; try congruence; eauto.
Qed.

(** X20.  A node is labelled unless showLabel is false.  The label has one
    tspan for every piece of the name between break tags, at least one;
    no line shown contains a break tag (a text the pattern <br\s*\/?>
    matches, in either letter case), and a name without a break tag is
    shown as it is, on one line.  Every line is centred on the middle of
    the node's width. *)
Theorem node_label_lines (node : DiagramNode.t) :
  (nodeLabel node = None <-> DiagramNode.showLabel node = Some false)
  /\ forall label,
       nodeLabel node = Some label ->
       map Tspan.text (NodeLabel.tspans label)
       = split_br (DiagramNode.name node)
       /\ (1 <= List.length (NodeLabel.tspans label))%nat
       /\ Forall (fun t => has_br_tag (Tspan.text t) = false
                           /\ Tspan.x t = DiagramNode.width node / 2)
            (NodeLabel.tspans label)
       /\ (has_br_tag (DiagramNode.name node) = false ->
           map Tspan.text (NodeLabel.tspans label)
           = [ DiagramNode.name node ]).
Proof.
  split.
  - unfold nodeLabel.
    destruct (DiagramNode.showLabel node) as [[|]|]; split; congruence.
  - intros label Hl. pose proof (nodeLabel_texts _ _ Hl) as Ht.
    split; [exact Ht|]. split; [|split].
    + assert (Hlen : List.length (map Tspan.text (NodeLabel.tspans label))
                     = List.length (split_br (DiagramNode.name node)))
        by now rewrite Ht.
      rewrite length_map in Hlen. rewrite Hlen.
      pose proof (split_br_nonempty (DiagramNode.name node)).
      destruct (split_br (DiagramNode.name node)); [contradiction|simpl; lia].
    + pose proof (split_br_no_tag (DiagramNode.name node)) as Hno.
      rewrite <- Ht in Hno. rewrite List.Forall_forall in Hno.
      apply List.Forall_forall. intros t Hin. split.
      * apply Hno. now apply in_map.
      * revert Hin. clear -Hl. unfold nodeLabel in Hl.
        assert (H : forall (f : nat -> Q) (x : Q) (l : list string) t,
                   In t (imap (fun i line => Tspan.mk x (f i) line) l) ->
                   Tspan.x t = x).
        { intros f x l. revert f. induction l as [|a l IH]; intros f t0; simpl;
            [intros []|].
          intros [<- | Hin]; [reflexivity|].
          apply (IH (fun i => f (S i))). exact Hin. }
        destruct (DiagramNode.showLabel node) as [[|]|]; try discriminate;
          injection Hl as <-; cbn [NodeLabel.tspans];
          apply (H (fun i => if (i =? 0)%nat then 0 else _)).
    + intros Hno. rewrite Ht. now apply split_br_without_tag.
Qed.

Lemma node_label_lines_witness :
  (nodeLabel Demo.plant = None
   <-> DiagramNode.showLabel Demo.plant = Some false)
  /\ forall label,
       nodeLabel Demo.plant = Some label ->
       map Tspan.text (NodeLabel.tspans label)
       = split_br (DiagramNode.name Demo.plant)
       /\ (1 <= List.length (NodeLabel.tspans label))%nat
       /\ Forall (fun t => has_br_tag (Tspan.text t) = false
                           /\ Tspan.x t = DiagramNode.width Demo.plant / 2)
            (NodeLabel.tspans label)
       /\ (has_br_tag (DiagramNode.name Demo.plant) = false ->
           map Tspan.text (NodeLabel.tspans label)
           = [ DiagramNode.name Demo.plant ]).
Proof.
  exact (node_label_lines Demo.plant).
Defined.

(** X21.  Writing a label: a node whose name is a list of lines joined by
    <br>, none of them containing a break tag, is labelled with exactly
    these lines, in the same order.  Together with X20: the lines of any
    name are the lines of the same name written with plain <br> tags. *)
Theorem node_label_round_trip (node : DiagramNode.t) (lines : list string) :
  lines <> [] ->
  Forall (fun line => has_br_tag line = false) lines ->
  DiagramNode.name node = join_br lines ->
  DiagramNode.showLabel node <> Some false ->
  exists label,
    nodeLabel node = Some label
    /\ map Tspan.text (NodeLabel.tspans label) = lines
    /\ split_br (join_br (split_br (DiagramNode.name node)))
       = split_br (DiagramNode.name node).
Proof.
  intros Hne Hall Hname Hshow.
  destruct (nodeLabel_shown _ Hshow) as (label & Hl).
  exists label. split; [exact Hl|]. split.
  - rewrite (nodeLabel_texts _ _ Hl), Hname. now apply split_join_br.
  - apply split_join_br; [apply split_br_nonempty|apply split_br_no_tag].
Qed.

Lemma node_label_round_trip_witness :
  let node :=
    DiagramNode.mk "chicken-house" "Chicken<br>House" 0 200 100 80 "#fff"
      "/images/house.png" None None None None in
  exists label,
    nodeLabel node = Some label
    /\ map Tspan.text (NodeLabel.tspans label)
       = [ "Chicken"%string; "House"%string ]
    /\ split_br (join_br (split_br (DiagramNode.name node)))
       = split_br (DiagramNode.name node).
Proof.
  intros node.
  apply (node_label_round_trip node [ "Chicken"%string; "House"%string ]);
    [discriminate | repeat constructor | reflexivity | discriminate].
Defined.

Lemma Qsum_dy (x lh : Q) (f : nat -> Q) (l : list string) :
  (forall i, f i = lh) ->
  Qsum (map Tspan.dy (imap (fun i line => Tspan.mk x (f i) line) l))
  == inject_Z (Z.of_nat (List.length l)) * lh.
Proof.
  intros Hf. revert f Hf. induction l as [|a l IH]; intros f Hf.
  - simpl. unfold Qsum. simpl. ring.
  - change (Qsum (map Tspan.dy
                    (imap (fun i line => Tspan.mk x (f i) line) (a :: l))))
      with (f 0%nat
            + Qsum (map Tspan.dy
                      (imap (fun i line => Tspan.mk x (f (S i)) line) l))).
    rewrite (IH (fun i => f (S i))) by (intros i; apply Hf).
    rewrite Hf. cbn [List.length]. rewrite Nat2Z.inj_succ, <- Z.add_1_r.
    rewrite inject_Z_plus. ring.
Qed.

(** X22.  The lines of a label are centred on the base line of the label:
    with the first line at the label's y and every later line one line
    height (1.2 times the font size, 12 unless the node gives one) below
    the line before, the middle between the first and the last line is
    yBase + labelOffset, however many lines the name has. *)
Theorem node_label_centred (node : DiagramNode.t) (label : NodeLabel.t) :
  nodeLabel node = Some label ->
  let first := NodeLabel.y label in
  let last := first + Qsum (map Tspan.dy (NodeLabel.tspans label)) in
  (first + last) / 2
  == yBase node + num_or (DiagramNode.labelOffset node) 0
  /\ last - first
     == (inject_Z (Z.of_nat (List.length (NodeLabel.tspans label))) - 1)
        * lineHeight node
  /\ (forall i t, nth_error (NodeLabel.tspans label) i = Some t ->
        Tspan.dy t = if (i =? 0)%nat then 0 else lineHeight node).
Proof.
  intros Hl first last.
  pose proof (split_br_nonempty (DiagramNode.name node)) as Hne.
  unfold nodeLabel in Hl.
  set (lines := split_br (DiagramNode.name node)) in *.
  set (lh := num_or (DiagramNode.fontSize node) 12 * (12 # 10)) in *.
  assert (Hlabel : label
    = NodeLabel.mk (DiagramNode.width node / 2)
        (yBase node
         + ((if (1 <? List.length lines)%nat
             then (- ((inject_Z (Z.of_nat (List.length lines)) - 1) * lh)) / 2
             else 0) + num_or (DiagramNode.labelOffset node) 0))
        (num_or (DiagramNode.fontSize node) 12)
        (imap (fun i line =>
                 Tspan.mk (DiagramNode.width node / 2)
                   (if (i =? 0)%nat then 0 else lh) line) lines)).
  { destruct (DiagramNode.showLabel node) as [[|]|]; congruence. }
  clear Hl.
  destruct lines as [|a l] eqn:El; [contradiction|].
  assert (Hsum : Qsum (map Tspan.dy (NodeLabel.tspans label))
                 == inject_Z (Z.of_nat (List.length l)) * lh).
  { rewrite Hlabel. cbn [NodeLabel.tspans].
    change (Qsum (map Tspan.dy
              (imap (fun i line =>
                       Tspan.mk (DiagramNode.width node / 2)
                         (if (i =? 0)%nat then 0 else lh) line) (a :: l))))
      with (0 + Qsum (map Tspan.dy
                        (imap (fun i line =>
                                 Tspan.mk (DiagramNode.width node / 2)
                                   ((fun _ => lh) i) line) l))).
    rewrite (Qsum_dy _ lh (fun _ => lh)) by reflexivity. ring. }
  assert (Hlen : List.length (NodeLabel.tspans label) = S (List.length l)).
  { rewrite Hlabel. cbn [NodeLabel.tspans]. now rewrite length_imap. }
  assert (Hn : inject_Z (Z.of_nat (S (List.length l))) - 1
               == inject_Z (Z.of_nat (List.length l))).
  { rewrite Nat2Z.inj_succ, <- Z.add_1_r, inject_Z_plus. ring. }
  assert (Hy : NodeLabel.y label
               == yBase node
                  + (- (inject_Z (Z.of_nat (List.length l)) * lh) / 2
                     + num_or (DiagramNode.labelOffset node) 0)).
  { rewrite Hlabel. cbn [NodeLabel.y List.length].
    destruct l as [|b l']; cbn [List.length Nat.ltb Nat.leb].
    - change (inject_Z (Z.of_nat 0)) with 0. field.
    - rewrite Hn. reflexivity. }
  split; [|split].
  - unfold last, first. rewrite Hsum, Hy. field.
  - unfold last, first. rewrite Hsum, Hlen, Hn. unfold lineHeight. fold lh.
    ring.
  - intros i t Hi. rewrite Hlabel in Hi. cbn [NodeLabel.tspans] in Hi.
    revert Hi. unfold lineHeight. fold lh.
    generalize (a :: l). intros l0.
    assert (H : forall (f : nat -> Q) (x : Q) (l : list string) i t,
               nth_error (imap (fun i line => Tspan.mk x (f i) line) l) i
               = Some t -> Tspan.dy t = f i).
    { clear. intros f x l. revert f. induction l as [|a l IH]; intros f i t.
      - destruct i; discriminate.
      - destruct i as [|i]; simpl.
        + now intros [= <-].
        + apply (IH (fun i => f (S i))). }
    apply (H (fun i => if (i =? 0)%nat then 0 else lh)).
Qed.

Lemma node_label_centred_witness :
  exists label,
    nodeLabel Demo.plant = Some label
    /\ (let first := NodeLabel.y label in
        let last := first + Qsum (map Tspan.dy (NodeLabel.tspans label)) in
        (first + last) / 2
        == yBase Demo.plant + num_or (DiagramNode.labelOffset Demo.plant) 0
        /\ last - first
           == (inject_Z (Z.of_nat (List.length (NodeLabel.tspans label))) - 1)
              * lineHeight Demo.plant
        /\ (forall i t, nth_error (NodeLabel.tspans label) i = Some t ->
              Tspan.dy t = if (i =? 0)%nat then 0 else lineHeight Demo.plant)).
Proof.
  eexists.
  assert (Hl : nodeLabel Demo.plant = Some _) by (vm_compute; reflexivity).
  split; [exact Hl|].
  exact (node_label_centred Demo.plant _ Hl).
Defined.

(** ** The look of a marker *)

(** X23.  All markers of a link look the same.  Their size is
    animationSize, or 4 when that is missing or 0.  A marker is an image
    exactly when the link names an icon: particleIcon when it is not
    empty, else particleIconSource when that is neither empty nor the word
    dot; in every other case the marker is a filled circle. *)
Theorem marker_icon_choice (link : DiagramLink.t) (config : ParticleConfig.t)
    (m : Marker.t) :
  particleConfigOf link = Some config ->
  In m (markersOf config) ->
  Marker.size m = num_or (DiagramLink.animationSize link) 4
  /\ Marker.duration m = duration link
  /\ (forall p, Marker.icon m = Some p <->
        (DiagramLink.particleIcon link = Some p /\ p <> EmptyString)
        \/ (truthy_str (DiagramLink.particleIcon link) = false
            /\ DiagramLink.particleIconSource link = Some p
            /\ p <> EmptyString /\ p <> "dot"%string)).
Proof.
  unfold particleConfigOf.
  destruct (Qltb 0 (particleCount link)); [|discriminate].
  intros [= <-] Hin. unfold markersOf in Hin.
  apply in_map_iff in Hin as (delay & <- & _).
  cbn [Marker.size Marker.duration Marker.icon ParticleConfig.size
       ParticleConfig.duration ParticleConfig.useIcon ParticleConfig.iconPath].
  split; [reflexivity|]. split; [reflexivity|].
  intros p. unfold truthy_str.
  destruct (DiagramLink.particleIcon link) as [icon|].
  - destruct (String.eqb icon "") eqn:Ei; simpl.
    + apply String.eqb_eq in Ei. subst icon.
      destruct (DiagramLink.particleIconSource link) as [src|]; simpl.
      * destruct (String.eqb src "") eqn:Es; simpl.
        -- apply String.eqb_eq in Es. subst src. split; [discriminate|].
           intros [[[= <-] Hne] | (_ & [= <-] & Hne & _)]; contradiction.
        -- apply String.eqb_neq in Es.
           destruct (String.eqb src "dot") eqn:Ed; simpl.
           ++ apply String.eqb_eq in Ed. subst src. split; [discriminate|].
              intros [[[= <-] Hne] | (_ & [= <-] & _ & Hne)]; contradiction.
           ++ apply String.eqb_neq in Ed.
              apply String.eqb_neq in Es. rewrite Es. simpl.
              apply String.eqb_neq in Es.
              split.
              ** intros [= <-]. right. now repeat split.
              ** intros [[[= <-] Hne] | (_ & [= <-] & _)];
                   [contradiction|reflexivity].
      * split; [discriminate|].
        intros [[[= <-] Hne] | (_ & [=] & _)]. contradiction.
    + rewrite Ei. simpl. apply String.eqb_neq in Ei. split.
      * intros [= <-]. left. now split.
      * intros [[[= <-] _] | ([=] & _)]. reflexivity.
  - simpl.
    destruct (DiagramLink.particleIconSource link) as [src|]; simpl.
    + destruct (String.eqb src "") eqn:Es; simpl.
      * apply String.eqb_eq in Es. subst src. split; [discriminate|].
        intros [[[=] _] | (_ & [= <-] & Hne & _)]. contradiction.
      * destruct (String.eqb src "dot") eqn:Ed; simpl.
        -- apply String.eqb_eq in Ed. subst src. split; [discriminate|].
           intros [[[=] _] | (_ & [= <-] & _ & Hne)]. contradiction.
        -- rewrite Es. simpl.
           apply String.eqb_neq in Es. apply String.eqb_neq in Ed.
           split.
           ++ intros [= <-]. right. now repeat split.
           ++ intros [[[=] _] | (_ & [= <-] & _)]. reflexivity.
    + split; [discriminate|]. intros [[[=] _] | (_ & [=] & _)].
Qed.

Lemma marker_icon_choice_witness :
  exists config m,
    particleConfigOf Demo.houseToDigester = Some config
    /\ nth_error (markersOf config) 1 = Some m
    /\ Marker.size m
       = num_or (DiagramLink.animationSize Demo.houseToDigester) 4
    /\ Marker.duration m = duration Demo.houseToDigester
    /\ (forall p, Marker.icon m = Some p <->
          (DiagramLink.particleIcon Demo.houseToDigester = Some p
           /\ p <> EmptyString)
          \/ (truthy_str (DiagramLink.particleIcon Demo.houseToDigester)
              = false
              /\ DiagramLink.particleIconSource Demo.houseToDigester = Some p
              /\ p <> EmptyString /\ p <> "dot"%string)).
Proof.
  eexists. eexists.
  split; [vm_compute; reflexivity|]. split; [vm_compute; reflexivity|].
  eapply (marker_icon_choice Demo.houseToDigester);
    [vm_compute; reflexivity | vm_compute; right; left; reflexivity].
Defined.
